(** * Finite automaton diagram generator: layout search and edge routing

    A shallow embedding of the layout and routing code of the generator
    ([getPermutations], [getPossibleGridSizes], [calculateTransitionCost],
    [findOptimalStatePlacement], [bendDirection], [formatSymbol],
    [createTransitions], [checkTransition], [checkConnection], [getEdge],
    [doesLineCrossOtherElements], [formatState] and the node and edge loops
    of [generate]), with the properties of its specification stated and
    proved over these definitions.

    Conventions of the embedding:
    - a grid cell is [option string]: [None] is the source's [null];
    - a grid is a list of rows, written in place by index;
    - [statePositions], a JS object written and read by key, is a [gmap];
    - the transition table, a JS object of objects that the source walks
      with [for ... in], is an association list in the order in which the
      keys were added. A JS object walks keys that look like array indices
      first; the code either adds up what it walks or sorts it, so the
      order of the walk does not show in any result. Keys that
      [Object.prototype] defines are not considered;
    - strings are strings of ASCII characters, for which the code-unit order
      of [sort()] is [String.leb] and the white space of [trim()] is the
      space and the characters 9 to 13;
    - JS numbers are integers here: indices are [nat], and where the source
      subtracts or uses the sentinel [-1] arithmetically they are [Z];
    - reading a property of a missing row ([grid[i][j]] or [grid[0].length]
      where the row is [undefined]) is a [TypeError] in the source and the
      result [TypeError] here. *)

From Stdlib Require Import ZArith Lia Ascii String.
From stdpp Require Import base list strings gmap fin_maps sorting.

Open Scope string_scope.
Open Scope list_scope.
Open Scope nat_scope.

Abbreviation Cell := (option string) (only parsing).
Abbreviation Grid := (list (list (option string))) (only parsing).
Abbreviation Transition := (list (string * list string)) (only parsing).
Abbreviation Transitions := (list (string * list (string * list string))) (only parsing).

(** ** Permutations and grid shapes *)

(** [[...arr.slice(0, i), ...arr.slice(i + 1)]] *)
Definition removeAt {A} (i : nat) (arr : list A) : list A :=
  take i arr ++ drop (S i) arr.

(** [getPermutations]: the recursion is on an array that is one element
    shorter, so the length of the array is all the fuel it needs. *)
Fixpoint getPermutations_fuel {A} (fuel : nat) (arr : list A) : list (list A) :=
  match arr with
  | [] => [[]]
  | _ =>
    match fuel with
    | 0 => []
    | S fuel' =>
      mjoin (imap (fun i v => cons v <$> getPermutations_fuel fuel' (removeAt i arr)) arr)
    end
  end.

Definition getPermutations {A} (arr : list A) : list (list A) :=
  getPermutations_fuel (length arr) arr.

Definition getPossibleGridSizes (n : nat) : list (nat * nat) :=
  seq 1 n ≫= fun rows =>
  seq 1 n ≫= fun cols =>
  if bool_decide (rows * cols = n ∨ rows * cols = n + 1) then [(rows, cols)] else [].

(** ** Transition cost *)

Definition manhattan (p q : nat * nat) : Z :=
  Z.abs (Z.of_nat p.1 - Z.of_nat q.1) + Z.abs (Z.of_nat p.2 - Z.of_nat q.2).

Definition calculateTransitionCost
    (statePositions : gmap string (nat * nat)) (transitions : Transitions) : Z :=
  foldl (fun totalCost '(fromState, byKey) =>
    foldl (fun totalCost '(symbol, dests) =>
      foldl (fun totalCost toState =>
        match statePositions !! fromState, statePositions !! toState with
        | Some p1, Some p2 => (totalCost + manhattan p1 p2)%Z
        | _, _ => totalCost
        end) totalCost dests) totalCost (byKey : Transition)) 0%Z transitions.

(** ** Placement of one permutation in one shape *)

Definition emptyGrid (rows cols : nat) : Grid := replicate rows (replicate cols None).

(** [grid[row][col] = v], for an index inside the grid *)
Definition setCell (grid : Grid) (row col : nat) (v : Cell) : Grid :=
  alter (fun r => <[col := v]> r) row grid.

Definition placeStep (rows cols : nat)
    (st : Grid * gmap string (nat * nat)) (e : nat * string) : Grid * gmap string (nat * nat) :=
  let '(i, s) := e in
  let row := i / cols in
  let col := i mod cols in
  if bool_decide (row < rows ∧ col < cols)
  then (setCell st.1 row col (Some s), <[s := (row, col)]> st.2)
  else st.

Definition placeStates (rows cols : nat) (perm : list string)
    : Grid * gmap string (nat * nat) :=
  foldl (placeStep rows cols) (emptyGrid rows cols, ∅) (imap pair perm).

(** ** Placement constraints *)

Definition isOccupied (cell : Cell) : bool :=
  match cell with Some _ => true | None => false end.

(** [row.findLastIndex(p)], with [None] for the source's [-1] *)
Fixpoint findLastIndex {A} (p : A -> bool) (row : list A) : option nat :=
  match row with
  | [] => None
  | x :: row' =>
    match findLastIndex p row' with
    | Some i => Some (S i)
    | None => if p x then Some 0 else None
    end
  end.

(** [grid.some(row => row[0] === initState)] *)
Definition initialInFirstColumn (initState : string) (grid : Grid) : bool :=
  existsb (fun row => bool_decide (row !! 0 = Some (Some initState))) grid.

(** [acceptingStates.includes(cell)]: [null] is in no list of strings *)
Definition includesCell (acceptingStates : list string) (cell : Cell) : bool :=
  match cell with
  | Some s => bool_decide (s ∈ acceptingStates)
  | None => false
  end.

(** the callback of [grid.every] in the accepting-state constraint *)
Definition rightmostIsAccepting (acceptingStates : list string) (row : list Cell) : bool :=
  match findLastIndex isOccupied row with
  | None => true
  | Some rightmost =>
    match row !! rightmost with
    | Some cell => includesCell acceptingStates cell
    | None => false
    end
  end.

(** the callback of [grid.some] in the accepting-state constraint *)
Definition acceptingBeforeRightmost
    (acceptingStates : list string) (initState : string) (row : list Cell) : bool :=
  match findLastIndex isOccupied row with
  | None => false
  | Some rightmost =>
    existsb (fun cell => includesCell acceptingStates cell
                         && bool_decide (cell ≠ Some initState))
            (take rightmost row)
  end.

(** the condition under which the accepting-state constraint skips a grid *)
Definition accToRightRejects
    (acceptingStates : list string) (initState : string) (grid : Grid) : bool :=
  negb (forallb (rightmostIsAccepting acceptingStates) grid)
  && existsb (acceptingBeforeRightmost acceptingStates initState) grid.

(** a candidate survives both [continue] statements *)
Definition passesConstraints
    (initState : string) (acceptingStates : list string) (accToRight : bool)
    (grid : Grid) : bool :=
  initialInFirstColumn initState grid
  && negb (accToRight && accToRightRejects acceptingStates initState grid).

(** ** The search *)

(** [minCost] starts at [Infinity], which is [None] here. *)
Definition costBelow (cost : Z) (minCost : option Z) : bool :=
  match minCost with
  | None => true
  | Some m => (cost <? m)%Z
  end.

(** the body of the inner loop, on the pair [(bestGrid, minCost)] *)
Definition considerCandidate
    (initState : string) (acceptingStates : list string)
    (transitions : Transitions) (accToRight : bool)
    (rows cols : nat) (best : Grid * option Z) (perm : list string) : Grid * option Z :=
  let '(grid, statePositions) := placeStates rows cols perm in
  if negb (initialInFirstColumn initState grid) then best
  else if accToRight && accToRightRejects acceptingStates initState grid then best
  else
    let cost := calculateTransitionCost statePositions transitions in
    if costBelow cost best.2 then (grid, Some cost) else best.

Definition searchLoop
    (states : list string) (initState : string) (acceptingStates : list string)
    (transitions : Transitions) (accToRight : bool) : Grid * option Z :=
  let n := length states in
  let allPermutations := getPermutations states in
  let availableGridSizes := getPossibleGridSizes n in
  foldl (fun best '(rows, cols) =>
           foldl (considerCandidate initState acceptingStates transitions accToRight rows cols)
                 best allPermutations)
        ([], None) availableGridSizes.

(** [bestGrid.filter(row => row.some(cell => cell !== null))] *)
Definition trimGrid (grid : Grid) : Grid :=
  List.filter (fun row => existsb isOccupied row) grid.

Definition findOptimalStatePlacement
    (states : list string) (initState : string) (acceptingStates : list string)
    (transitions : Transitions) (accToRight : bool) : Grid :=
  trimGrid (searchLoop states initState acceptingStates transitions accToRight).1.

(** ** Strings as the source handles them *)

(** [s.split(sep)] where the separator is one character of a class *)
Fixpoint splitBy (isSep : ascii -> bool) (s : string) : list string :=
  match s with
  | EmptyString => [""]
  | String c s' =>
    if isSep c then "" :: splitBy isSep s'
    else
      match splitBy isSep s' with
      | [] => [String c ""]
      | w :: ws => String c w :: ws
      end
  end.

Definition isComma (c : ascii) : bool := bool_decide (c = ","%char).
Definition isSemicolon (c : ascii) : bool := bool_decide (c = ";"%char).

(** the white space of [trim], for strings of ASCII characters *)
Definition isSpace (c : ascii) : bool :=
  let n := nat_of_ascii c in
  bool_decide (n = 32 ∨ (9 ≤ n ∧ n ≤ 13))%nat.

Fixpoint trimStart (s : string) : string :=
  match s with
  | String c s' => if isSpace c then trimStart s' else s
  | EmptyString => ""
  end.

Fixpoint trimEnd (s : string) : string :=
  match s with
  | EmptyString => ""
  | String c s' =>
    match trimEnd s' with
    | EmptyString => if isSpace c then "" else String c ""
    | t => String c t
    end
  end.

Definition trim (s : string) : string := trimEnd (trimStart s).

(** [s.replace('\\', '')]: the first backslash is dropped *)
Fixpoint dropBackslash (s : string) : string :=
  match s with
  | EmptyString => ""
  | String c s' => if bool_decide (c = "\"%char) then s' else String c (dropBackslash s')
  end.

(** [symbols.sort()]: the default order compares code units, which for
    strings of ASCII characters is [String.leb]. *)
Fixpoint insertSorted (x : string) (l : list string) : list string :=
  match l with
  | [] => [x]
  | y :: l' => if String.leb x y then x :: l else y :: insertSorted x l'
  end.

Definition sortStrings (l : list string) : list string := foldr insertSorted [] l.

Definition formatSymbol (symbol style : string) : string :=
  if bool_decide (style = "italic") then "$" +:+ symbol +:+ "$"
  else if bool_decide (style = "mono") then "\texttt{" +:+ symbol +:+ "}"
  else symbol.

(** ** Transition table *)

Fixpoint lookupKey {V} (k : string) (l : list (string * V)) : option V :=
  match l with
  | [] => None
  | (k', v) :: l' => if bool_decide (k' = k) then Some v else lookupKey k l'
  end.

Fixpoint alterKey {V} (f : V -> V) (k : string) (l : list (string * V)) : list (string * V) :=
  match l with
  | [] => []
  | (k', v) :: l' =>
    if bool_decide (k' = k) then (k', f v) :: l' else (k', v) :: alterKey f k l'
  end.

(** [if (!obj[k]) obj[k] = v]: a new key goes last in the key order *)
Definition ensureKey {V} (k : string) (v : V) (l : list (string * V)) : list (string * V) :=
  match lookupKey k l with
  | Some _ => l
  | None => l ++ [(k, v)]
  end.

(** one record [source, symbol_1, ..., symbol_k, destination] as the triple
    (source, joined symbols, destination) *)
Definition parseRecord (transition : string) : string * string * string :=
  let parts := trim <$> splitBy isComma (trim transition) in
  let fromState := hd "" parts in
  let rest := tl parts in
  let toState := List.last rest "" in
  let symbols := removelast rest in
  (fromState, String.concat "," symbols, toState).

Definition addTransition (transitions : Transitions) (r : string * string * string)
    : Transitions :=
  let '(fromState, key, toState) := r in
  alterKey (fun byKey : Transition =>
              alterKey (fun dests => dests ++ [toState]) key (ensureKey key [] byKey))
           fromState (ensureKey fromState [] transitions).

Definition createTransitions (transitionString : string) : Transitions :=
  let transitionsList :=
    List.filter (fun line => negb (bool_decide (trim line = "")))
                (splitBy isSemicolon (trim transitionString)) in
  foldl addTransition [] (parseRecord <$> transitionsList).

(** ** Connectivity *)

(** the symbol keys of [s1] whose destinations include [s2] *)
Definition keysBetween (transitions : Transitions) (s1 s2 : string) : list string :=
  match lookupKey s1 transitions with
  | Some byKey =>
    (List.filter (fun e : string * list string => bool_decide (s2 ∈ e.2)) byKey).*1
  | None => []
  end.

Definition checkTransition (transitions : Transitions) (s1 s2 : string)
    : option (list string) :=
  let symbols := keysBetween transitions s1 s2 ≫= splitBy isComma in
  if bool_decide (0 < length symbols) then Some (sortStrings symbols) else None.

(** a result of [checkTransition] in a condition: an array is truthy,
    [null] is not *)
Definition hasTransition (transitions : Transitions) (s1 s2 : string) : bool :=
  bool_decide (is_Some (checkTransition transitions s1 s2)).

Definition checkConnection (transitions : Transitions) (stateA stateB : string) : nat :=
  if hasTransition transitions stateA stateB && hasTransition transitions stateB stateA
  then 2
  else if hasTransition transitions stateA stateB || hasTransition transitions stateB stateA
  then 1
  else 0.

(** ** Results that may be a [TypeError] *)

Inductive Result (A : Type) : Type :=
| Ok (a : A)
| TypeError.
Arguments Ok {A} a.
Arguments TypeError {A}.

Definition bindR {A B} (m : Result A) (k : A -> Result B) : Result B :=
  match m with
  | Ok a => k a
  | TypeError => TypeError
  end.

Notation "x <-- m ;; k" := (bindR m (fun x => k))
  (at level 100, m at next level, right associativity).

Fixpoint foldlR {A B} (f : A -> B -> Result A) (a : A) (l : list B) : Result A :=
  match l with
  | [] => Ok a
  | x :: l' => a' <-- f a x ;; foldlR f a' l'
  end.

(** ** Grid scans *)

(** the cells of a grid with their indices, in the order of the nested
    [for] loops over [i] and [j] *)
Definition cellsWithIndex (grid : Grid) : list (nat * nat * Cell) :=
  mjoin (imap (fun i row => imap (fun j cell => (i, j, cell)) row) grid).

(** [grid[i][j] === null]: a missing row is a [TypeError], a missing
    column is [undefined], which is not [null] *)
Definition cellIsNull (grid : Grid) (i j : nat) : Result bool :=
  match grid !! i with
  | None => TypeError
  | Some row => Ok (bool_decide (row !! j = Some None))
  end.

(** the four tests of [getEdge] at the cell [(i, j)]; [Ok None] when none
    of them returns *)
Definition getEdgeAt (grid : Grid) (i j : nat) : Result (option string) :=
  if bool_decide (i = 0) then Ok (Some "above") else
  up <-- cellIsNull grid (i - 1) j ;;
  if (up : bool) then Ok (Some "above") else
  if bool_decide (Z.of_nat i = Z.of_nat (length grid) - 1)%Z then Ok (Some "below") else
  down <-- cellIsNull grid (i + 1) j ;;
  if (down : bool) then Ok (Some "below") else
  if bool_decide (j = 0) then Ok (Some "left") else
  left <-- cellIsNull grid i (j - 1) ;;
  if (left : bool) then Ok (Some "left") else
  match grid !! i with
  | None => TypeError
  | Some row =>
    if bool_decide (Z.of_nat j = Z.of_nat (length row) - 1)%Z then Ok (Some "right") else
    right <-- cellIsNull grid i (j + 1) ;;
    if (right : bool) then Ok (Some "right") else Ok None
  end.

Fixpoint getEdgeScan (grid : Grid) (item : string) (cells : list (nat * nat * Cell))
    : Result (option string) :=
  match cells with
  | [] => Ok None
  | (i, j, cell) :: cells' =>
    if bool_decide (cell = Some item) then
      r <-- getEdgeAt grid i j ;;
      match r with
      | Some side => Ok (Some side)
      | None => getEdgeScan grid item cells'
      end
    else getEdgeScan grid item cells'
  end.

Definition getEdge (grid : Grid) (item : string) : Result (option string) :=
  getEdgeScan grid item (cellsWithIndex grid).

Definition findPosition (arr2d : Grid) (element : string) : option (nat * nat) :=
  (fun c : nat * nat * Cell => c.1) <$>
    List.find (fun c : nat * nat * Cell => bool_decide (c.2 = Some element))
              (cellsWithIndex arr2d).

(** the collinearity and betweenness test of [doesLineCrossOtherElements]
    for the point [(i, j)] and the segment from [(x1, y1)] to [(x2, y2)] *)
Definition onSegment (p1 p2 p : nat * nat) : bool :=
  let x1 := Z.of_nat p1.1 in let y1 := Z.of_nat p1.2 in
  let x2 := Z.of_nat p2.1 in let y2 := Z.of_nat p2.2 in
  let i := Z.of_nat p.1 in let j := Z.of_nat p.2 in
  bool_decide ((x2 - x1) * (j - y1) = (y2 - y1) * (i - x1))%Z
  && bool_decide (Z.min x1 x2 ≤ i ∧ i ≤ Z.max x1 x2
                  ∧ Z.min y1 y2 ≤ j ∧ j ≤ Z.max y1 y2)%Z.

Definition doesLineCrossOtherElements (arr2d : Grid) (e1 e2 : string) : bool :=
  match findPosition arr2d e1, findPosition arr2d e2 with
  | Some p1, Some p2 =>
    existsb (fun c : nat * nat * Cell =>
               negb (bool_decide (c.1 = p1 ∨ c.1 = p2)) && onSegment p1 p2 c.1)
            (cellsWithIndex arr2d)
  | _, _ => false
  end.

(** the coordinates at which a scan of the grid finds each state; where a
    state sits in two cells the later cell overwrites the earlier, as the
    placement loop does with [statePositions] *)
Definition recordCell (m : gmap string (nat * nat)) (c : nat * nat * Cell)
    : gmap string (nat * nat) :=
  match c.2 with
  | Some s => <[s := c.1]> m
  | None => m
  end.

Definition gridPositions (grid : Grid) : gmap string (nat * nat) :=
  foldl recordCell ∅ (cellsWithIndex grid).

(** the transition cost of a grid *)
Definition gridCost (transitions : Transitions) (grid : Grid) : Z :=
  calculateTransitionCost (gridPositions grid) transitions.

(** the states in the occupied cells of a grid, row by row *)
Definition occupants (grid : Grid) : list string := omap id (mjoin grid).

(** the coordinates of the cells that hold the state [s] *)
Definition cellsHolding (grid : Grid) (s : string) : list (nat * nat) :=
  (fun c : nat * nat * Cell => c.1) <$>
    filter (fun c : nat * nat * Cell => c.2 = Some s) (cellsWithIndex grid).

(** how often [s] is listed in [l] *)
Definition occurrences (s : string) (l : list string) : nat :=
  length (filter (fun x => x = s) l).

(** the two conditions of the accepting-state convention, on a whole grid *)
Definition everyRowEndsAccepting (acceptingStates : list string) (grid : Grid) : bool :=
  forallb (rightmostIsAccepting acceptingStates) grid.

Definition noAcceptingBeforeRightmost
    (acceptingStates : list string) (initState : string) (grid : Grid) : bool :=
  negb (existsb (acceptingBeforeRightmost acceptingStates initState) grid).

(** ** Bend direction *)

(** [row.indexOf(s)], with [None] for [-1] *)
Fixpoint indexOf (row : list Cell) (s : string) : option nat :=
  match row with
  | [] => None
  | cell :: row' =>
    if bool_decide (cell = Some s) then Some 0 else S <$> indexOf row' s
  end.

(** the [grid.reduce] of [bendDirection]: every row that holds the state
    overwrites the accumulator, which starts at [[-1, -1]] *)
Definition locate (grid : Grid) (s : string) : Z * Z :=
  foldl (fun acc (e : nat * list Cell) =>
           match indexOf e.2 s with
           | Some colIndex => (Z.of_nat e.1, Z.of_nat colIndex)
           | None => acc
           end)
        ((-1)%Z, (-1)%Z) (imap pair grid).

Definition bendDirection (fromState toState : string) (grid : Grid)
    : Result (string * string) :=
  let '(fromRow, fromCol) := locate grid fromState in
  let '(toRow, toCol) := locate grid toState in
  if bool_decide (fromRow = toRow) && bool_decide (fromRow = 0%Z) then
    Ok (if bool_decide (fromCol < toCol)%Z then ("left", "above") else ("right", "above"))
  else if bool_decide (fromRow = toRow)
          && bool_decide (fromRow = Z.of_nat (length grid) - 1)%Z then
    Ok (if bool_decide (fromCol < toCol)%Z then ("right", "below") else ("left", "below"))
  else if bool_decide (fromCol = toCol) && bool_decide (fromCol = 0%Z) then
    Ok (if bool_decide (fromRow < toRow)%Z then ("right", "right") else ("left", "left"))
  else
    let otherwise :=
      Ok (if bool_decide (fromCol < toCol)%Z then ("right", "right") else ("left", "left")) in
    if bool_decide (fromCol = toCol) then
      match grid !! 0 with
      | None => TypeError
      | Some row0 =>
        if bool_decide (fromCol = Z.of_nat (length row0) - 1)%Z then
          Ok (if bool_decide (fromRow < toRow)%Z then ("left", "right") else ("right", "left"))
        else otherwise
      end
    else otherwise.

(** ** Node declarations *)

Inductive Anchor : Type :=
| Unanchored
| BelowOf (s : string)
| RightOf (s : string).

(** one [\node] line: the state, the text of [stateType] and the anchor *)
Record Node : Type := mkNode {
  nodeState : string;
  nodeType : string;
  nodeAnchor : Anchor
}.

(** a string or [null] used as a condition *)
Definition truthy (o : option string) : bool :=
  match o with
  | Some s => negb (bool_decide (s = ""))
  | None => false
  end.

Definition stateTypeOf (initialState initialWhere : string)
    (acceptingStatesArray : list string) (state : string) : string :=
  (if bool_decide (state = initialState)
   then ", initial" +:+ (if bool_decide (initialWhere = "") then "" else " " +:+ initialWhere)
   else "")
  +:+ (if bool_decide (state ∈ acceptingStatesArray) then ", accepting" else "").

(** the loop state is [(previousRowFirstState, previousState, lines so far)] *)
Definition nodeStep (initialState initialWhere : string)
    (acceptingStatesArray : list string) (rowIndex : nat)
    (st : option string * option string * list Node) (e : nat * Cell)
    : option string * option string * list Node :=
  let '(previousRowFirstState, previousState, code) := st in
  let '(colIndex, cell) := e in
  if truthy cell then
    let state := default "" cell in
    let stateType := stateTypeOf initialState initialWhere acceptingStatesArray state in
    if bool_decide (colIndex = 0) && bool_decide (0 < rowIndex) && truthy previousRowFirstState
    then (Some state, Some state,
          code ++ [mkNode state stateType (BelowOf (default "" previousRowFirstState))])
    else if bool_decide (0 < colIndex) && truthy previousState
    then (previousRowFirstState, Some state,
          code ++ [mkNode state stateType (RightOf (default "" previousState))])
    else (Some state, Some state, code ++ [mkNode state stateType Unanchored])
  else st.

Definition nodeRow (initialState initialWhere : string)
    (acceptingStatesArray : list string)
    (st : option string * list Node) (e : nat * list Cell) : option string * list Node :=
  let '(rowIndex, row) := e in
  let '(previousRowFirstState, _, code) :=
    foldl (nodeStep initialState initialWhere acceptingStatesArray rowIndex)
          (st.1, None, st.2) (imap pair row) in
  (previousRowFirstState, code).

Definition generateNodes (initialState initialWhere : string)
    (acceptingStatesArray : list string) (optimalStatePlacement : Grid) : list Node :=
  (foldl (nodeRow initialState initialWhere acceptingStatesArray)
         (None, []) (imap pair optimalStatePlacement)).2.

(** ** Edge declarations *)

Inductive Edge : Type :=
| LoopEdge (state loopPos label : string)
| StraightEdge (fromState toState label : string)
| BentEdge (fromState toState bD anchor label : string).

(** [symbols.map(s => formatSymbol(s, symbolsStyle)).join(', ')] *)
Definition labelOf (symbolsStyle : string) (symbols : list string) : string :=
  String.concat ", " ((fun s => formatSymbol s symbolsStyle) <$> symbols).

(** [bendDirectionArray[i][j]]; the array is square with one row per state,
    and both indices come from iterating the states *)
Definition bendEntry (bendDirectionArray : list (list string)) (i j : nat) : string :=
  default "" (bendDirectionArray !! i ≫= fun row => row !! j).

Definition setBendEntry (bendDirectionArray : list (list string)) (i j : nat) (bD : string)
    : list (list string) :=
  alter (fun row => <[j := bD]> row) i bendDirectionArray.

(** the body of the inner [forEach], on [(bendDirectionArray, lines so far)] *)
Definition routePair (transitionsObj : Transitions) (optimalStatePlacement : Grid)
    (symbolsStyle : string) (from : nat * string)
    (st : list (list string) * list Edge) (to : nat * string)
    : Result (list (list string) * list Edge) :=
  let '(fromIndex, fromState) := from in
  let '(toIndex, toState) := to in
  let '(bendDirectionArray, code) := st in
  match checkTransition transitionsObj fromState toState with
  | None => Ok st
  | Some symbols =>
    let label := labelOf symbolsStyle symbols in
    if bool_decide (fromState = toState) then
      side <-- getEdge optimalStatePlacement fromState ;;
      Ok (bendDirectionArray, code ++ [LoopEdge fromState (default "below" side) label])
    else if negb (doesLineCrossOtherElements optimalStatePlacement fromState toState)
            && bool_decide (checkConnection transitionsObj fromState toState = 1)
    then Ok (bendDirectionArray, code ++ [StraightEdge fromState toState label])
    else
      let entry := bendEntry bendDirectionArray fromIndex toIndex in
      bD <-- (if bool_decide (entry = "")
              then d <-- bendDirection fromState toState optimalStatePlacement ;; Ok d.1
              else Ok entry) ;;
      let bendDirectionArray :=
        setBendEntry (setBendEntry bendDirectionArray fromIndex toIndex bD)
                     toIndex fromIndex bD in
      d <-- bendDirection fromState toState optimalStatePlacement ;;
      Ok (bendDirectionArray, code ++ [BentEdge fromState toState bD d.2 label])
  end.

Definition generateEdges (transitionsObj : Transitions) (optimalStatePlacement : Grid)
    (symbolsStyle : string) (statesArray : list string) : Result (list Edge) :=
  let n := length statesArray in
  let indexed := imap pair statesArray in
  st <-- foldlR (fun st from =>
                   foldlR (routePair transitionsObj optimalStatePlacement symbolsStyle from)
                          st indexed)
                (replicate n (replicate n ""), []) indexed ;;
  Ok st.2.

(** ** The generator *)

Record Diagram : Type := mkDiagram {
  nodes : list Node;
  edges : list Edge
}.

(** [generate] from the point where the inputs are split into arrays *)
Definition generateFrom (statesArray : list string) (initialState : string)
    (acceptingStatesArray : list string) (transitionsObj : Transitions)
    (initialWhere acceptingBy symbolsStyle : string) : Result Diagram :=
  let optimalStatePlacement :=
    findOptimalStatePlacement statesArray initialState acceptingStatesArray transitionsObj
      (bool_decide (acceptingBy = "accepting by arrow")) in
  let code := generateNodes initialState initialWhere acceptingStatesArray
                optimalStatePlacement in
  es <-- generateEdges transitionsObj optimalStatePlacement symbolsStyle statesArray ;;
  Ok (mkDiagram code es).

(** the body of the picture that [generate] builds from the text fields of
    the form; the preamble, which only prints the style parameters, is left
    out *)
Definition generate (states initialState acceptingStates transitions : string)
    (initialWhere acceptingBy symbolsStyle : string) : Result Diagram :=
  let acceptingStatesArray := trim <$> splitBy isComma acceptingStates in
  let transitionsObj := createTransitions transitions in
  let statesArray :=
    List.filter (fun s => negb (bool_decide (s = "")))
                (trim <$> splitBy (fun c => isComma c || isSemicolon c) states) in
  generateFrom statesArray initialState acceptingStatesArray transitionsObj
    initialWhere acceptingBy symbolsStyle.

(** ** The text of the declarations *)

Definition tab : string := String (ascii_of_nat 9) "".
Definition newline : string := String (ascii_of_nat 10) "".

Definition isLetter (c : ascii) : bool :=
  let n := nat_of_ascii c in
  bool_decide ((65 ≤ n ∧ n ≤ 90) ∨ (97 ≤ n ∧ n ≤ 122)).

Definition isDigit (c : ascii) : bool :=
  let n := nat_of_ascii c in
  bool_decide (48 ≤ n ∧ n ≤ 57).

Fixpoint allDigits (s : string) : bool :=
  match s with
  | EmptyString => true
  | String c s' => isDigit c && allDigits s'
  end.

Definition formatState (str : string) : string :=
  match str with
  | String c rest =>
    if isLetter c && allDigits rest && bool_decide (2 ≤ String.length str)
    then "$" +:+ String c "" +:+ "_{" +:+ rest +:+ "}$"
    else "$" +:+ str +:+ "$"
  | EmptyString => "$$"
  end.

Definition renderNode (n : Node) : string :=
  let state := nodeState n in
  tab +:+ "\node[state" +:+ nodeType n +:+ "] (" +:+ dropBackslash state +:+ ") "
  +:+ match nodeAnchor n with
      | BelowOf p => "[below of=" +:+ dropBackslash p +:+ "] "
      | RightOf p => "[right of=" +:+ dropBackslash p +:+ "] "
      | Unanchored => ""
      end
  +:+ "{" +:+ formatState state +:+ "};" +:+ newline.

Definition renderEdge (e : Edge) : string :=
  match e with
  | LoopEdge state loopPos label =>
    "    \draw (" +:+ dropBackslash state +:+ ") edge[loop " +:+ loopPos +:+ ", ->]"
    +:+ "node[auto]{" +:+ label +:+ "} (" +:+ dropBackslash state +:+ ");" +:+ newline
  | StraightEdge fromState toState label =>
    "    \draw (" +:+ dropBackslash fromState +:+ ") edge [above, ->] node[auto]{"
    +:+ label +:+ "} (" +:+ dropBackslash toState +:+ ");" +:+ newline
  | BentEdge fromState toState bD anchor label =>
    "    \draw (" +:+ dropBackslash fromState +:+ ") edge[bend " +:+ bD +:+ ", right, ->] "
    +:+ "node[" +:+ anchor +:+ "]{" +:+ label +:+ "} (" +:+ dropBackslash toState +:+ ");"
    +:+ newline
  end.

Definition renderDiagram (d : Diagram) : string :=
  String.concat "" (renderNode <$> nodes d) +:+ String.concat "" (renderEdge <$> edges d).

(** ** The search as one loop over candidates *)

Section candidates.
Variables (states : list string) (initState : string) (acceptingStates : list string).
Variables (transitions : Transitions) (accToRight : bool).

(** the pairs of a shape and a permutation, in the order of the two loops *)
Definition candidates : list (nat * nat * list string) :=
  getPossibleGridSizes (length states) ≫= fun shape =>
  (fun perm => (shape, perm)) <$> getPermutations states.

Definition candidateGrid (c : nat * nat * list string) : Grid :=
  (placeStates c.1.1 c.1.2 c.2).1.

Definition candidateCost (c : nat * nat * list string) : Z :=
  calculateTransitionCost (placeStates c.1.1 c.1.2 c.2).2 transitions.

Definition passes (c : nat * nat * list string) : bool :=
  passesConstraints initState acceptingStates accToRight (candidateGrid c).

Definition searchStep (best : Grid * option Z) (c : nat * nat * list string)
    : Grid * option Z :=
  considerCandidate initState acceptingStates transitions accToRight c.1.1 c.1.2 best c.2.

(** what the loop holds after the candidates [cs]: nothing when none of
    them passed, else the first of the cheapest that passed *)
Definition bestOf (cs : list (nat * nat * list string)) (best : Grid * option Z) : Prop :=
  (best = ([], None) ∧ ∀ c, c ∈ cs → passes c = false)
  ∨ (∃ c, c ∈ cs ∧ passes c = true
        ∧ best = (candidateGrid c, Some (candidateCost c))
        ∧ ∀ c', c' ∈ cs → passes c' = true → (candidateCost c ≤ candidateCost c')%Z).
End candidates.

(** ** Shapes of grids *)

Definition rectangular {A} (rows cols : nat) (grid : list (list A)) : Prop :=
  length grid = rows ∧ Forall (fun row => length row = cols) grid.

(** the cell with flat index [k] of a grid with [cols] columns *)
Definition cellAt (cols : nat) (k : nat) (cell : Cell) : nat * nat * Cell :=
  (k / cols, k mod cols, cell).

(** ** Reading declarations and loops *)

Definition edgeFrom (e : Edge) : string :=
  match e with
  | LoopEdge state _ _ => state
  | StraightEdge fromState _ _ => fromState
  | BentEdge fromState _ _ _ _ => fromState
  end.

Definition edgeTo (e : Edge) : string :=
  match e with
  | LoopEdge state _ _ => state
  | StraightEdge _ toState _ => toState
  | BentEdge _ toState _ _ _ => toState
  end.

Definition edgeLabel (e : Edge) : string :=
  match e with
  | LoopEdge _ _ label => label
  | StraightEdge _ _ label => label
  | BentEdge _ _ _ _ label => label
  end.

Definition isLoop (e : Edge) : bool :=
  match e with LoopEdge _ _ _ => true | _ => false end.

Definition isStraight (e : Edge) : bool :=
  match e with StraightEdge _ _ _ => true | _ => false end.

Definition isBent (e : Edge) : bool :=
  match e with BentEdge _ _ _ _ _ => true | _ => false end.

(** the order of [sort()] as a relation *)
Definition stringLe (s1 s2 : string) : Prop := String.leb s1 s2 = true.

(** the pairs of the two nested [forEach] loops over the states, each
    state with its index *)
Definition statePairs (statesArray : list string) : list (nat * string * (nat * string)) :=
  imap pair statesArray ≫= fun from =>
  (fun to => (from, to)) <$> imap pair statesArray.

Definition okOr {A} (d : A) (r : Result A) : A :=
  match r with
  | Ok a => a
  | TypeError => d
  end.

(** what one pair does to [bendDirectionArray] and the lines it adds *)
Definition routeOutcome (transitionsObj : Transitions) (optimalStatePlacement : Grid)
    (symbolsStyle : string) (bendDirectionArray : list (list string))
    (p : nat * string * (nat * string)) : list (list string) * list Edge :=
  okOr (bendDirectionArray, [])
       (routePair transitionsObj optimalStatePlacement symbolsStyle p.1
                  (bendDirectionArray, []) p.2).

Fixpoint runPairs (transitionsObj : Transitions) (optimalStatePlacement : Grid)
    (symbolsStyle : string) (bendDirectionArray : list (list string))
    (ps : list (nat * string * (nat * string))) : list (list string) * list Edge :=
  match ps with
  | [] => (bendDirectionArray, [])
  | p :: ps' =>
    let r := routeOutcome transitionsObj optimalStatePlacement symbolsStyle
               bendDirectionArray p in
    let r' := runPairs transitionsObj optimalStatePlacement symbolsStyle r.1 ps' in
    (r'.1, r.2 ++ r'.2)
  end.

(** the test that makes a non-loop edge straight *)
Definition drawnStraight (transitionsObj : Transitions) (optimalStatePlacement : Grid)
    (fromState toState : string) : bool :=
  negb (doesLineCrossOtherElements optimalStatePlacement fromState toState)
  && bool_decide (checkConnection transitionsObj fromState toState = 1).

(** the line that a pair of states with a transition gets when the grid is
    empty and so holds neither of them *)
Definition gridlessEdge (transitionsObj : Transitions) (symbolsStyle : string)
    (p : nat * string * (nat * string)) : list Edge :=
  let a := p.1.2 in
  let b := p.2.2 in
  match checkTransition transitionsObj a b with
  | None => []
  | Some symbols =>
    let label := labelOf symbolsStyle symbols in
    if bool_decide (a = b) then [LoopEdge a "below" label]
    else if bool_decide (checkConnection transitionsObj a b = 1)
    then [StraightEdge a b label]
    else [BentEdge a b "left" "below" label]
  end.

(** every entry of the array of bend directions written so far is [left] *)
Definition leftOnly (bda : list (list string)) : Prop :=
  ∀ x y, bendEntry bda x y = "" ∨ bendEntry bda x y = "left".

(** the bend direction of a bent edge *)
Definition bendOf (e : Edge) : string :=
  match e with
  | BentEdge _ _ bD _ _ => bD
  | _ => ""
  end.

(** the array of bend directions between two pairs of the edge loop: it is
    square, equal to its transpose, and holds directions only *)
Definition mirrored (n : nat) (bda : list (list string)) : Prop :=
  rectangular n n bda
  ∧ (∀ x y, x < n → y < n → bendEntry bda x y = bendEntry bda y x)
  ∧ (∀ x y, bendEntry bda x y = "" ∨ bendEntry bda x y = "left"
            ∨ bendEntry bda x y = "right").

(** the cell of a grid at a pair of indices, if there is one *)
Definition gridCell (grid : Grid) (p : nat * nat) : option Cell :=
  grid !! p.1 ≫= fun row => row !! p.2.

(** a state sits in a cell other than the cells of [e1] and [e2] that lies
    on the segment between these two *)
Definition occupiedBetween (grid : Grid) (e1 e2 : string) : Prop :=
  ∃ p1 p2 p s,
    findPosition grid e1 = Some p1 ∧ findPosition grid e2 = Some p2
    ∧ gridCell grid p = Some (Some s)
    ∧ p ≠ p1 ∧ p ≠ p2 ∧ onSegment p1 p2 p = true.

(** only the last cell of the last row may be empty *)
Definition fullButLast (rows cols : nat) (grid : Grid) : Prop :=
  rectangular rows cols grid
  ∧ ∀ p, gridCell grid p = Some None → p = (rows - 1, cols - 1).

(** ** Sums over the transition table *)




(** ** Reading the transition table *)

(** the records of the transition text, as [createTransitions] reads them:
    (source, joined symbols, destination) *)
Definition transitionRecords (transitionString : string) : list (string * string * string) :=
  parseRecord <$>
    List.filter (fun line => negb (bool_decide (trim line = "")))
                (splitBy isSemicolon (trim transitionString)).

(** [transitions[a][k]], with no destination where a key is missing *)
Definition destinationsOf (transitions : Transitions) (a k : string) : list string :=
  default [] (lookupKey a transitions ≫= lookupKey k).

(** no key occurs twice, neither among the sources nor among the symbol
    keys of a source: the association list stands for a JS object *)
Definition wellKeyed (transitions : Transitions) : Prop :=
  NoDup transitions.*1
  ∧ Forall (fun e : string * list (string * list string) => NoDup e.2.*1) transitions.

(** ** Reading node declarations *)

(** the node that a declaration is placed relative to *)
Definition anchorTarget (n : Node) : option string :=
  match nodeAnchor n with
  | Unanchored => None
  | BelowOf s => Some s
  | RightOf s => Some s
  end.

(** every declaration is placed relative to a node declared before it *)
Definition anchorsDeclared (code : list Node) : Prop :=
  ∀ k n s, code !! k = Some n → anchorTarget n = Some s →
           s ∈ nodeState <$> take k code.

(** ** Neighbouring cells *)

(** the two cells are the same or touch, diagonally included *)
Definition adjacent (p1 p2 : nat * nat) : Prop :=
  p1.1 ≤ S p2.1 ∧ p2.1 ≤ S p1.1 ∧ p1.2 ≤ S p2.2 ∧ p2.2 ≤ S p1.2.

(** ** The state list of the form *)

(** [states.split(/,|;/).map(s => s.trim()).filter(s => s !== '')] *)
Definition statesArrayOf (states : string) : list string :=
  List.filter (fun s => negb (bool_decide (s = "")))
              (trim <$> splitBy (fun c => isComma c || isSemicolon c) states).

(** ** The options of an edge declaration *)

Definition sides : list string := ["above"; "below"; "left"; "right"].

(** the loop side, the bend direction and the label anchor are keywords *)
Definition validOptions (e : Edge) : Prop :=
  match e with
  | LoopEdge _ loopPos _ => loopPos ∈ sides
  | StraightEdge _ _ _ => True
  | BentEdge _ _ bD anchor _ => (bD = "left" ∨ bD = "right") ∧ anchor ∈ sides
  end.

(** ** The side of a loop by the place of the state *)

(** the side that the four tests of [getEdge] give at the cell [p] of a
    grid with [rows] rows and [cols] columns in which only the last cell
    may be empty *)
Definition loopSide (rows cols : nat) (grid : Grid) (p : nat * nat) : option string :=
  if bool_decide (p.1 = 0) then Some "above"
  else if bool_decide (p.1 = rows - 1)
          || bool_decide (gridCell grid (p.1 + 1, p.2) = Some None) then Some "below"
  else if bool_decide (p.2 = 0) then Some "left"
  else if bool_decide (p.2 = cols - 1) then Some "right"
  else None.

(** * The generator for deterministic automata

    [DFAGenerator.tsx] reads the transition text as the generator above
    does, but keeps one destination per source and symbol key, and takes
    the order of the state list for the layout. *)

Module DFAGenerator.

(** [obj[k] = v]: a key that is there keeps its place, a new key goes last *)
Definition setKey {V} (k : string) (v : V) (l : list (string * V)) : list (string * V) :=
  match lookupKey k l with
  | Some _ => alterKey (fun _ => v) k l
  | None => l ++ [(k, v)]
  end.

Definition addTransition (transitions : list (string * list (string * string)))
    (r : string * string * string) : list (string * list (string * string)) :=
  let '(fromState, key, toState) := r in
  alterKey (setKey key toState) fromState (ensureKey fromState [] transitions).

Definition createTransitions (transitionString : string)
    : list (string * list (string * string)) :=
  let transitionsList :=
    List.filter (fun line => negb (bool_decide (trim line = "")))
                (splitBy isSemicolon (trim transitionString)) in
  foldl addTransition [] (parseRecord <$> transitionsList).

(** [transitions[s1][symbol]], with [None] where it is [undefined] *)
Definition destinationOf (transitions : list (string * list (string * string)))
    (s1 symbol : string) : option string :=
  lookupKey s1 transitions ≫= lookupKey symbol.

Definition areElementsNextToEachOther (arr : list string) (e1 e2 : string) : bool :=
  existsb (fun i =>
             (bool_decide (arr !! i = Some e1) && bool_decide (arr !! (i + 1) = Some e2))
             || (bool_decide (arr !! i = Some e2) && bool_decide (arr !! (i + 1) = Some e1)))
          (seq 0 (length arr - 1)).

End DFAGenerator.

(** * Properties *)

(** ** The definitions on small inputs *)

Example getPermutations_3 :
  getPermutations [1; 2; 3] = [[1;2;3]; [1;3;2]; [2;1;3]; [2;3;1]; [3;1;2]; [3;2;1]].
Proof. reflexivity. Qed.

Example getPossibleGridSizes_3 : getPossibleGridSizes 3 = [(1, 3); (2, 2); (3, 1)].
Proof. reflexivity. Qed.

Example findOptimalStatePlacement_two :
  findOptimalStatePlacement ["q1"; "q2"] "q1" ["q2"]
    [("q1", [("0", ["q1"]); ("1", ["q2"])])] false
  = [[Some "q1"; Some "q2"]].
Proof. vm_compute. reflexivity. Qed.

Example gridCost_two_rows :
  gridCost [("q1", [("0", ["q2"; "q3"])]); ("q3", [("1", ["q1"])])]
           [[Some "q1"; Some "q2"]; [Some "q3"; None]] = 3%Z.
Proof. vm_compute. reflexivity. Qed.

Example createTransitions_default :
  createTransitions "q3, 1, q2; q1, 0, 1, q1; q1, 1, q2;"
  = [("q3", [("1", ["q2"])]); ("q1", [("0,1", ["q1"]); ("1", ["q2"])])].
Proof. vm_compute. reflexivity. Qed.

Example checkTransition_flat :
  checkTransition (createTransitions "q1,1,0,q2; q1,a,q2") "q1" "q2" = Some ["0"; "1"; "a"].
Proof. vm_compute. reflexivity. Qed.

Example generate_default :
  generate "q1, q2" "q1" "q2" "q1,0,q1; q1,1,q2" "left" "accepting by double" "mono"
  = Ok (mkDiagram
          [mkNode "q1" ", initial left" Unanchored;
           mkNode "q2" ", accepting" (RightOf "q1")]
          [LoopEdge "q1" "above" "\texttt{0}";
           StraightEdge "q1" "q2" "\texttt{1}"]).
Proof. vm_compute. reflexivity. Qed.

(** ** Permutations and shapes *)

Lemma removeAt_delete {A} (i : nat) (arr : list A) : removeAt i arr = delete i arr.
Proof. unfold removeAt. by rewrite delete_take_drop. Qed.

Lemma getPermutations_fuel_Permutation {A} (fuel : nat) (arr p : list A) :
  p ∈ getPermutations_fuel fuel arr → p ≡ₚ arr.
Proof.
  revert arr p.
  induction fuel as [|fuel IH]; intros [|a arr] p; cbn [getPermutations_fuel].
  - by intros ->%list_elem_of_singleton.
  - by intros ?%elem_of_nil.
  - by intros ->%list_elem_of_singleton.
  - intros (l & Hp & Hl)%list_elem_of_join.
    apply elem_of_lookup_imap in Hl as (i & v & -> & Hi).
    apply list_elem_of_fmap in Hp as (p' & -> & Hp').
    apply IH in Hp'. rewrite Hp', removeAt_delete.
    symmetry. by apply delete_Permutation.
Qed.

Lemma getPermutations_Permutation {A} (arr p : list A) :
  p ∈ getPermutations arr → p ≡ₚ arr.
Proof. apply getPermutations_fuel_Permutation. Qed.

(** every arrangement of the array is enumerated *)
Lemma getPermutations_fuel_complete {A} (fuel : nat) (arr p : list A) :
  length arr ≤ fuel → p ≡ₚ arr → p ∈ getPermutations_fuel fuel arr.
Proof.
  revert arr p. induction fuel as [|fuel IH]; intros arr p Hlen Hp.
  - destruct arr; [|simpl in Hlen; lia].
    apply Permutation_nil_r in Hp as ->. by left.
  - destruct arr as [|a arr].
    { apply Permutation_nil_r in Hp as ->. by left. }
    cbn [getPermutations_fuel].
    destruct p as [|v p']; [by apply Permutation_nil_cons in Hp|].
    assert (v ∈ a :: arr) as [i Hi]%list_elem_of_lookup_1 by (rewrite <- Hp; by left).
    apply list_elem_of_join.
    exists (cons v <$> getPermutations_fuel fuel (removeAt i (a :: arr))). split.
    + apply list_elem_of_fmap. exists p'. split; [done|]. apply IH.
      * rewrite removeAt_delete, length_delete by eauto. simpl in *. lia.
      * rewrite removeAt_delete. apply (Permutation_cons_inv (a := v)).
        rewrite Hp. by apply delete_Permutation.
    + by apply (elem_of_lookup_imap_2
                  (fun i v => cons v <$> getPermutations_fuel fuel (removeAt i (a :: arr)))).
Qed.

Lemma getPermutations_complete {A} (arr p : list A) :
  p ≡ₚ arr → p ∈ getPermutations arr.
Proof. by apply getPermutations_fuel_complete. Qed.

Lemma getPossibleGridSizes_spec (n rows cols : nat) :
  (rows, cols) ∈ getPossibleGridSizes n ↔
  1 ≤ rows ≤ n ∧ 1 ≤ cols ≤ n ∧ (rows * cols = n ∨ rows * cols = n + 1).
Proof.
  unfold getPossibleGridSizes. rewrite list_elem_of_bind. split.
  - intros (r & (c & Hin & Hc%elem_of_seq)%list_elem_of_bind & Hr%elem_of_seq).
    case_bool_decide; [|by apply elem_of_nil in Hin].
    apply list_elem_of_singleton in Hin. simplify_eq. lia.
  - intros (Hr & Hc & Hn). exists rows. split; [|apply elem_of_seq; lia].
    apply list_elem_of_bind. exists cols. split; [|apply elem_of_seq; lia].
    rewrite bool_decide_eq_true_2 by done. by apply list_elem_of_singleton.
Qed.

(** a shape of the search holds every state and leaves at most the last
    cell of the last row empty *)
Lemma getPossibleGridSizes_fits (n rows cols : nat) :
  (rows, cols) ∈ getPossibleGridSizes n →
  1 ≤ rows ∧ 1 ≤ cols ∧ n ≤ rows * cols ∧ rows * cols ≤ n + 1
  ∧ (rows - 1) * cols < n.
Proof.
  intros (Hr & Hc & Hn)%getPossibleGridSizes_spec.
  repeat split; try lia.
  destruct rows as [|r]; [lia|]. simpl in *. rewrite Nat.sub_0_r.
  destruct Hn as [Hn|Hn]; [lia|].
  destruct (decide (cols = 1)) as [->|]; nia.
Qed.

(** ** Placement *)

Lemma emptyGrid_rectangular rows cols : rectangular rows cols (emptyGrid rows cols).
Proof.
  split; [apply length_replicate|].
  apply Forall_replicate, length_replicate.
Qed.

Lemma emptyGrid_join rows cols :
  mjoin (emptyGrid rows cols) = replicate (rows * cols) None.
Proof.
  unfold emptyGrid. induction rows as [|rows IH]; [done|].
  simpl. by rewrite IH, replicate_add.
Qed.

Lemma setCell_rectangular rows cols grid row col v :
  rectangular rows cols grid → rectangular rows cols (setCell grid row col v).
Proof.
  intros [Hlen Hrows]. split; unfold setCell.
  - by rewrite length_alter.
  - apply Forall_alter; [done|]. intros r _ Hr. by rewrite length_insert.
Qed.

Lemma setCell_join rows cols grid row col v :
  rectangular rows cols grid → row < rows → col < cols →
  mjoin (setCell grid row col v) = <[row * cols + col := v]> (mjoin grid).
Proof.
  intros [Hlen Hrows]. revert rows row Hlen.
  induction Hrows as [|r grid Hr Hrows IH]; intros rows row Hlen Hrow Hcol.
  { simpl in Hlen. lia. }
  destruct row as [|row]; simpl.
  - by rewrite insert_app_l by lia.
  - rewrite (IH (length grid) row) by (simpl in Hlen; lia || done).
    rewrite <- Hr at 2.
    by rewrite <- Nat.add_assoc, insert_app_r.
Qed.

Lemma imap_pair_snoc {A} (l : list A) (x : A) :
  imap pair (l ++ [x]) = imap pair l ++ [(length l, x)].
Proof. rewrite imap_app. simpl. by rewrite Nat.add_0_r. Qed.

Lemma placeStates_snoc rows cols l x :
  placeStates rows cols (l ++ [x])
  = placeStep rows cols (placeStates rows cols l) (length l, x).
Proof. unfold placeStates. by rewrite imap_pair_snoc, foldl_app. Qed.

Lemma placeStates_spec rows cols perm :
  length perm ≤ rows * cols →
  let '(grid, statePositions) := placeStates rows cols perm in
  rectangular rows cols grid
  ∧ mjoin grid = (Some <$> perm) ++ replicate (rows * cols - length perm) None
  ∧ statePositions = foldl recordCell ∅ (imap (cellAt cols) (Some <$> perm)).
Proof.
  induction perm as [|x l IH] using rev_ind; intros Hlen.
  - simpl. split; [apply emptyGrid_rectangular|]. split; [|done].
    by rewrite emptyGrid_join, Nat.sub_0_r.
  - rewrite length_app in Hlen. simpl in Hlen.
    rewrite placeStates_snoc.
    destruct (placeStates rows cols l) as [grid pos].
    destruct IH as (Hrect & Hjoin & Hpos); [lia|].
    assert (0 < cols) by (destruct cols; lia).
    assert (length l / cols < rows) by (apply Nat.Div0.div_lt_upper_bound; lia).
    assert (length l mod cols < cols) by (apply Nat.mod_upper_bound; lia).
    unfold placeStep. rewrite bool_decide_eq_true_2 by done. simpl.
    split; [by apply setCell_rectangular|]. split.
    + rewrite (setCell_join rows cols) by done.
      rewrite (Nat.mul_comm _ cols), <- Nat.div_mod_eq, Hjoin.
      rewrite fmap_app, length_app. simpl.
      replace (rows * cols - length l) with (S (rows * cols - (length l + 1))) by lia.
      rewrite <- (length_fmap Some l) at 1.
      rewrite <- (Nat.add_0_r (length (Some <$> l))), insert_app_r. simpl.
      by rewrite <- app_assoc.
    + rewrite fmap_app, imap_app, foldl_app, <- Hpos. simpl.
      by rewrite length_fmap, Nat.add_0_r.
Qed.

Lemma cellsWithIndex_from cols (grid : Grid) (r0 : nat) :
  0 < cols → Forall (fun row => length row = cols) grid →
  mjoin (imap (fun i row => imap (fun j cell => (r0 + i, j, cell)) row) grid)
  = imap (fun k cell => (r0 + k / cols, k mod cols, cell)) (mjoin grid).
Proof.
  intros Hcols Hrows. revert r0.
  induction Hrows as [|row grid Hrow Hrows IH]; intros r0; [done|].
  simpl. rewrite imap_app. f_equal.
  - apply imap_ext. intros j cell Hj%lookup_lt_Some.
    rewrite Nat.div_small, Nat.mod_small by lia. done.
  - rewrite (imap_ext _ (fun i row0 => imap (fun j cell => (S r0 + i, j, cell)) row0)).
    2:{ intros i x _. simpl. apply imap_ext. intros j c _. f_equal. f_equal. lia. }
    rewrite IH, Hrow. apply imap_ext. intros k c _. simpl.
    replace (cols + k) with (k + 1 * cols) by lia.
    rewrite Nat.div_add, Nat.Div0.mod_add by lia.
    f_equal. f_equal. lia.
Qed.

Lemma cellsWithIndex_rectangular rows cols (grid : Grid) :
  0 < cols → rectangular rows cols grid →
  cellsWithIndex grid = imap (cellAt cols) (mjoin grid).
Proof.
  intros Hcols [_ Hrows].
  exact (cellsWithIndex_from cols grid 0 Hcols Hrows).
Qed.

Lemma foldl_recordCell_empty (m : gmap string (nat * nat)) (l : list (nat * nat * Cell)) :
  Forall (fun c => c.2 = None) l → foldl recordCell m l = m.
Proof.
  intros Hl. revert m. induction Hl as [|c l Hc Hl IH]; intros m; [done|].
  simpl. unfold recordCell at 2. by rewrite Hc.
Qed.

(** the positions recorded while placing are those read off the grid *)
Lemma placeStates_positions rows cols perm :
  0 < cols → length perm ≤ rows * cols →
  (placeStates rows cols perm).2 = gridPositions (placeStates rows cols perm).1.
Proof.
  intros Hcols Hlen. pose proof (placeStates_spec rows cols perm Hlen) as Hspec.
  destruct (placeStates rows cols perm) as [grid pos].
  destruct Hspec as (Hrect & Hjoin & ->). simpl.
  unfold gridPositions.
  rewrite (cellsWithIndex_rectangular rows cols) by done.
  rewrite Hjoin, imap_app, foldl_app.
  symmetry. apply foldl_recordCell_empty.
  apply Forall_forall. intros c (k & cell & -> & Hk)%elem_of_lookup_imap.
  apply lookup_replicate in Hk as [-> _]. done.
Qed.

Lemma omap_id_Some {A} (l : list A) : omap id (Some <$> l) = l.
Proof. induction l as [|x l IH]; [done|]. csimpl. by rewrite IH. Qed.

Lemma omap_id_None {A} (n : nat) : omap id (replicate n (@None A)) = [].
Proof. induction n; done. Qed.

Lemma placeStates_occupants rows cols perm :
  length perm ≤ rows * cols → occupants (placeStates rows cols perm).1 = perm.
Proof.
  intros Hlen. pose proof (placeStates_spec rows cols perm Hlen) as Hspec.
  destruct (placeStates rows cols perm) as [grid pos].
  destruct Hspec as (_ & Hjoin & _). simpl. unfold occupants.
  by rewrite Hjoin, omap_app, omap_id_Some, omap_id_None, app_nil_r.
Qed.

(** ** The search loop *)

Section search.
Variables (states : list string) (initState : string) (acceptingStates : list string).
Variables (transitions : Transitions) (accToRight : bool).

Local Abbreviation candidates := (candidates states).
Local Abbreviation candidateCost := (candidateCost transitions).
Local Abbreviation passes := (passes initState acceptingStates accToRight).
Local Abbreviation searchStep :=
  (searchStep initState acceptingStates transitions accToRight).
Local Abbreviation bestOf := (bestOf initState acceptingStates transitions accToRight).

Lemma elem_of_candidates rows cols perm :
  (rows, cols, perm) ∈ candidates ↔
  (rows, cols) ∈ getPossibleGridSizes (length states) ∧ perm ∈ getPermutations states.
Proof.
  unfold candidates. rewrite list_elem_of_bind. split.
  - intros (shape & (p & ? & ?)%list_elem_of_fmap & ?). by simplify_eq.
  - intros [? ?]. exists (rows, cols). split; [|done].
    apply list_elem_of_fmap. by exists perm.
Qed.

Lemma searchLoop_candidates :
  searchLoop states initState acceptingStates transitions accToRight
  = foldl searchStep ([], None) candidates.
Proof.
  unfold searchLoop, candidates.
  generalize (@nil (list (option string)), @None Z).
  induction (getPossibleGridSizes (length states)) as [|[rows cols] shapes IH];
    intros best; [done|].
  csimpl. rewrite foldl_app, <- IH. f_equal.
  generalize best. clear.
  induction (getPermutations states) as [|perm perms IH]; intros best; [done|].
  csimpl. by rewrite <- IH.
Qed.

Lemma searchStep_passes best c :
  searchStep best c
  = if passes c
    then if costBelow (candidateCost c) best.2
         then (candidateGrid c, Some (candidateCost c)) else best
    else best.
Proof.
  unfold searchStep, considerCandidate, passes, passesConstraints,
    candidateGrid, candidateCost.
  destruct (placeStates c.1.1 c.1.2 c.2) as [grid pos]. simpl.
  destruct (initialInFirstColumn initState grid); [|done]. simpl.
  by destruct (accToRight && accToRightRejects acceptingStates initState grid).
Qed.

Lemma foldl_searchStep_bestOf cs : bestOf cs (foldl searchStep ([], None) cs).
Proof.
  induction cs as [|c cs IH] using rev_ind.
  - left. split; [done|]. by intros c ?%elem_of_nil.
  - rewrite foldl_app. simpl. rewrite searchStep_passes.
    destruct (passes c) eqn:Hc.
    + destruct IH as [[-> Hnone]|(c0 & Hin & Hpass & -> & Hmin)]; simpl.
      * right. exists c. split; [set_solver|]. split; [done|]. split; [done|].
        intros c' [Hc'| ->%list_elem_of_singleton]%elem_of_app Hp; [|lia].
        rewrite Hnone in Hp; done.
      * destruct (Z.ltb_spec (candidateCost c) (candidateCost c0)).
        -- right. exists c. split; [set_solver|]. split; [done|]. split; [done|].
           intros c' [Hc'| ->%list_elem_of_singleton]%elem_of_app Hp; [|lia].
           specialize (Hmin c' Hc' Hp). lia.
        -- right. exists c0. split; [set_solver|]. split; [done|]. split; [done|].
           intros c' [Hc'| ->%list_elem_of_singleton]%elem_of_app Hp; [|lia].
           by apply Hmin.
    + destruct IH as [[-> Hnone]|(c0 & Hin & Hpass & -> & Hmin)].
      * left. split; [done|].
        intros c' [Hc'| ->%list_elem_of_singleton]%elem_of_app; auto.
      * right. exists c0. split; [set_solver|]. split; [done|]. split; [done|].
        intros c' [Hc'| ->%list_elem_of_singleton]%elem_of_app Hp; [|congruence].
        by apply Hmin.
Qed.

Lemma searchLoop_bestOf :
  bestOf candidates (searchLoop states initState acceptingStates transitions accToRight).
Proof. rewrite searchLoop_candidates. apply foldl_searchStep_bestOf. Qed.
End search.

(** ** The grid of a candidate *)

Lemma placeStates_lookup rows cols perm (i j : nat) (row : list Cell) :
  length perm ≤ rows * cols → j < cols →
  (placeStates rows cols perm).1 !! i = Some row →
  row !! j = ((Some <$> perm) ++ replicate (rows * cols - length perm) None) !! (i * cols + j).
Proof.
  intros Hlen Hj Hrow. pose proof (placeStates_spec rows cols perm Hlen) as Hspec.
  destruct (placeStates rows cols perm) as [grid pos].
  destruct Hspec as ([Hrows Hcols] & Hjoin & _). simpl in Hrow.
  assert (length row = cols) as Hlr.
  { eapply Forall_forall in Hcols; [done|]. by eapply list_elem_of_lookup_2. }
  destruct (lookup_lt_is_Some_2 row j) as [cell Hcell]; [lia|].
  rewrite Hcell, <- Hjoin. symmetry.
  apply (join_lookup_Some_same_length' cols); [done..|]. eauto.
Qed.

Lemma candidate_fits states rows cols perm :
  (rows, cols, perm) ∈ candidates states →
  perm ≡ₚ states ∧ 1 ≤ rows ∧ 1 ≤ cols
  ∧ length perm ≤ rows * cols ∧ rows * cols ≤ length perm + 1
  ∧ (rows - 1) * cols < length perm.
Proof.
  intros [Hshape Hperm%getPermutations_Permutation]%elem_of_candidates.
  apply getPossibleGridSizes_fits in Hshape. rewrite Hperm.
  destruct Hshape as (? & ? & ? & ? & ?). repeat split; done.
Qed.

(** every row of a candidate starts with a state *)
Lemma candidate_row_head states rows cols perm (i : nat) (row : list Cell) :
  (rows, cols, perm) ∈ candidates states →
  candidateGrid (rows, cols, perm) !! i = Some row →
  ∃ s, row !! 0 = Some (Some s).
Proof.
  intros (_ & Hrows & Hcols & Hlen & _ & Hlast)%candidate_fits Hrow.
  unfold candidateGrid in Hrow. simpl in Hrow.
  assert (i < rows) as Hi.
  { apply lookup_lt_Some in Hrow.
    pose proof (placeStates_spec rows cols perm Hlen) as Hspec.
    destruct (placeStates rows cols perm) as [grid pos].
    destruct Hspec as ([Hr _] & _). simpl in Hrow. lia. }
  rewrite (placeStates_lookup rows cols perm i 0 row) by (done || lia).
  assert (i * cols + 0 < length perm) as Hk by nia.
  rewrite lookup_app_l by (by rewrite length_fmap).
  rewrite list_lookup_fmap.
  destruct (lookup_lt_is_Some_2 perm (i * cols + 0) Hk) as [s ->]. by exists s.
Qed.

Lemma filter_all {A} (f : A -> bool) (l : list A) :
  Forall (fun x => f x = true) l → List.filter f l = l.
Proof. induction 1 as [|x l Hx _ IH]; [done|]. simpl. by rewrite Hx, IH. Qed.

(** no row of a candidate is empty, so the final trimming keeps it whole *)
Lemma trimGrid_candidate states c :
  c ∈ candidates states → trimGrid (candidateGrid c) = candidateGrid c.
Proof.
  destruct c as [[rows cols] perm]. intros Hc. apply filter_all, Forall_forall.
  intros row (i & Hi)%list_elem_of_lookup_1.
  destruct (candidate_row_head _ _ _ _ _ _ Hc Hi) as [s Hs].
  destruct row as [|cell row]; simplify_eq/=. done.
Qed.

Lemma candidate_gridCost states transitions c :
  c ∈ candidates states →
  candidateCost transitions c = gridCost transitions (candidateGrid c).
Proof.
  destruct c as [[rows cols] perm].
  intros (_ & Hrows & Hcols & Hlen & _)%candidate_fits.
  unfold candidateCost, gridCost, candidateGrid. simpl.
  by rewrite placeStates_positions.
Qed.

Lemma candidate_occupants states rows cols perm :
  (rows, cols, perm) ∈ candidates states →
  occupants (candidateGrid (rows, cols, perm)) = perm.
Proof.
  intros (_ & _ & _ & Hlen & _)%candidate_fits.
  by apply placeStates_occupants.
Qed.

(** the outcome of the search: no grid when no candidate passes, else the
    grid of a passing candidate that no passing candidate undercuts *)
Lemma findOptimalStatePlacement_cases states initState acceptingStates transitions accToRight :
  let result :=
    findOptimalStatePlacement states initState acceptingStates transitions accToRight in
  (result = [] ∧ ∀ c, c ∈ candidates states →
                 passes initState acceptingStates accToRight c = false)
  ∨ (∃ c, c ∈ candidates states
        ∧ passes initState acceptingStates accToRight c = true
        ∧ result = candidateGrid c
        ∧ ∀ c', c' ∈ candidates states →
             passes initState acceptingStates accToRight c' = true →
             (candidateCost transitions c ≤ candidateCost transitions c')%Z).
Proof.
  unfold findOptimalStatePlacement.
  destruct (searchLoop_bestOf states initState acceptingStates transitions accToRight)
    as [[-> Hnone]|(c & Hin & Hpass & -> & Hmin)].
  - by left.
  - right. exists c. simpl. by rewrite (trimGrid_candidate states).
Qed.

(** ** Counting the cells of a state *)

Lemma cellsWithIndex_cells_from (g : nat → nat) (grid : Grid) :
  (fun c : nat * nat * Cell => c.2) <$>
    mjoin (imap (fun i row => imap (fun j cell => (g i, j, cell)) row) grid)
  = mjoin grid.
Proof.
  revert g. induction grid as [|row grid IH]; intros g; [done|].
  simpl. rewrite fmap_app. f_equal.
  - rewrite fmap_imap. simpl.
    rewrite (imap_ext _ (const id)) by done. by rewrite imap_const, list_fmap_id.
  - apply (IH (g ∘ S)).
Qed.

Lemma cellsWithIndex_cells (grid : Grid) :
  (fun c : nat * nat * Cell => c.2) <$> cellsWithIndex grid = mjoin grid.
Proof. apply (cellsWithIndex_cells_from id). Qed.

Lemma length_filter_fmap {A B} (f : A → B) (P : B → Prop)
    (HP : ∀ y, Decision (P y)) (HPf : ∀ x, Decision (P (f x))) (l : list A) :
  length (filter (fun x => P (f x)) l) = length (filter P (f <$> l)).
Proof.
  induction l as [|x l IH]; [done|]. csimpl.
  rewrite !filter_cons. repeat case_decide; simpl; rewrite ?IH; done.
Qed.

Lemma length_filter_omap (s : string) (l : list Cell) :
  length (filter (fun c => c = Some s) l) = length (filter (fun x => x = s) (omap id l)).
Proof.
  induction l as [|[x|] l IH]; [done|..]; csimpl; rewrite !filter_cons.
  - destruct (decide (x = s)) as [->|Hne].
    + rewrite decide_True by done. simpl. by rewrite IH.
    + rewrite decide_False by congruence. done.
  - rewrite decide_False by done. done.
Qed.

Lemma length_cellsHolding (grid : Grid) (s : string) :
  length (cellsHolding grid s) = occurrences s (occupants grid).
Proof.
  unfold cellsHolding, occurrences, occupants.
  rewrite length_fmap, <- length_filter_omap, <- cellsWithIndex_cells.
  apply (length_filter_fmap (fun c : nat * nat * Cell => c.2) (fun c => c = Some s)).
Qed.

Lemma occurrences_Permutation (s : string) (l k : list string) :
  l ≡ₚ k → occurrences s l = occurrences s k.
Proof. intros Hlk. unfold occurrences. by rewrite Hlk. Qed.

(** ** The layout search *)

(** C1: the grid that the layout search returns is the grid of an enumerated
    shape and permutation that passes the placement constraints, and its
    transition cost is less than or equal to the cost of the grid of every
    enumerated shape and permutation that passes them. *)
Theorem findOptimalStatePlacement_minimal
    states initState acceptingStates transitions accToRight rows cols perm :
  (rows, cols) ∈ getPossibleGridSizes (length states) →
  perm ∈ getPermutations states →
  passesConstraints initState acceptingStates accToRight (placeStates rows cols perm).1 = true →
  let result :=
    findOptimalStatePlacement states initState acceptingStates transitions accToRight in
  (∃ rows0 cols0 perm0,
      (rows0, cols0) ∈ getPossibleGridSizes (length states)
      ∧ perm0 ∈ getPermutations states
      ∧ passesConstraints initState acceptingStates accToRight
          (placeStates rows0 cols0 perm0).1 = true
      ∧ result = (placeStates rows0 cols0 perm0).1)
  ∧ (gridCost transitions result ≤ gridCost transitions (placeStates rows cols perm).1)%Z.
Proof.
  intros Hshape Hperm Hpass.
  assert ((rows, cols, perm) ∈ candidates states) as Hc by by apply elem_of_candidates.
  destruct (findOptimalStatePlacement_cases states initState acceptingStates
              transitions accToRight) as [[_ Hnone]|(c0 & Hc0 & Hp0 & Hres & Hmin)].
  - specialize (Hnone _ Hc). unfold passes, candidateGrid in Hnone. simpl in Hnone.
    congruence.
  - simpl. rewrite Hres. split.
    + destruct c0 as [[rows0 cols0] perm0].
      apply elem_of_candidates in Hc0 as Hc0'. destruct Hc0' as [? ?].
      by exists rows0, cols0, perm0.
    + specialize (Hmin _ Hc Hpass).
      by rewrite !(candidate_gridCost states) in Hmin.
Qed.

Lemma findOptimalStatePlacement_minimal_witness :
  (gridCost [("q1", [("0", ["q1"]); ("1", ["q3"])]); ("q3", [("1", ["q2"])])]
     (findOptimalStatePlacement ["q1"; "q2"; "q3"] "q1" ["q2"]
        [("q1", [("0", ["q1"]); ("1", ["q3"])]); ("q3", [("1", ["q2"])])] true)
   ≤ gridCost [("q1", [("0", ["q1"]); ("1", ["q3"])]); ("q3", [("1", ["q2"])])]
       (placeStates 3 1 ["q1"; "q3"; "q2"]).1)%Z.
Proof.
  apply (findOptimalStatePlacement_minimal ["q1"; "q2"; "q3"] "q1" ["q2"]
           [("q1", [("0", ["q1"]); ("1", ["q3"])]); ("q3", [("1", ["q2"])])] true
           3 1 ["q1"; "q3"; "q2"]).
  - compute_done.
  - compute_done.
  - vm_compute. reflexivity.
Defined.

Lemma occurrences_not_elem_of (s : string) (l : list string) :
  s ∉ l → occurrences s l = 0.
Proof.
  unfold occurrences. induction l as [|x l IH]; [done|].
  intros [Hne Hl]%not_elem_of_cons. rewrite filter_cons.
  rewrite decide_False by congruence. by apply IH.
Qed.

Lemma occurrences_NoDup (s : string) (l : list string) :
  NoDup l → s ∈ l → occurrences s l = 1.
Proof.
  induction 1 as [|x l Hx Hl IH]; [by intros ?%elem_of_nil|].
  unfold occurrences in *. rewrite filter_cons. intros [->|Hin]%elem_of_cons.
  - rewrite decide_True by done. simpl. f_equal.
    by apply occurrences_not_elem_of.
  - rewrite decide_False by (by intros ->). by apply IH.
Qed.

(** a state that is not listed is in no candidate, so the search has no
    grid for an initial state outside the list *)
Lemma findOptimalStatePlacement_initial_missing
    states initState acceptingStates transitions accToRight :
  initState ∉ states →
  findOptimalStatePlacement states initState acceptingStates transitions accToRight = [].
Proof.
  intros Hmissing.
  destruct (findOptimalStatePlacement_cases states initState acceptingStates
              transitions accToRight)
    as [[Hres _]|([[rows cols] perm] & Hc & Hp & _)]; [done|].
  exfalso. apply Hmissing.
  apply candidate_fits in Hc as Hfits. destruct Hfits as (<- & _).
  rewrite <- (candidate_occupants states rows cols perm Hc).
  unfold passes, passesConstraints in Hp. apply andb_prop in Hp as [Hinit _].
  apply existsb_exists in Hinit as (row & Hrow & Hhead%bool_decide_eq_true).
  apply list_elem_of_In in Hrow. unfold occupants.
  apply list_elem_of_omap. exists (Some initState). split; [|done].
  apply list_elem_of_join. exists row. split; [|done].
  by eapply list_elem_of_lookup_2.
Qed.

(** C2: the grid that the layout search returns is empty, or its occupied
    cells hold the entries of the input state list, each entry in exactly
    one cell: the number of cells that hold a state is the number of times
    the list names it, none is missing and none is placed twice; when the
    list names no state twice, every state of the list sits in exactly one
    cell. *)
Theorem findOptimalStatePlacement_places_every_state
    states initState acceptingStates transitions accToRight :
  let result :=
    findOptimalStatePlacement states initState acceptingStates transitions accToRight in
  result = []
  ∨ (occupants result ≡ₚ states
     ∧ (∀ s, length (cellsHolding result s) = occurrences s states)
     ∧ (NoDup states → ∀ s, s ∈ states → ∃ p, cellsHolding result s = [p])).
Proof.
  destruct (findOptimalStatePlacement_cases states initState acceptingStates
              transitions accToRight) as [[Hres _]|(c0 & Hc0 & _ & Hres & _)].
  - by left.
  - right. simpl. rewrite Hres. destruct c0 as [[rows cols] perm].
    assert (occupants (candidateGrid (rows, cols, perm)) ≡ₚ states) as Hocc.
    { rewrite (candidate_occupants states) by done.
      by apply candidate_fits in Hc0 as [? _]. }
    assert (∀ s, length (cellsHolding (candidateGrid (rows, cols, perm)) s)
                 = occurrences s states) as Hcount.
    { intros s. rewrite length_cellsHolding. by apply occurrences_Permutation. }
    split; [done|]. split; [done|].
    intros Hnodup s Hs. specialize (Hcount s).
    rewrite (occurrences_NoDup s states Hnodup Hs) in Hcount.
    destruct (cellsHolding _ s) as [|p [|q l]]; simplify_eq/=. by exists p.
Qed.

(** C9: in every non-empty grid that the layout search returns, some row
    has the initial state in column 0. *)
Theorem findOptimalStatePlacement_initial_in_column_0
    states initState acceptingStates transitions accToRight :
  findOptimalStatePlacement states initState acceptingStates transitions accToRight ≠ [] →
  ∃ i row,
    findOptimalStatePlacement states initState acceptingStates transitions accToRight !! i
    = Some row
    ∧ row !! 0 = Some (Some initState).
Proof.
  intros Hne.
  destruct (findOptimalStatePlacement_cases states initState acceptingStates
              transitions accToRight) as [[Hres _]|(c0 & _ & Hp0 & Hres & _)]; [done|].
  simpl in Hres. rewrite Hres.
  unfold passes, passesConstraints in Hp0.
  apply andb_prop in Hp0 as [Hinit _].
  apply existsb_exists in Hinit as (row & Hrow & Hhead).
  apply list_elem_of_In, list_elem_of_lookup_1 in Hrow as [i Hi].
  exists i, row. split; [done|]. by apply bool_decide_eq_true in Hhead.
Qed.

Lemma findOptimalStatePlacement_initial_in_column_0_witness :
  ∃ i row,
    findOptimalStatePlacement ["q2"; "q1"; "q3"] "q1" ["q3"]
      [("q1", [("a", ["q2"])]); ("q2", [("b", ["q3"])])] false !! i = Some row
    ∧ row !! 0 = Some (Some "q1").
Proof.
  apply (findOptimalStatePlacement_initial_in_column_0 ["q2"; "q1"; "q3"] "q1" ["q3"]
           [("q1", [("a", ["q2"])]); ("q2", [("b", ["q3"])])] false).
  vm_compute. discriminate.
Defined.

(** ** The accepting-state convention *)

Lemma accToRightRejects_conditions acceptingStates initState grid :
  negb (accToRightRejects acceptingStates initState grid)
  = everyRowEndsAccepting acceptingStates grid
    || noAcceptingBeforeRightmost acceptingStates initState grid.
Proof.
  unfold accToRightRejects, everyRowEndsAccepting, noAcceptingBeforeRightmost.
  by rewrite negb_andb, negb_involutive.
Qed.

(** C3 (as stated, refuted): with the convention enabled, the placement
    [[q1, q2]] with no accepting state fails the first condition (the
    rightmost cell q2 is not accepting) and meets the second one, and the
    search keeps it and returns it. *)
Lemma accToRight_keeps_grid_with_one_condition :
  let grid := (placeStates 1 2 ["q1"; "q2"]).1 in
  everyRowEndsAccepting [] grid = false
  ∧ noAcceptingBeforeRightmost [] "q1" grid = true
  ∧ considerCandidate "q1" [] [] true 1 2 ([], None) ["q1"; "q2"] = (grid, Some 0%Z)
  ∧ considerCandidate "q1" [] [] true 1 2 ([], None) ["q1"; "q2"] ≠ ([], None)
  ∧ findOptimalStatePlacement ["q1"; "q2"] "q1" [] [] true = grid.
Proof. vm_compute. done. Qed.

(** the other way round: [[q1, q2, q3]] with q2 and q3 accepting meets the
    first condition and fails the second, and is kept as well *)
Lemma accToRight_keeps_grid_with_other_condition :
  let grid := (placeStates 1 3 ["q1"; "q2"; "q3"]).1 in
  everyRowEndsAccepting ["q2"; "q3"] grid = true
  ∧ noAcceptingBeforeRightmost ["q2"; "q3"] "q1" grid = false
  ∧ considerCandidate "q1" ["q2"; "q3"] [] true 1 3 ([], None) ["q1"; "q2"; "q3"]
    = (grid, Some 0%Z).
Proof. vm_compute. done. Qed.

(** C3 (amended): with the convention enabled, the loop body skips a
    permutation exactly when the initial state is in no first column or
    both conditions fail; a permutation whose grid has the initial state in
    a first column and meets at least one of the two conditions is costed
    and compared with the best so far. *)
Theorem considerCandidate_accToRight
    initState acceptingStates transitions rows cols best perm :
  let grid := (placeStates rows cols perm).1 in
  let cost := calculateTransitionCost (placeStates rows cols perm).2 transitions in
  considerCandidate initState acceptingStates transitions true rows cols best perm
  = if initialInFirstColumn initState grid
       && (everyRowEndsAccepting acceptingStates grid
           || noAcceptingBeforeRightmost acceptingStates initState grid)
    then (if costBelow cost best.2 then (grid, Some cost) else best)
    else best.
Proof.
  unfold considerCandidate.
  destruct (placeStates rows cols perm) as [grid pos]. simpl.
  rewrite <- accToRightRejects_conditions.
  destruct (initialInFirstColumn initState grid); [|done]. simpl.
  by destruct (accToRightRejects acceptingStates initState grid).
Qed.

Lemma considerCandidate_not_accToRight
    initState acceptingStates acceptingStates' transitions rows cols best perm :
  considerCandidate initState acceptingStates transitions false rows cols best perm
  = considerCandidate initState acceptingStates' transitions false rows cols best perm.
Proof. unfold considerCandidate. by destruct (placeStates rows cols perm). Qed.

Lemma searchLoop_not_accToRight states initState acceptingStates acceptingStates' transitions :
  searchLoop states initState acceptingStates transitions false
  = searchLoop states initState acceptingStates' transitions false.
Proof.
  rewrite !searchLoop_candidates.
  generalize (@nil (list (option string)), @None Z).
  induction (candidates states) as [|c cs IH]; intros best; [done|].
  simpl. rewrite IH. unfold searchStep.
  by rewrite (considerCandidate_not_accToRight _ acceptingStates acceptingStates').
Qed.

(** C5 (as stated, refuted): with the convention disabled, the search
    returns [[q1, q2]] for the accepting list [q1], and the rightmost
    occupied cell of its row is q2, which is not accepting. *)
Lemma not_accToRight_rightmost_not_accepting :
  let result :=
    findOptimalStatePlacement ["q1"; "q2"] "q1" ["q1"] [("q1", [("0", ["q2"])])] false in
  result = [[Some "q1"; Some "q2"]]
  ∧ result ≠ []
  ∧ everyRowEndsAccepting ["q1"] result = false.
Proof. vm_compute. done. Qed.

(** C5 (amended): with the convention enabled, every non-empty grid that
    the search returns meets at least one of the two conditions: every row
    ends in an accepting state (or is empty), or no row has an accepting
    state other than the initial state before its rightmost occupied cell.
    With the convention disabled the accepting states do not enter the
    search at all. *)
Theorem findOptimalStatePlacement_accToRight states initState acceptingStates transitions :
  (findOptimalStatePlacement states initState acceptingStates transitions true ≠ [] →
   everyRowEndsAccepting acceptingStates
     (findOptimalStatePlacement states initState acceptingStates transitions true) = true
   ∨ noAcceptingBeforeRightmost acceptingStates initState
       (findOptimalStatePlacement states initState acceptingStates transitions true) = true)
  ∧ ∀ acceptingStates',
      findOptimalStatePlacement states initState acceptingStates transitions false
      = findOptimalStatePlacement states initState acceptingStates' transitions false.
Proof.
  split.
  - intros Hne.
    destruct (findOptimalStatePlacement_cases states initState acceptingStates
                transitions true) as [[Hres _]|(c0 & _ & Hp0 & Hres & _)]; [done|].
    simpl in Hres. rewrite Hres.
    unfold passes, passesConstraints in Hp0.
    apply andb_prop in Hp0 as [_ Hacc]. simpl in Hacc.
    rewrite accToRightRejects_conditions in Hacc.
    by apply orb_prop in Hacc.
  - intros acceptingStates'. unfold findOptimalStatePlacement.
    by rewrite (searchLoop_not_accToRight _ _ acceptingStates acceptingStates').
Qed.

Lemma findOptimalStatePlacement_accToRight_witness :
  everyRowEndsAccepting ["q2"]
    (findOptimalStatePlacement ["q1"; "q2"] "q1" ["q2"] [("q1", [("0", ["q2"])])] true) = true
  ∨ noAcceptingBeforeRightmost ["q2"] "q1"
      (findOptimalStatePlacement ["q1"; "q2"] "q1" ["q2"] [("q1", [("0", ["q2"])])] true) = true.
Proof.
  apply (findOptimalStatePlacement_accToRight ["q1"; "q2"] "q1" ["q2"]
           [("q1", [("0", ["q2"])])]).
  vm_compute. discriminate.
Defined.

(** ** Scans of a grid *)

Lemma elem_of_cellsWithIndex (grid : Grid) (i j : nat) (cell : Cell) :
  (i, j, cell) ∈ cellsWithIndex grid ↔ gridCell grid (i, j) = Some cell.
Proof.
  unfold cellsWithIndex, gridCell. simpl. rewrite list_elem_of_join. split.
  - intros (l & Hin & (i' & row & -> & Hrow)%elem_of_lookup_imap).
    apply elem_of_lookup_imap in Hin as (j' & cell' & ? & Hcell). simplify_eq.
    by rewrite Hrow.
  - destruct (grid !! i) as [row|] eqn:Hrow; [|done]. simpl. intros Hcell.
    exists (imap (fun j cell => (i, j, cell)) row). split.
    + by apply (elem_of_lookup_imap_2 (fun j cell => (i, j, cell))).
    + by apply (elem_of_lookup_imap_2
                  (fun i row => imap (fun j cell => (i, j, cell)) row)).
Qed.

Lemma gridCell_lt (grid : Grid) (p : nat * nat) (cell : Cell) :
  gridCell grid p = Some cell → p.1 < length grid.
Proof.
  unfold gridCell. destruct (grid !! p.1) eqn:Hrow; [|done].
  intros _. by eapply lookup_lt_Some.
Qed.

Lemma findPosition_Some (grid : Grid) (s : string) (p : nat * nat) :
  findPosition grid s = Some p → gridCell grid p = Some (Some s).
Proof.
  unfold findPosition.
  destruct (List.find _ _) as [[[i j] cell]|] eqn:Hfind; [|done].
  intros [= <-]. apply find_some in Hfind as [Hin Hcell].
  apply bool_decide_eq_true in Hcell. simpl in *. subst cell.
  by apply elem_of_cellsWithIndex, list_elem_of_In.
Qed.

(** ** No [TypeError] in the scans *)

Lemma cellIsNull_Ok (grid : Grid) (i j : nat) :
  i < length grid → ∃ b, cellIsNull grid i j = Ok b.
Proof.
  intros [row Hrow]%lookup_lt_is_Some_2. unfold cellIsNull. rewrite Hrow. eauto.
Qed.

Lemma getEdgeAt_Ok (grid : Grid) (i j : nat) :
  i < length grid → ∃ r, getEdgeAt grid i j = Ok r.
Proof.
  intros Hi. unfold getEdgeAt.
  case_bool_decide; [eauto|].
  destruct (cellIsNull_Ok grid (i - 1) j) as [up ->]; [lia|]. simpl.
  destruct up; [eauto|].
  case_bool_decide; [eauto|].
  destruct (cellIsNull_Ok grid (i + 1) j) as [down ->]; [lia|]. simpl.
  destruct down; [eauto|].
  case_bool_decide; [eauto|].
  destruct (cellIsNull_Ok grid i (j - 1)) as [left ->]; [lia|]. simpl.
  destruct left; [eauto|].
  destruct (lookup_lt_is_Some_2 grid i Hi) as [row ->].
  case_bool_decide; [eauto|].
  destruct (cellIsNull_Ok grid i (j + 1)) as [right ->]; [lia|]. simpl.
  destruct right; eauto.
Qed.

Lemma getEdgeScan_Ok (grid : Grid) (item : string) (cells : list (nat * nat * Cell)) :
  Forall (fun c : nat * nat * Cell => c.1.1 < length grid) cells →
  ∃ r, getEdgeScan grid item cells = Ok r.
Proof.
  induction 1 as [|[[i j] cell] cells Hi _ IH]; simpl; [eauto|].
  case_bool_decide; [|done].
  destruct (getEdgeAt_Ok grid i j Hi) as [[side|] ->]; simpl; eauto.
Qed.

Lemma getEdge_Ok (grid : Grid) (item : string) : ∃ r, getEdge grid item = Ok r.
Proof.
  apply getEdgeScan_Ok, Forall_forall. intros [[i j] cell] Hin%elem_of_cellsWithIndex.
  by apply gridCell_lt in Hin.
Qed.

Lemma locate_nil (s : string) : locate [] s = ((-1)%Z, (-1)%Z).
Proof. done. Qed.

Lemma bendDirection_Ok (fromState toState : string) (grid : Grid) :
  ∃ d, bendDirection fromState toState grid = Ok d ∧ (d.1 = "left" ∨ d.1 = "right").
Proof.
  unfold bendDirection.
  destruct grid as [|row0 grid].
  - rewrite !locate_nil. simpl. eauto.
  - destruct (locate (row0 :: grid) fromState) as [fromRow fromCol].
    destruct (locate (row0 :: grid) toState) as [toRow toCol].
    change ((row0 :: grid) !! 0) with (Some row0).
    repeat (case_bool_decide; simpl; eauto).
Qed.

(** ** One pair of the edge loop *)

Section routing.
Variables (transitionsObj : Transitions) (grid : Grid) (symbolsStyle : string).

Local Abbreviation route := (routePair transitionsObj grid symbolsStyle).
Local Abbreviation outcome := (routeOutcome transitionsObj grid symbolsStyle).
Local Abbreviation run := (runPairs transitionsObj grid symbolsStyle).

Lemma routeOutcome_cases (bda : list (list string)) (i j : nat) (a b : string) :
  match checkTransition transitionsObj a b with
  | None => outcome bda (i, a, (j, b)) = (bda, [])
  | Some symbols =>
    let label := labelOf symbolsStyle symbols in
    if bool_decide (a = b) then
      ∃ side, getEdge grid a = Ok side
              ∧ outcome bda (i, a, (j, b))
                = (bda, [LoopEdge a (default "below" side) label])
    else if drawnStraight transitionsObj grid a b then
      outcome bda (i, a, (j, b)) = (bda, [StraightEdge a b label])
    else
      ∃ d, bendDirection a b grid = Ok d ∧ (d.1 = "left" ∨ d.1 = "right")
           ∧ let bD := if bool_decide (bendEntry bda i j = "")
                       then d.1 else bendEntry bda i j in
             outcome bda (i, a, (j, b))
             = (setBendEntry (setBendEntry bda i j bD) j i bD,
                [BentEdge a b bD d.2 label])
  end.
Proof.
  unfold routeOutcome, routePair, drawnStraight. simpl.
  destruct (checkTransition transitionsObj a b) as [symbols|]; [|done].
  simpl. case_bool_decide.
  - destruct (getEdge_Ok grid a) as [side Hside]. exists side. by rewrite Hside.
  - destruct (negb _ && _); [done|].
    destruct (bendDirection_Ok a b grid) as (d & Hd & Hlr).
    exists d. rewrite Hd. split; [done|]. split; [done|].
    simpl. by case_bool_decide.
Qed.

Lemma routePair_outcome (st : list (list string) * list Edge)
    (from to : nat * string) :
  route from st to
  = Ok ((outcome st.1 (from, to)).1, st.2 ++ (outcome st.1 (from, to)).2).
Proof.
  destruct st as [bda code], from as [i a], to as [j b].
  pose proof (routeOutcome_cases bda i j a b) as Hcases.
  unfold routePair. unfold drawnStraight in Hcases. simpl in *.
  destruct (checkTransition transitionsObj a b) as [symbols|].
  - case_bool_decide.
    + destruct Hcases as (side & Hside & ->). by rewrite Hside.
    + destruct (negb _ && _); [by rewrite Hcases|].
      destruct Hcases as (d & Hd & _ & ->). rewrite Hd. simpl.
      by case_bool_decide.
  - rewrite Hcases. simpl. by rewrite app_nil_r.
Qed.

Lemma foldlR_routePair (ps : list (nat * string * (nat * string)))
    (st : list (list string) * list Edge) :
  foldlR (fun st p => route p.1 st p.2) st ps
  = Ok ((run st.1 ps).1, st.2 ++ (run st.1 ps).2).
Proof.
  revert st. induction ps as [|[from to] ps IH]; intros [bda code]; simpl.
  - by rewrite app_nil_r.
  - rewrite routePair_outcome. simpl. rewrite IH. simpl. by rewrite app_assoc.
Qed.

Lemma foldlR_app {A B} (f : A → B → Result A) (l1 l2 : list B) (a : A) :
  foldlR f a (l1 ++ l2) = bindR (foldlR f a l1) (fun a' => foldlR f a' l2).
Proof.
  revert a. induction l1 as [|x l1 IH]; intros a; [done|].
  simpl. destruct (f a x); simpl; [apply IH|done].
Qed.

Lemma foldlR_row (from : nat * string) (tos : list (nat * string))
    (st : list (list string) * list Edge) :
  foldlR (route from) st tos
  = foldlR (fun st p => route p.1 st p.2) st ((fun to => (from, to)) <$> tos).
Proof.
  revert st. induction tos as [|to tos IH]; intros st; [done|].
  csimpl. destruct (route from st to); simpl; [apply IH|done].
Qed.

Lemma foldlR_nested (froms tos : list (nat * string))
    (st : list (list string) * list Edge) :
  foldlR (fun st from => foldlR (route from) st tos) st froms
  = foldlR (fun st p => route p.1 st p.2) st
           (froms ≫= fun from => (fun to => (from, to)) <$> tos).
Proof.
  revert st. induction froms as [|from froms IH]; intros st; [done|].
  csimpl. rewrite foldlR_app, foldlR_row.
  destruct (foldlR _ st _); simpl; [apply IH|done].
Qed.

(** the edge loop never stops on a [TypeError] *)
Lemma generateEdges_Ok (statesArray : list string) :
  generateEdges transitionsObj grid symbolsStyle statesArray
  = Ok (run (replicate (length statesArray) (replicate (length statesArray) ""))
                 (statePairs statesArray)).2.
Proof.
  unfold generateEdges. rewrite foldlR_nested, foldlR_routePair. done.
Qed.

End routing.

(** ** Sorted symbols *)

Lemma insertSorted_Permutation (x : string) (l : list string) :
  insertSorted x l ≡ₚ x :: l.
Proof.
  induction l as [|y l IH]; [done|]. simpl.
  destruct (String.leb x y); [done|]. by rewrite IH, Permutation_swap.
Qed.

Lemma sortStrings_Permutation (l : list string) : sortStrings l ≡ₚ l.
Proof.
  induction l as [|x l IH]; [done|]. simpl.
  by rewrite insertSorted_Permutation, IH.
Qed.

Lemma insertSorted_Sorted (x : string) (l : list string) :
  Sorted stringLe l → Sorted stringLe (insertSorted x l).
Proof.
  induction 1 as [|y l Hl IH Hhd]; simpl.
  - by repeat constructor.
  - destruct (String.leb x y) eqn:Hxy.
    + constructor; [by constructor|]. by constructor.
    + assert (stringLe y x) as Hyx.
      { destruct (String.leb_total x y) as [Hle|Hle]; [congruence|done]. }
      constructor; [done|].
      destruct Hhd as [|z l Hyz]; simpl in *.
      * by constructor.
      * destruct (String.leb x z); by constructor.
Qed.

Lemma sortStrings_Sorted (l : list string) : Sorted stringLe (sortStrings l).
Proof.
  induction l as [|x l IH]; simpl; [constructor|]. by apply insertSorted_Sorted.
Qed.

Lemma checkTransition_Some (transitions : Transitions) (s1 s2 : string)
    (symbols : list string) :
  checkTransition transitions s1 s2 = Some symbols →
  Sorted stringLe symbols
  ∧ symbols ≡ₚ keysBetween transitions s1 s2 ≫= splitBy isComma.
Proof.
  unfold checkTransition. case_bool_decide; [|done]. intros [= <-].
  split; [apply sortStrings_Sorted|apply sortStrings_Permutation].
Qed.

(** ** The lines of the edge loop *)

Section edges.
Variables (transitionsObj : Transitions) (grid : Grid) (symbolsStyle : string).

Local Abbreviation outcome := (routeOutcome transitionsObj grid symbolsStyle).
Local Abbreviation run := (runPairs transitionsObj grid symbolsStyle).

(** a line that the pair of [a] and [b] may add *)
Lemma routeOutcome_edge (bda : list (list string)) (i j : nat) (a b : string) (e : Edge) :
  e ∈ (outcome bda (i, a, (j, b))).2 →
  edgeFrom e = a ∧ edgeTo e = b
  ∧ (∃ symbols, checkTransition transitionsObj a b = Some symbols
                ∧ edgeLabel e = labelOf symbolsStyle symbols)
  ∧ isLoop e = bool_decide (a = b)
  ∧ isStraight e = negb (bool_decide (a = b)) && drawnStraight transitionsObj grid a b.
Proof.
  pose proof (routeOutcome_cases transitionsObj grid symbolsStyle bda i j a b) as Hcases.
  destruct (checkTransition transitionsObj a b) as [symbols|]; simpl in Hcases.
  - case_bool_decide.
    + destruct Hcases as (side & _ & ->). intros ->%list_elem_of_singleton.
      simpl. eauto 10.
    + destruct (drawnStraight transitionsObj grid a b).
      * rewrite Hcases. intros ->%list_elem_of_singleton. simpl. eauto 10.
      * destruct Hcases as (d & _ & _ & ->). intros ->%list_elem_of_singleton.
        simpl. eauto 10.
  - rewrite Hcases. by intros ?%elem_of_nil.
Qed.

(** a pair with a transition adds exactly one line *)
Lemma routeOutcome_one (bda : list (list string)) (i j : nat) (a b : string) :
  is_Some (checkTransition transitionsObj a b) →
  ∃ e, (outcome bda (i, a, (j, b))).2 = [e].
Proof.
  pose proof (routeOutcome_cases transitionsObj grid symbolsStyle bda i j a b) as Hcases.
  intros [symbols Hsym]. rewrite Hsym in Hcases. simpl in Hcases.
  case_bool_decide.
  - destruct Hcases as (side & _ & ->). eauto.
  - destruct (drawnStraight transitionsObj grid a b).
    + rewrite Hcases. eauto.
    + destruct Hcases as (d & _ & _ & ->). eauto.
Qed.

Lemma runPairs_edge (bda : list (list string)) (ps : list (nat * string * (nat * string)))
    (e : Edge) :
  e ∈ (run bda ps).2 → ∃ bda0 p, p ∈ ps ∧ e ∈ (outcome bda0 p).2.
Proof.
  revert bda. induction ps as [|p ps IH]; intros bda; simpl.
  - by intros ?%elem_of_nil.
  - intros [He|He]%elem_of_app.
    + exists bda, p. split; [left|done].
    + destruct (IH _ He) as (bda0 & p0 & Hin & He0).
      exists bda0, p0. split; [by right|done].
Qed.

Lemma runPairs_pair (bda : list (list string)) (ps : list (nat * string * (nat * string)))
    (p : nat * string * (nat * string)) :
  p ∈ ps → ∃ bda0, ∀ e, e ∈ (outcome bda0 p).2 → e ∈ (run bda ps).2.
Proof.
  revert bda. induction ps as [|p0 ps IH]; intros bda; [by intros ?%elem_of_nil|].
  intros [->|Hin]%elem_of_cons; simpl.
  - exists bda. intros e He. apply elem_of_app. by left.
  - destruct (IH (outcome bda p0).1 Hin) as [bda0 Hsub].
    exists bda0. intros e He. apply elem_of_app. right. by apply Hsub.
Qed.

End edges.

Lemma elem_of_statePairs (statesArray : list string) (i j : nat) (a b : string) :
  (i, a, (j, b)) ∈ statePairs statesArray ↔
  statesArray !! i = Some a ∧ statesArray !! j = Some b.
Proof.
  unfold statePairs. rewrite list_elem_of_bind. split.
  - intros (from & (to & ? & Hto)%list_elem_of_fmap & Hfrom). simplify_eq.
    apply elem_of_lookup_imap in Hfrom as (? & ? & ? & ?).
    apply elem_of_lookup_imap in Hto as (? & ? & ? & ?). by simplify_eq.
  - intros [Ha Hb]. exists (i, a). split.
    + apply list_elem_of_fmap. exists (j, b). split; [done|].
      by apply (elem_of_lookup_imap_2 pair).
    + by apply (elem_of_lookup_imap_2 pair).
Qed.

(** ** The generator *)

(** the generator never stops on a [TypeError] *)
Lemma generateFrom_Ok statesArray initialState acceptingStatesArray transitionsObj
    initialWhere acceptingBy symbolsStyle :
  let grid :=
    findOptimalStatePlacement statesArray initialState acceptingStatesArray transitionsObj
      (bool_decide (acceptingBy = "accepting by arrow")) in
  generateFrom statesArray initialState acceptingStatesArray transitionsObj
    initialWhere acceptingBy symbolsStyle
  = Ok (mkDiagram
          (generateNodes initialState initialWhere acceptingStatesArray grid)
          (runPairs transitionsObj grid symbolsStyle
             (replicate (length statesArray) (replicate (length statesArray) ""))
             (statePairs statesArray)).2).
Proof. unfold generateFrom. by rewrite generateEdges_Ok. Qed.

(** C7 (as stated, refuted): the records [q1,0,q2] and [q1,0,1,q2] give
    the edge from q1 to q2 the label [0, 0, 1], in which the symbol 0 is
    written twice. *)
Lemma label_repeats_symbol :
  checkTransition (createTransitions "q1,0,q2; q1,0,1,q2") "q1" "q2" = Some ["0"; "0"; "1"]
  ∧ ¬ NoDup ["0"; "0"; "1"]
  ∧ generate "q1, q2" "q1" "q2" "q1,0,q2; q1,0,1,q2" "left" "accepting by double" "roman"
    = Ok (mkDiagram
            [mkNode "q1" ", initial left" Unanchored;
             mkNode "q2" ", accepting" (RightOf "q1")]
            [StraightEdge "q1" "q2" "0, 0, 1"]).
Proof.
  split; [by vm_compute|]. split; [|by vm_compute].
  intros [Hin _]%NoDup_cons. apply Hin. by left.
Qed.

(** C7 (amended): the generator returns, and the label of every line it
    emits between [a] and [b], loop, straight or bent, is the list that
    [checkTransition] gives for [a] and [b], each symbol formatted in the
    selected style and the results joined by a comma and a space. That list
    is in ascending order and is a rearrangement of the symbols obtained by
    splitting at the commas every symbol key of [a] whose destinations
    include [b]; a symbol that two such keys share stays in it twice. *)
Theorem generateFrom_labels statesArray initialState acceptingStatesArray transitionsObj
    initialWhere acceptingBy symbolsStyle :
  ∃ d, generateFrom statesArray initialState acceptingStatesArray transitionsObj
         initialWhere acceptingBy symbolsStyle = Ok d
       ∧ ∀ e, e ∈ edges d →
           ∃ symbols,
             checkTransition transitionsObj (edgeFrom e) (edgeTo e) = Some symbols
             ∧ edgeLabel e
               = String.concat ", " ((fun s => formatSymbol s symbolsStyle) <$> symbols)
             ∧ Sorted stringLe symbols
             ∧ symbols ≡ₚ
               keysBetween transitionsObj (edgeFrom e) (edgeTo e) ≫= splitBy isComma.
Proof.
  eexists. split; [apply generateFrom_Ok|]. simpl.
  intros e (bda0 & [[i a] [j b]] & _ & He)%runPairs_edge.
  apply routeOutcome_edge in He as (-> & -> & (symbols & Hsym & Hlabel) & _).
  exists symbols. split; [done|]. split; [done|].
  by apply checkTransition_Some.
Qed.

(** C8 (as stated, refuted): for the single state q1 with the records
    [q1,0,1,q1] the grid is [[q1]] and one loop is emitted, with the
    symbols 0 and 1 in its label, but on the side [above], not [below]. *)
Lemma single_state_loop_above :
  findOptimalStatePlacement ["q1"] "q1" ["q1"] (createTransitions "q1,0,1,q1") false
  = [[Some "q1"]]
  ∧ generate "q1" "q1" "q1" "q1,0,1,q1" "left" "accepting by double" "mono"
    = Ok (mkDiagram [mkNode "q1" ", initial left, accepting" Unanchored]
                    [LoopEdge "q1" "above" "\texttt{0}, \texttt{1}"])
  ∧ generate "q1" "q1" "q1" "q1,0,1,q1" "left" "accepting by double" "mono"
    ≠ Ok (mkDiagram [mkNode "q1" ", initial left, accepting" Unanchored]
                    [LoopEdge "q1" "below" "\texttt{0}, \texttt{1}"])
  ∧ getEdge [[Some "q1"]] "q1" = Ok (Some "above").
Proof. vm_compute. done. Qed.

(** C8 (amended): for states = [q1], initial = q1, accepting = [q1] and
    transitions = [q1,0,1,q1], whatever the style parameters, the winning
    grid is [[q1]] and exactly one line is emitted: a loop at q1 on the side
    [above], the first free side in the order above, below, left, right
    (the cell is in row 0), labelled with the sorted symbols 0 and 1, each
    formatted and joined by a comma and a space. *)
Theorem single_state_scenario initialWhere acceptingBy symbolsStyle :
  findOptimalStatePlacement ["q1"] "q1" ["q1"] (createTransitions "q1,0,1,q1")
    (bool_decide (acceptingBy = "accepting by arrow"))
  = [[Some "q1"]]
  ∧ generate "q1" "q1" "q1" "q1,0,1,q1" initialWhere acceptingBy symbolsStyle
    = Ok (mkDiagram
            [mkNode "q1" (stateTypeOf "q1" initialWhere ["q1"] "q1") Unanchored]
            [LoopEdge "q1" "above" (labelOf symbolsStyle ["0"; "1"])]).
Proof.
  unfold generate, generateFrom.
  assert (∀ flag, findOptimalStatePlacement ["q1"] "q1" ["q1"]
                    (createTransitions "q1,0,1,q1") flag = [[Some "q1"]]) as Hgrid.
  { intros [|]; vm_compute; done. }
  split; [apply Hgrid|].
  replace (List.filter _ _) with ["q1"] by (vm_compute; done).
  replace (trim <$> splitBy isComma "q1") with ["q1"] by (vm_compute; done).
  rewrite Hgrid. vm_compute. done.
Qed.

(** ** The array of bend directions *)

Lemma bendEntry_setBendEntry_ne (bda : list (list string)) (i j x y : nat) (v : string) :
  (x, y) ≠ (i, j) → bendEntry (setBendEntry bda i j v) x y = bendEntry bda x y.
Proof.
  intros Hne. unfold bendEntry, setBendEntry.
  destruct (decide (x = i)) as [->|Hx].
  - rewrite list_lookup_alter_eq. destruct (bda !! i) as [row|]; [|done]. simpl.
    rewrite list_lookup_insert_ne by congruence. done.
  - by rewrite list_lookup_alter_ne.
Qed.

Lemma bendEntry_setBendEntry_eq (n : nat) (bda : list (list string)) (i j : nat)
    (v : string) :
  rectangular n n bda → i < n → j < n → bendEntry (setBendEntry bda i j v) i j = v.
Proof.
  intros [Hlen Hrows] Hi Hj. unfold bendEntry, setBendEntry.
  rewrite list_lookup_alter_eq.
  destruct (lookup_lt_is_Some_2 bda i) as [row Hrow]; [lia|]. rewrite Hrow. simpl.
  rewrite list_lookup_insert_eq; [done|].
  eapply Forall_forall in Hrows; [|by eapply list_elem_of_lookup_2]. simpl in Hrows. lia.
Qed.

Lemma bendEntry_setBendEntry (bda : list (list string)) (i j x y : nat) (v : string) :
  bendEntry (setBendEntry bda i j v) x y = v
  ∨ bendEntry (setBendEntry bda i j v) x y = bendEntry bda x y.
Proof.
  destruct (decide ((x, y) = (i, j))) as [[= -> ->]|Hne];
    [|right; by apply bendEntry_setBendEntry_ne].
  unfold bendEntry, setBendEntry. rewrite list_lookup_alter_eq.
  destruct (bda !! i) as [row|]; [|by right]. simpl.
  destruct (decide (j < length row)).
  - left. by rewrite list_lookup_insert_eq.
  - right. by rewrite list_insert_ge by lia.
Qed.

Lemma setBendEntry_rectangular (n : nat) (bda : list (list string)) (i j : nat)
    (v : string) :
  rectangular n n bda → rectangular n n (setBendEntry bda i j v).
Proof.
  intros [Hlen Hrows]. split; unfold setBendEntry.
  - by rewrite length_alter.
  - apply Forall_alter; [done|]. intros r _ Hr. by rewrite length_insert.
Qed.

(** ** The edge loop on an empty grid *)

Section gridless.
Variables (transitionsObj : Transitions) (symbolsStyle : string).

Lemma routeOutcome_gridless (bda : list (list string)) (p : nat * string * (nat * string)) :
  leftOnly bda →
  (routeOutcome transitionsObj [] symbolsStyle bda p).2
  = gridlessEdge transitionsObj symbolsStyle p
  ∧ leftOnly (routeOutcome transitionsObj [] symbolsStyle bda p).1.
Proof.
  intros Hbda. destruct p as [[i a] [j b]].
  pose proof (routeOutcome_cases transitionsObj [] symbolsStyle bda i j a b) as Hcases.
  unfold gridlessEdge. simpl.
  destruct (checkTransition transitionsObj a b) as [symbols|]; simpl in Hcases;
    [|by rewrite Hcases].
  case_bool_decide.
  - destruct Hcases as (side & Hside & ->). by injection Hside as <-.
  - unfold drawnStraight in Hcases. simpl in Hcases.
    case_bool_decide; [by rewrite Hcases|].
    destruct Hcases as (d & Hd & _ & ->). injection Hd as <-. simpl.
    assert ((if bool_decide (bendEntry bda i j = "") then "left" else bendEntry bda i j)
            = "left") as ->.
    { case_bool_decide; [done|]. by destruct (Hbda i j). }
    split; [done|]. intros x y.
    destruct (bendEntry_setBendEntry (setBendEntry bda i j "left") j i x y "left")
      as [->| ->]; [by right|].
    destruct (bendEntry_setBendEntry bda i j x y "left") as [->| ->]; [by right|].
    apply Hbda.
Qed.

Lemma runPairs_gridless (bda : list (list string))
    (ps : list (nat * string * (nat * string))) :
  leftOnly bda →
  (runPairs transitionsObj [] symbolsStyle bda ps).2
  = ps ≫= gridlessEdge transitionsObj symbolsStyle.
Proof.
  revert bda. induction ps as [|p ps IH]; intros bda Hbda; [done|].
  destruct (routeOutcome_gridless bda p Hbda) as [Hout Hnext].
  csimpl. by rewrite Hout, IH.
Qed.

End gridless.

Lemma leftOnly_replicate (n : nat) : leftOnly (replicate n (replicate n "")).
Proof.
  intros x y. left. unfold bendEntry.
  destruct (replicate n (replicate n "") !! x) as [row|] eqn:Hrow; [|done].
  apply lookup_replicate in Hrow as [-> _]. simpl.
  destruct (replicate n "" !! y) as [v|] eqn:Hv; [|done].
  by apply lookup_replicate in Hv as [-> _].
Qed.

(** C10: when the layout search returns an empty grid, the generator
    returns without an error, emits no node declaration, and emits for every
    ordered pair of listed states with a transition one line: a loop on the
    side [below] for a state with a transition to itself, and for two
    different states a straight edge if they are connected one way only and
    an edge bent left, labelled below, if they are connected both ways. *)
Theorem generateFrom_empty_grid statesArray initialState acceptingStatesArray transitionsObj
    initialWhere acceptingBy symbolsStyle :
  findOptimalStatePlacement statesArray initialState acceptingStatesArray transitionsObj
    (bool_decide (acceptingBy = "accepting by arrow")) = [] →
  generateFrom statesArray initialState acceptingStatesArray transitionsObj
    initialWhere acceptingBy symbolsStyle
  = Ok (mkDiagram [] (statePairs statesArray ≫= gridlessEdge transitionsObj symbolsStyle)).
Proof.
  intros Hgrid. rewrite generateFrom_Ok. simpl. rewrite Hgrid.
  rewrite runPairs_gridless by apply leftOnly_replicate. done.
Qed.

Lemma generateFrom_empty_grid_witness :
  generateFrom ["q1"; "q2"] "q0" ["q2"]
    (createTransitions "q1,a,q1; q1,b,q2; q2,b,q1") "left" "accepting by double" "roman"
  = Ok (mkDiagram []
          (statePairs ["q1"; "q2"]
             ≫= gridlessEdge (createTransitions "q1,a,q1; q1,b,q2; q2,b,q1") "roman")).
Proof.
  apply (generateFrom_empty_grid ["q1"; "q2"] "q0" ["q2"]
           (createTransitions "q1,a,q1; q1,b,q2; q2,b,q1")
           "left" "accepting by double" "roman").
  vm_compute. reflexivity.
Defined.

Example generate_without_initial_state :
  generate "q1, q2" "q0" "q2" "q1,a,q1; q1,b,q2; q2,b,q1" "left" "accepting by double" "roman"
  = Ok (mkDiagram []
          [LoopEdge "q1" "below" "a";
           BentEdge "q1" "q2" "left" "below" "b";
           BentEdge "q2" "q1" "left" "below" "b"]).
Proof. vm_compute. reflexivity. Qed.

(** ** Straight edges and the cells between two states *)

Lemma gridCell_rectangular rows cols (grid : Grid) (p : nat * nat) (cell : Cell) :
  rectangular rows cols grid → gridCell grid p = Some cell → p.1 < rows ∧ p.2 < cols.
Proof.
  intros [Hlen Hrows]. unfold gridCell.
  destruct (grid !! p.1) as [row|] eqn:Hrow; [|done]. simpl. intros Hcell.
  split.
  - apply lookup_lt_Some in Hrow. lia.
  - eapply Forall_forall in Hrows; [|by eapply list_elem_of_lookup_2]. simpl in Hrows.
    apply lookup_lt_Some in Hcell. lia.
Qed.

Lemma fullButLast_nil : fullButLast 0 0 ([] : Grid).
Proof. split; [by split|]. by intros [i j]. Qed.

Lemma fullButLast_candidate states rows cols perm :
  (rows, cols, perm) ∈ candidates states →
  fullButLast rows cols (candidateGrid (rows, cols, perm)).
Proof.
  intros (_ & Hrows & Hcols & Hlen & Hmax & _)%candidate_fits.
  pose proof (placeStates_spec rows cols perm Hlen) as Hspec.
  pose proof (placeStates_lookup rows cols perm) as Hlookup.
  unfold candidateGrid. simpl.
  destruct (placeStates rows cols perm) as [grid pos]. simpl in *.
  destruct Hspec as (Hrect & _ & _). split; [done|].
  intros [i j] Hnone.
  destruct (gridCell_rectangular rows cols grid (i, j) None Hrect Hnone) as [Hi Hj].
  unfold gridCell in Hnone. simpl in *.
  destruct (grid !! i) as [row|] eqn:Hrow; [|done]. simpl in Hnone.
  rewrite (Hlookup i j row Hlen Hj Hrow) in Hnone.
  destruct (decide (i * cols + j < length perm)) as [Hlt|Hge].
  - rewrite lookup_app_l in Hnone by (by rewrite length_fmap).
    rewrite list_lookup_fmap in Hnone.
    destruct (perm !! (i * cols + j)); done.
  - assert (i * cols + j < rows * cols) by nia.
    f_equal; nia.
Qed.

(** the only cell that may be empty is never between two cells *)
Lemma onSegment_last_cell rows cols (p1 p2 : nat * nat) :
  p1.1 < rows → p1.2 < cols → p2.1 < rows → p2.2 < cols →
  onSegment p1 p2 (rows - 1, cols - 1) = true →
  (rows - 1, cols - 1) = p1 ∨ (rows - 1, cols - 1) = p2.
Proof.
  destruct p1 as [x1 y1], p2 as [x2 y2]. simpl. intros Hx1 Hy1 Hx2 Hy2.
  unfold onSegment. simpl.
  intros [Hline Hbox]%andb_prop.
  apply bool_decide_eq_true in Hline. apply bool_decide_eq_true in Hbox.
  destruct Hbox as (_ & Hx & _ & Hy).
  assert (x1 = rows - 1 ∨ x2 = rows - 1) as Hxs by lia.
  assert (y1 = cols - 1 ∨ y2 = cols - 1) as Hys by lia.
  destruct Hxs as [->| ->], Hys as [->| ->]; auto.
  - assert ((Z.of_nat x2 - Z.of_nat (rows - 1)) * (Z.of_nat (cols - 1) - Z.of_nat y1) = 0)%Z
      as [?|?]%Z.mul_eq_0 by lia; [right|left]; f_equal; lia.
  - assert ((Z.of_nat y2 - Z.of_nat (cols - 1)) * (Z.of_nat (rows - 1) - Z.of_nat x1) = 0)%Z
      as [?|?]%Z.mul_eq_0 by lia; [right|left]; f_equal; lia.
Qed.

Lemma doesLineCrossOtherElements_occupied rows cols (grid : Grid) (e1 e2 : string) :
  fullButLast rows cols grid →
  doesLineCrossOtherElements grid e1 e2 = true ↔ occupiedBetween grid e1 e2.
Proof.
  intros [Hrect Hfull]. unfold doesLineCrossOtherElements, occupiedBetween. split.
  - destruct (findPosition grid e1) as [p1|] eqn:Hp1; [|done].
    destruct (findPosition grid e2) as [p2|] eqn:Hp2; [|done].
    intros ([[i j] cell] & Hin & Hc)%existsb_exists. simpl in Hc.
    apply andb_prop in Hc as [Hne%negb_true_iff%bool_decide_eq_false Hseg].
    apply list_elem_of_In, elem_of_cellsWithIndex in Hin.
    destruct cell as [s|].
    + exists p1, p2, (i, j), s. naive_solver.
    + apply Hfull in Hin as Hlast. rewrite Hlast in Hseg, Hne.
      apply findPosition_Some, (gridCell_rectangular rows cols) in Hp1 as [? ?]; [|done].
      apply findPosition_Some, (gridCell_rectangular rows cols) in Hp2 as [? ?]; [|done].
      apply (onSegment_last_cell rows cols) in Hseg; [|done..]. tauto.
  - intros (p1 & p2 & [i j] & s & -> & -> & Hcell & Hne1 & Hne2 & Hseg).
    apply existsb_exists. exists (i, j, Some s). split.
    + by apply list_elem_of_In, elem_of_cellsWithIndex.
    + simpl. rewrite Hseg, bool_decide_eq_false_2 by tauto. done.
Qed.

Lemma findOptimalStatePlacement_fullButLast
    states initState acceptingStates transitions accToRight :
  ∃ rows cols,
    fullButLast rows cols
      (findOptimalStatePlacement states initState acceptingStates transitions accToRight).
Proof.
  destruct (findOptimalStatePlacement_cases states initState acceptingStates
              transitions accToRight) as [[-> _]|([[rows cols] perm] & Hc & _ & -> & _)].
  - exists 0, 0. apply fullButLast_nil.
  - exists rows, cols. by apply (fullButLast_candidate states).
Qed.

(** C4: the generator returns, emits a line for every ordered pair of
    different listed states with a transition from the first to the second,
    and every line between two different states is a straight edge, written
    with the option [above], if and only if the two states are connected one
    way only and no state sits in a cell other than theirs on the segment
    between their cells; otherwise it is a bent edge. An empty cell on the
    segment therefore never decides. *)
Theorem generateFrom_straight_edges
    statesArray initialState acceptingStatesArray transitionsObj
    initialWhere acceptingBy symbolsStyle :
  let grid :=
    findOptimalStatePlacement statesArray initialState acceptingStatesArray transitionsObj
      (bool_decide (acceptingBy = "accepting by arrow")) in
  ∃ d, generateFrom statesArray initialState acceptingStatesArray transitionsObj
         initialWhere acceptingBy symbolsStyle = Ok d
       ∧ (∀ a b, a ∈ statesArray → b ∈ statesArray → a ≠ b →
                 is_Some (checkTransition transitionsObj a b) →
                 ∃ e, e ∈ edges d ∧ edgeFrom e = a ∧ edgeTo e = b)
       ∧ ∀ e, e ∈ edges d → edgeFrom e ≠ edgeTo e →
           (isStraight e = true ↔
              checkConnection transitionsObj (edgeFrom e) (edgeTo e) = 1
              ∧ ¬ occupiedBetween grid (edgeFrom e) (edgeTo e))
           ∧ (isStraight e = true →
              renderEdge e
              = "    \draw (" +:+ dropBackslash (edgeFrom e)
                +:+ ") edge [above, ->] node[auto]{" +:+ edgeLabel e
                +:+ "} (" +:+ dropBackslash (edgeTo e) +:+ ");" +:+ newline)
           ∧ (isStraight e = false → isBent e = true).
Proof.
  intros grid. eexists. split; [apply generateFrom_Ok|]. simpl. fold grid.
  split.
  - intros a b [i Hi]%list_elem_of_lookup_1 [j Hj]%list_elem_of_lookup_1 Hab Hsome.
    assert ((i, a, (j, b)) ∈ statePairs statesArray) as Hp by by apply elem_of_statePairs.
    eapply runPairs_pair in Hp as [bda0 Hsub].
    destruct (routeOutcome_one transitionsObj grid symbolsStyle bda0 i j a b Hsome)
      as [e He].
    exists e. split.
    + apply Hsub. rewrite He. by left.
    + assert (e ∈ (routeOutcome transitionsObj grid symbolsStyle bda0 (i, a, (j, b))).2)
        as Hin by (rewrite He; by left).
      apply routeOutcome_edge in Hin. tauto.
  - intros e (bda0 & [[i a] [j b]] & _ & He)%runPairs_edge.
    apply routeOutcome_edge in He as (Hfrom & Hto & _ & Hloop & Hstraight).
    rewrite <- Hfrom, <- Hto in Hloop, Hstraight. clear Hfrom Hto.
    intros Hne. rewrite bool_decide_eq_false_2 in Hloop, Hstraight by done.
    simpl in Hstraight. unfold drawnStraight in Hstraight.
    destruct (findOptimalStatePlacement_fullButLast statesArray initialState
                acceptingStatesArray transitionsObj
                (bool_decide (acceptingBy = "accepting by arrow")))
      as (rows & cols & Hfull).
    pose proof (doesLineCrossOtherElements_occupied rows cols grid
                  (edgeFrom e) (edgeTo e) Hfull) as Hcross.
    split; [|split].
    + rewrite Hstraight, andb_true_iff, negb_true_iff, bool_decide_eq_true. split.
      * intros [Hx Hconn]. split; [done|]. intros Hocc%Hcross. congruence.
      * intros [Hconn Hocc]. split; [|done].
        apply not_true_is_false. intros Hx%Hcross. done.
    + by destruct e.
    + by destruct e.
Qed.

(** the scan itself does not ask whether a cell on the segment is occupied;
    the grids of the search have no empty cell between two states, which is
    what [doesLineCrossOtherElements_occupied] uses *)
Example doesLineCrossOtherElements_empty_cell :
  doesLineCrossOtherElements [[Some "a"; None; Some "b"]] "a" "b" = true.
Proof. reflexivity. Qed.

(** ** Bend directions of both directions of a pair *)

Lemma bendEntry_setBendEntry_both (n : nat) (bda : list (list string))
    (i j x y : nat) (v : string) :
  rectangular n n bda → i < n → j < n →
  bendEntry (setBendEntry (setBendEntry bda i j v) j i v) x y
  = if bool_decide ((x, y) = (i, j) ∨ (x, y) = (j, i)) then v else bendEntry bda x y.
Proof.
  intros Hrect Hi Hj.
  destruct (decide ((x, y) = (j, i))) as [[= -> ->]|Hne1].
  - rewrite bool_decide_eq_true_2 by tauto.
    apply (bendEntry_setBendEntry_eq n); [by apply setBendEntry_rectangular|done..].
  - rewrite bendEntry_setBendEntry_ne by done.
    destruct (decide ((x, y) = (i, j))) as [[= -> ->]|Hne2].
    + rewrite bool_decide_eq_true_2 by tauto. by apply (bendEntry_setBendEntry_eq n).
    + rewrite bendEntry_setBendEntry_ne by done.
      by rewrite bool_decide_eq_false_2 by tauto.
Qed.

Lemma mirrored_replicate (n : nat) : mirrored n (replicate n (replicate n "")).
Proof.
  assert (∀ x y, bendEntry (replicate n (replicate n "")) x y = "") as Hempty.
  { intros x y. unfold bendEntry.
    destruct (replicate n (replicate n "") !! x) as [row|] eqn:Hrow; [|done].
    apply lookup_replicate in Hrow as [-> _]. simpl.
    destruct (replicate n "" !! y) as [v|] eqn:Hv; [|done].
    by apply lookup_replicate in Hv as [-> _]. }
  split; [|split].
  - split; [apply length_replicate|]. apply Forall_replicate, length_replicate.
  - intros x y _ _. by rewrite !Hempty.
  - intros x y. left. apply Hempty.
Qed.

Section bends.
Variables (transitionsObj : Transitions) (grid : Grid) (symbolsStyle : string).
Variable n : nat.

Local Abbreviation outcome := (routeOutcome transitionsObj grid symbolsStyle).
Local Abbreviation run := (runPairs transitionsObj grid symbolsStyle).

(** one pair keeps the array mirrored, changes no entry that is set, and
    leaves the direction of a bent edge it draws in the entry of the pair *)
Lemma routeOutcome_mirrored (bda : list (list string)) (i j : nat) (a b : string) :
  mirrored n bda → i < n → j < n →
  mirrored n (outcome bda (i, a, (j, b))).1
  ∧ (∀ x y, x < n → y < n → bendEntry bda x y ≠ "" →
            bendEntry (outcome bda (i, a, (j, b))).1 x y = bendEntry bda x y)
  ∧ (∀ e, e ∈ (outcome bda (i, a, (j, b))).2 → isBent e = true →
          bendEntry (outcome bda (i, a, (j, b))).1 i j = bendOf e ∧ bendOf e ≠ "").
Proof.
  intros Hbda Hi Hj. pose proof Hbda as (Hrect & Hsym & Hdirs).
  pose proof (routeOutcome_cases transitionsObj grid symbolsStyle bda i j a b) as Hcases.
  destruct (checkTransition transitionsObj a b) as [symbols|]; simpl in Hcases.
  2:{ rewrite Hcases. simpl. split; [done|]. split; [done|]. by intros e ?%elem_of_nil. }
  case_bool_decide.
  { destruct Hcases as (side & _ & ->). simpl. split; [done|]. split; [done|].
    by intros e ->%list_elem_of_singleton. }
  destruct (drawnStraight transitionsObj grid a b).
  { rewrite Hcases. simpl. split; [done|]. split; [done|].
    by intros e ->%list_elem_of_singleton. }
  destruct Hcases as (d & _ & Hlr & ->). simpl.
  set (bD := if bool_decide (bendEntry bda i j = "") then d.1 else bendEntry bda i j).
  assert (bD ≠ "") as HbD.
  { unfold bD. case_bool_decide; [|done]. by destruct Hlr as [-> | ->]. }
  assert (bD = "left" ∨ bD = "right") as HbDlr.
  { unfold bD. case_bool_decide; [done|]. destruct (Hdirs i j); tauto. }
  assert (bendEntry bda i j ≠ "" → bD = bendEntry bda i j) as Hkeep.
  { intros Hset. unfold bD. by rewrite bool_decide_eq_false_2. }
  pose proof (fun x y => bendEntry_setBendEntry_both n bda i j x y bD Hrect Hi Hj) as Hnew.
  split; [split; [|split]|split].
  - by do 2 apply setBendEntry_rectangular.
  - intros x y Hx Hy. rewrite !Hnew.
    rewrite (bool_decide_ext ((y, x) = (i, j) ∨ (y, x) = (j, i))
                             ((x, y) = (i, j) ∨ (x, y) = (j, i)))
      by (split; intros [[= -> ->]|[= -> ->]]; auto).
    case_bool_decide; [done|]. by apply Hsym.
  - intros x y. rewrite Hnew. case_bool_decide; [tauto|]. apply Hdirs.
  - intros x y Hx Hy Hset. rewrite Hnew. case_bool_decide as Hxy; [|done].
    destruct Hxy as [[= -> ->]|[= -> ->]]; [by apply Hkeep|].
    rewrite (Hsym j i) in Hset |- * by done. by apply Hkeep.
  - intros e ->%list_elem_of_singleton _. simpl. split; [|done].
    rewrite Hnew. by rewrite bool_decide_eq_true_2 by tauto.
Qed.

(** the whole loop: the final array is mirrored and holds, for every bent
    edge drawn, its direction in the entry of its pair of indices *)
Lemma runPairs_mirrored (bda : list (list string))
    (ps : list (nat * string * (nat * string))) :
  mirrored n bda →
  Forall (fun p : nat * string * (nat * string) => p.1.1 < n ∧ p.2.1 < n) ps →
  mirrored n (run bda ps).1
  ∧ (∀ x y, x < n → y < n → bendEntry bda x y ≠ "" →
            bendEntry (run bda ps).1 x y = bendEntry bda x y)
  ∧ (∀ e, e ∈ (run bda ps).2 → isBent e = true →
          ∃ i j a b, (i, a, (j, b)) ∈ ps ∧ edgeFrom e = a ∧ edgeTo e = b
                     ∧ bendEntry (run bda ps).1 i j = bendOf e ∧ bendOf e ≠ "").
Proof.
  intros Hbda Hps. revert bda Hbda.
  induction Hps as [|[[i a] [j b]] ps [Hi Hj] _ IH]; intros bda Hbda; simpl in *.
  { split; [done|]. split; [done|]. by intros e ?%elem_of_nil. }
  destruct (routeOutcome_mirrored bda i j a b Hbda Hi Hj) as (Hnext & Hkeep1 & Hbent1).
  destruct (IH _ Hnext) as (Hfinal & Hkeep2 & Hbent2).
  split; [done|]. split.
  - intros x y Hx Hy Hset. rewrite Hkeep2 by (rewrite ?Hkeep1; done).
    by apply Hkeep1.
  - intros e [He|He]%elem_of_app Hb.
    + destruct (Hbent1 e He Hb) as [Hentry Hne].
      apply routeOutcome_edge in He as (Hfrom & Hto & _).
      exists i, j, a, b. split; [left|]. split; [done|]. split; [done|].
      rewrite Hkeep2 by (rewrite ?Hentry; done). done.
    + destruct (Hbent2 e He Hb) as (i' & j' & a' & b' & Hin & ? & ? & ? & ?).
      exists i', j', a', b'. split; [by right|done].
Qed.

End bends.

Lemma checkConnection_mutual (transitionsObj : Transitions) (a b : string) :
  hasTransition transitionsObj a b = true → hasTransition transitionsObj b a = true →
  checkConnection transitionsObj a b = 2.
Proof. intros Hab Hba. unfold checkConnection. by rewrite Hab, Hba. Qed.

Lemma statePairs_indices (statesArray : list string) :
  Forall (fun p : nat * string * (nat * string) =>
            p.1.1 < length statesArray ∧ p.2.1 < length statesArray)
         (statePairs statesArray).
Proof.
  apply Forall_forall. intros [[i a] [j b]] [Hi Hj]%elem_of_statePairs.
  split; by eapply lookup_lt_Some.
Qed.

(** C6 (as stated, refuted): for the two states q1 and q2 with a transition
    in each direction both lines are bent with the same direction [left],
    although [bendDirection] alone gives [right] for the second one. *)
Lemma mutual_pair_both_bend_left :
  generate "q1, q2" "q1" "q2" "q1,0,q2; q2,0,q1" "left" "accepting by double" "roman"
  = Ok (mkDiagram
          [mkNode "q1" ", initial left" Unanchored;
           mkNode "q2" ", accepting" (RightOf "q1")]
          [BentEdge "q1" "q2" "left" "above" "0";
           BentEdge "q2" "q1" "left" "above" "0"])
  ∧ bendOf (BentEdge "q1" "q2" "left" "above" "0")
    = bendOf (BentEdge "q2" "q1" "left" "above" "0")
  ∧ bendDirection "q2" "q1" [[Some "q1"; Some "q2"]] = Ok ("right", "above").
Proof. vm_compute. done. Qed.

(** C6 (amended): for two different states of a state list without
    repeats that have transitions in both directions, the generator emits a
    line in each direction, every line between the two is a bent edge, and
    all of them carry the same bend direction, [left] or [right]: the
    second line reuses the direction stored for the first, which in the
    diagram puts the two arcs on opposite sides. *)
Theorem mutual_pair_same_bend
    statesArray initialState acceptingStatesArray transitionsObj
    initialWhere acceptingBy symbolsStyle a b :
  NoDup statesArray → a ∈ statesArray → b ∈ statesArray → a ≠ b →
  hasTransition transitionsObj a b = true →
  hasTransition transitionsObj b a = true →
  ∃ d bD,
    generateFrom statesArray initialState acceptingStatesArray transitionsObj
      initialWhere acceptingBy symbolsStyle = Ok d
    ∧ (bD = "left" ∨ bD = "right")
    ∧ (∃ e, e ∈ edges d ∧ edgeFrom e = a ∧ edgeTo e = b)
    ∧ (∃ e, e ∈ edges d ∧ edgeFrom e = b ∧ edgeTo e = a)
    ∧ ∀ e, e ∈ edges d →
        (edgeFrom e = a ∧ edgeTo e = b) ∨ (edgeFrom e = b ∧ edgeTo e = a) →
        isBent e = true ∧ bendOf e = bD.
Proof.
  intros Hnodup [i Hi]%list_elem_of_lookup_1 [j Hj]%list_elem_of_lookup_1 Hab Htab Htba.
  set (grid := findOptimalStatePlacement statesArray initialState acceptingStatesArray
                 transitionsObj (bool_decide (acceptingBy = "accepting by arrow"))).
  set (n := length statesArray).
  set (bda0 := replicate n (replicate n "")).
  destruct (runPairs_mirrored transitionsObj grid symbolsStyle n bda0
              (statePairs statesArray) (mirrored_replicate n)
              (statePairs_indices statesArray)) as ((Hrect & Hsym & Hdirs) & _ & Hbent).
  set (final := runPairs transitionsObj grid symbolsStyle bda0 (statePairs statesArray))
    in *.
  assert (i < n ∧ j < n) as [Hin Hjn] by (split; by eapply lookup_lt_Some).
  (* every line between the two states is bent *)
  assert (∀ e, e ∈ final.2 →
            (edgeFrom e = a ∧ edgeTo e = b) ∨ (edgeFrom e = b ∧ edgeTo e = a) →
            isBent e = true) as Hisbent.
  { intros e (bdae & [[i' a'] [j' b']] & _ & He)%runPairs_edge Hends.
    apply routeOutcome_edge in He as (Hfrom & Hto & _ & Hloop & Hstraight).
    assert (a' ≠ b') as Hne by (destruct Hends as [[? ?]|[? ?]]; congruence).
    assert (checkConnection transitionsObj a' b' = 2) as Hconn.
    { destruct Hends as [[? ?]|[? ?]]; simplify_eq; by apply checkConnection_mutual. }
    unfold drawnStraight in Hstraight.
    rewrite Hconn, bool_decide_eq_false_2 in Hstraight by done.
    rewrite bool_decide_eq_false_2 in Hloop by done.
    rewrite andb_false_r in Hstraight. by destruct e. }
  (* and its direction is the entry of the pair in the final array *)
  assert (∀ e, e ∈ final.2 →
            (edgeFrom e = a ∧ edgeTo e = b) ∨ (edgeFrom e = b ∧ edgeTo e = a) →
            bendOf e = bendEntry final.1 i j ∧ bendOf e ≠ "") as Hdir.
  { intros e He Hends.
    destruct (Hbent e He (Hisbent e He Hends))
      as (i' & j' & a' & b' & [Hi' Hj']%elem_of_statePairs & Hfrom & Hto & Hentry & Hset).
    split; [|done]. rewrite <- Hentry.
    destruct Hends as [[? ?]|[? ?]]; simplify_eq.
    - by rewrite (NoDup_lookup _ _ _ _ Hnodup Hi' Hi), (NoDup_lookup _ _ _ _ Hnodup Hj' Hj).
    - rewrite (NoDup_lookup _ _ _ _ Hnodup Hi' Hj), (NoDup_lookup _ _ _ _ Hnodup Hj' Hi).
      by apply Hsym.
  }
  (* a line in each direction *)
  assert (∀ i j a b, statesArray !! i = Some a → statesArray !! j = Some b →
            hasTransition transitionsObj a b = true →
            ∃ e, e ∈ final.2 ∧ edgeFrom e = a ∧ edgeTo e = b) as Hline.
  { intros i0 j0 a0 b0 Hi0 Hj0 Ht%bool_decide_eq_true.
    assert ((i0, a0, (j0, b0)) ∈ statePairs statesArray) as Hp
      by by apply elem_of_statePairs.
    eapply runPairs_pair in Hp as [bdae Hsub].
    destruct (routeOutcome_one transitionsObj grid symbolsStyle bdae i0 j0 a0 b0 Ht)
      as [e He].
    assert (e ∈ (routeOutcome transitionsObj grid symbolsStyle bdae (i0, a0, (j0, b0))).2)
      as Hine by (rewrite He; by left).
    exists e. split; [by apply Hsub|].
    apply routeOutcome_edge in Hine. tauto. }
  destruct (Hline i j a b Hi Hj Htab) as (eab & Heab & Hfab & Htoab).
  destruct (Hline j i b a Hj Hi Htba) as (eba & Heba & Hfba & Htoba).
  exists (mkDiagram
            (generateNodes initialState initialWhere acceptingStatesArray grid) final.2),
         (bendEntry final.1 i j).
  split; [apply generateFrom_Ok|]. simpl.
  split.
  { destruct (Hdir eab Heab) as [Heq Hne]; [tauto|].
    rewrite <- Heq. destruct (Hdirs i j) as [H0|H0]; [|by rewrite Heq].
    rewrite <- Heq in H0. done. }
  split; [by exists eab|]. split; [by exists eba|].
  intros e He Hends. split; [by apply Hisbent|]. by apply Hdir.
Qed.

Lemma mutual_pair_same_bend_witness :
  ∃ d bD,
    generateFrom ["q1"; "q2"; "q3"] "q1" ["q3"]
      (createTransitions "q1,0,q2; q2,0,q1; q2,1,q3") "left" "accepting by arrow" "mono"
    = Ok d
    ∧ (bD = "left" ∨ bD = "right")
    ∧ (∃ e, e ∈ edges d ∧ edgeFrom e = "q2" ∧ edgeTo e = "q1")
    ∧ (∃ e, e ∈ edges d ∧ edgeFrom e = "q1" ∧ edgeTo e = "q2")
    ∧ ∀ e, e ∈ edges d →
        (edgeFrom e = "q2" ∧ edgeTo e = "q1") ∨ (edgeFrom e = "q1" ∧ edgeTo e = "q2") →
        isBent e = true ∧ bendOf e = bD.
Proof.
  apply (mutual_pair_same_bend ["q1"; "q2"; "q3"] "q1" ["q3"]
           (createTransitions "q1,0,q2; q2,0,q1; q2,1,q3")
           "left" "accepting by arrow" "mono" "q2" "q1").
  - compute_done.
  - compute_done.
  - compute_done.
  - discriminate.
  - vm_compute. reflexivity.
  - vm_compute. reflexivity.
Defined.

(** ** Repeated identifiers *)

(** a state that the list names twice is placed twice *)
Example findOptimalStatePlacement_repeated_state :
  findOptimalStatePlacement ["q1"; "q1"] "q1" [] [] false = [[Some "q1"; Some "q1"]]
  ∧ cellsHolding [[Some "q1"; Some "q1"]] "q1" = [(0, 0); (0, 1)].
Proof. vm_compute. done. Qed.

(** and the array of bend directions, which is indexed by position in the
    list, then holds two entries for one pair of states: the lines between
    [a] and [b] are drawn twice, once with each direction *)
Example generate_repeated_state :
  generate "a, b, a" "a" "b" "a,0,b; b,0,a" "left" "accepting by double" "roman"
  = Ok (mkDiagram
          [mkNode "a" ", initial left" Unanchored;
           mkNode "b" ", accepting" (RightOf "a");
           mkNode "a" ", initial left" (RightOf "b")]
          [BentEdge "a" "b" "left" "above" "0";
           BentEdge "b" "a" "left" "above" "0";
           BentEdge "b" "a" "right" "above" "0";
           BentEdge "a" "b" "right" "above" "0"]).
Proof. vm_compute. reflexivity. Qed.

(** * Further properties of the code *)

(** ** Enumeration *)

(** X1: [getPermutations] returns exactly the rearrangements of its
    argument: every list it returns is one, and every one is returned. *)
Theorem getPermutations_iff {A} (arr p : list A) :
  p ∈ getPermutations arr ↔ p ≡ₚ arr.
Proof.
  split; [apply getPermutations_Permutation|apply getPermutations_complete].
Qed.

Lemma length_join_imap {A B} (f : nat → A → list B) (l : list A) (m : nat) :
  (∀ i x, l !! i = Some x → length (f i x) = m) →
  length (mjoin (imap f l)) = length l * m.
Proof.
  revert f. induction l as [|x l IH]; intros f Hf; [done|].
  simpl. rewrite length_app, (Hf 0 x eq_refl), IH; [done|].
  intros i y Hi. apply (Hf (S i) y Hi).
Qed.

Lemma length_getPermutations_fuel {A} (fuel : nat) (arr : list A) :
  length arr ≤ fuel → length (getPermutations_fuel fuel arr) = fact (length arr).
Proof.
  revert arr. induction fuel as [|fuel IH]; intros [|a arr] Hlen; simpl in Hlen.
  - done.
  - lia.
  - done.
  - cbn [getPermutations_fuel].
    rewrite (length_join_imap _ _ (fact (length arr))); [done|].
    intros i x Hi. rewrite length_fmap, IH.
    + rewrite removeAt_delete, length_delete by eauto. simpl. by rewrite Nat.sub_0_r.
    + rewrite removeAt_delete, length_delete by eauto. simpl. lia.
Qed.

(** X2: an array of [n] elements has [n!] permutations in the list, also
    when elements repeat; the search visits that many placements for every
    shape. *)
Theorem length_getPermutations {A} (arr : list A) :
  length (getPermutations arr) = fact (length arr).
Proof. by apply length_getPermutations_fuel. Qed.

Lemma bind_all_nil {A B} (f : A → list B) (l : list A) :
  (∀ x, x ∈ l → f x = []) → l ≫= f = [].
Proof.
  induction l as [|x l IH]; intros Hf; [done|].
  rewrite bind_cons, Hf by left. apply IH. intros y Hy. apply Hf. by right.
Qed.

Lemma getPossibleGridSizes_first_row (n : nat) :
  seq 1 (S n) ≫= (fun cols =>
    if bool_decide (1 * cols = S n ∨ 1 * cols = S n + 1) then [(1, cols)] else [])
  = [(1, S n)].
Proof.
  rewrite seq_S, bind_app, bind_all_nil.
  - simpl. by rewrite bool_decide_eq_true_2 by lia.
  - intros c Hc%elem_of_seq. by rewrite bool_decide_eq_false_2 by lia.
Qed.

Lemma getPossibleGridSizes_head (n : nat) :
  1 ≤ n → ∃ shapes, getPossibleGridSizes n = (1, n) :: shapes.
Proof.
  intros Hn. destruct n as [|n]; [lia|].
  pose (g := fun rows => seq 1 (S n) ≫= fun cols =>
               if bool_decide (rows * cols = S n ∨ rows * cols = S n + 1)
               then [(rows, cols)] else []).
  change (getPossibleGridSizes (S n)) with ((1 :: seq 2 n) ≫= g).
  rewrite bind_cons. unfold g at 1. rewrite getPossibleGridSizes_first_row.
  simpl. eauto.
Qed.

(** X3: the shapes for [n] states are exactly the pairs of dimensions
    between 1 and [n] whose product is [n] or [n + 1]; there is none for
    no state, and for [n >= 1] the single column is among them and the
    single row is the first of them. *)
Theorem getPossibleGridSizes_shapes (n : nat) :
  (∀ rows cols,
     (rows, cols) ∈ getPossibleGridSizes n ↔
     1 ≤ rows ≤ n ∧ 1 ≤ cols ≤ n ∧ (rows * cols = n ∨ rows * cols = n + 1))
  ∧ (n = 0 → getPossibleGridSizes n = [])
  ∧ (1 ≤ n → (n, 1) ∈ getPossibleGridSizes n
             ∧ ∃ shapes, getPossibleGridSizes n = (1, n) :: shapes).
Proof.
  split; [intros; apply getPossibleGridSizes_spec|]. split; [by intros ->|].
  intros Hn. split; [apply getPossibleGridSizes_spec; lia|].
  by apply getPossibleGridSizes_head.
Qed.

Lemma getPossibleGridSizes_shapes_witness :
  (3, 1) ∈ getPossibleGridSizes 3
  ∧ ∃ shapes, getPossibleGridSizes 3 = (1, 3) :: shapes.
Proof. apply (getPossibleGridSizes_shapes 3). lia. Defined.

(** ** When the search finds a layout *)

Lemma placeStates_single_row (perm : list string) :
  (placeStates 1 (length perm) perm).1 = [Some <$> perm].
Proof.
  pose proof (placeStates_spec 1 (length perm) perm) as Hspec.
  destruct (placeStates 1 (length perm) perm) as [grid pos].
  destruct Hspec as ([Hlen Hrows] & Hjoin & _); [lia|]. simpl.
  destruct grid as [|row [|row' grid]]; simplify_eq/=.
  rewrite app_nil_r in Hjoin. rewrite Hjoin.
  replace (length perm + 0 - length perm) with 0 by lia. simpl.
  by rewrite app_nil_r.
Qed.

Lemma findLastIndex_occupied (l : list string) (x : string) :
  findLastIndex isOccupied (Some <$> (l ++ [x])) = Some (length l).
Proof.
  induction l as [|a l IH]; [done|]. csimpl. cbn [findLastIndex].
  by rewrite IH.
Qed.

(** a single row that starts with the initial state and, if some other
    listed state is accepting, ends with one, passes both constraints *)
Lemma single_row_passes (states : list string) (initState : string)
    (acceptingStates : list string) (accToRight : bool) :
  initState ∈ states →
  ∃ perm, perm ≡ₚ states
          ∧ passesConstraints initState acceptingStates accToRight [Some <$> perm] = true.
Proof.
  intros Hinit.
  apply elem_of_Permutation in Hinit as [l1 Hl1].
  destruct (decide (Exists (fun a => a ∈ acceptingStates ∧ a ≠ initState) l1))
    as [Hex|Hnone].
  - apply Exists_exists in Hex as (a & Ha & Hacc & Hne).
    apply elem_of_Permutation in Ha as [l2 Hl2].
    exists ((initState :: l2) ++ [a]). split.
    { rewrite Hl1, Hl2. simpl. f_equiv. by rewrite Permutation_app_comm. }
    assert (rightmostIsAccepting acceptingStates (Some <$> (initState :: l2) ++ [a])
            = true) as Hlast.
    { unfold rightmostIsAccepting.
      rewrite (findLastIndex_occupied (initState :: l2) a).
      rewrite list_lookup_fmap, lookup_app_r by done.
      rewrite Nat.sub_diag. simpl. by rewrite bool_decide_eq_true_2. }
    unfold passesConstraints, initialInFirstColumn, accToRightRejects.
    cbn [existsb forallb]. rewrite Hlast.
    rewrite bool_decide_eq_true_2 by done. simpl. by rewrite andb_false_r.
  - exists (initState :: l1). split; [done|].
    unfold passesConstraints, initialInFirstColumn, accToRightRejects.
    cbn [existsb forallb].
    rewrite bool_decide_eq_true_2 by done.
    assert (acceptingBeforeRightmost acceptingStates initState
              (Some <$> initState :: l1) = false) as ->.
    { unfold acceptingBeforeRightmost.
      destruct (findLastIndex _ _) as [r|]; [|done].
      apply not_true_is_false. intros (cell & Hin & Hcell)%existsb_exists.
      apply andb_prop in Hcell as [Hacc Hne%bool_decide_eq_true].
      apply list_elem_of_In, elem_of_take in Hin as (k & Hk & _).
      destruct k as [|k]; simpl in Hk; [by simplify_eq|].
      rewrite list_lookup_fmap in Hk.
      destruct (l1 !! k) as [s|] eqn:Hs; simplify_eq/=.
      apply bool_decide_eq_true in Hacc.
      apply Hnone, Exists_exists. exists s. split; [by eapply list_elem_of_lookup_2|].
      split; [done|congruence]. }
    simpl. by rewrite !andb_false_r.
Qed.

Lemma candidateGrid_nonempty states c :
  c ∈ candidates states → candidateGrid c ≠ [].
Proof.
  destruct c as [[rows cols] perm]. intros Hc.
  apply candidate_fits in Hc as Hfits. destruct Hfits as (_ & Hrows & _).
  apply fullButLast_candidate in Hc as [[Hlen _] _].
  intros Hnil. rewrite Hnil in Hlen. simpl in Hlen. lia.
Qed.

Lemma findOptimalStatePlacement_initial_listed
    states initState acceptingStates transitions accToRight :
  initState ∈ states →
  findOptimalStatePlacement states initState acceptingStates transitions accToRight ≠ [].
Proof.
  intros Hinit Hres.
  destruct (single_row_passes states initState acceptingStates accToRight Hinit)
    as (perm & Hperm & Hpass).
  assert (1 ≤ length states) as Hn.
  { destruct states; [by apply elem_of_nil in Hinit|simpl; lia]. }
  assert ((1, length perm, perm) ∈ candidates states) as Hc.
  { apply elem_of_candidates. split.
    - rewrite Hperm. apply getPossibleGridSizes_spec. lia.
    - by apply getPermutations_complete. }
  destruct (findOptimalStatePlacement_cases states initState acceptingStates
              transitions accToRight) as [[_ Hnone]|(c0 & Hc0 & _ & Hgrid & _)].
  - specialize (Hnone _ Hc). unfold passes, candidateGrid in Hnone. simpl in Hnone.
    rewrite placeStates_single_row in Hnone. congruence.
  - simpl in Hgrid. rewrite Hres in Hgrid.
    by apply (candidateGrid_nonempty states c0 Hc0).
Qed.


(** X5: a grid that the search returns is a rectangle of one of the
    enumerated shapes: every row has the same length, every row starts with
    a state, and no cell is empty except possibly the last cell of the last
    row. The final filter of rows without a state therefore never removes a
    row: the result is the best grid as the loop left it. *)
Theorem findOptimalStatePlacement_rectangle
    states initState acceptingStates transitions accToRight :
  let result :=
    findOptimalStatePlacement states initState acceptingStates transitions accToRight in
  result = (searchLoop states initState acceptingStates transitions accToRight).1
  ∧ (result ≠ [] →
     ∃ rows cols,
       (rows, cols) ∈ getPossibleGridSizes (length states)
       ∧ length result = rows
       ∧ Forall (fun row => length row = cols) result
       ∧ (∀ i row, result !! i = Some row → ∃ s, row !! 0 = Some (Some s))
       ∧ (∀ p, gridCell result p = Some None → p = (rows - 1, cols - 1))).
Proof.
  simpl. split.
  - unfold findOptimalStatePlacement.
    destruct (searchLoop_bestOf states initState acceptingStates transitions accToRight)
      as [[-> _]|(c & Hc & _ & -> & _)]; [done|].
    simpl. by apply (trimGrid_candidate states).
  - intros Hne.
    destruct (findOptimalStatePlacement_cases states initState acceptingStates
                transitions accToRight)
      as [[Hres _]|([[rows cols] perm] & Hc & _ & Hgrid & _)]; [done|].
    simpl in Hgrid. rewrite Hgrid. exists rows, cols.
    apply elem_of_candidates in Hc as Hshape. destruct Hshape as [Hshape _].
    destruct (fullButLast_candidate states rows cols perm Hc) as [[Hlen Hrows] Hfull].
    split; [done|]. split; [done|]. split; [done|]. split; [|done].
    intros i row Hrow. by apply (candidate_row_head states rows cols perm i row).
Qed.

Lemma findOptimalStatePlacement_rectangle_witness :
  ∃ rows cols,
    (rows, cols) ∈ getPossibleGridSizes (length ["q1"; "q2"; "q3"])
    ∧ length (findOptimalStatePlacement ["q1"; "q2"; "q3"] "q1" []
                [("q1", [("0", ["q2"; "q3"])])] false) = rows
    ∧ Forall (fun row => length row = cols)
        (findOptimalStatePlacement ["q1"; "q2"; "q3"] "q1" []
           [("q1", [("0", ["q2"; "q3"])])] false)
    ∧ (∀ i row,
         findOptimalStatePlacement ["q1"; "q2"; "q3"] "q1" []
           [("q1", [("0", ["q2"; "q3"])])] false !! i = Some row →
         ∃ s, row !! 0 = Some (Some s))
    ∧ (∀ p, gridCell (findOptimalStatePlacement ["q1"; "q2"; "q3"] "q1" []
                        [("q1", [("0", ["q2"; "q3"])])] false) p = Some None →
            p = (rows - 1, cols - 1)).
Proof.
  apply (findOptimalStatePlacement_rectangle ["q1"; "q2"; "q3"] "q1" []
           [("q1", [("0", ["q2"; "q3"])])] false).
  vm_compute. discriminate.
Defined.

(** ** Ties *)

Lemma foldl_searchStep_first initState acceptingStates transitions accToRight
    (cs : list (nat * nat * list string)) :
  let best := foldl (searchStep initState acceptingStates transitions accToRight)
                    ([], None) cs in
  (best = ([], None)
   ∧ ∀ c, c ∈ cs → passes initState acceptingStates accToRight c = false)
  ∨ ∃ before c after,
      cs = before ++ c :: after
      ∧ passes initState acceptingStates accToRight c = true
      ∧ best = (candidateGrid c, Some (candidateCost transitions c))
      ∧ (∀ c', c' ∈ before → passes initState acceptingStates accToRight c' = true →
               (candidateCost transitions c < candidateCost transitions c')%Z)
      ∧ (∀ c', c' ∈ after → passes initState acceptingStates accToRight c' = true →
               (candidateCost transitions c ≤ candidateCost transitions c')%Z).
Proof.
  induction cs as [|x cs IH] using rev_ind; simpl.
  { left. split; [done|]. by intros c ?%elem_of_nil. }
  rewrite foldl_app. simpl. rewrite searchStep_passes.
  destruct (passes initState acceptingStates accToRight x) eqn:Hx.
  - destruct IH as [[-> Hnone]|(before & c & after & -> & Hc & -> & Hlt & Hle)]; simpl.
    + right. exists cs, x, []. split; [done|]. split; [done|]. split; [done|].
      split; [|by intros c' ?%elem_of_nil].
      intros c' Hc' Hp. rewrite Hnone in Hp; done.
    + destruct (Z.ltb_spec (candidateCost transitions x) (candidateCost transitions c)).
      * right. exists (before ++ c :: after), x, []. split; [done|].
        split; [done|]. split; [done|]. split; [|by intros c' ?%elem_of_nil].
        intros c' [Hc'|[->|Hc']%elem_of_cons]%elem_of_app Hp.
        -- specialize (Hlt c' Hc' Hp). lia.
        -- done.
        -- specialize (Hle c' Hc' Hp). lia.
      * right. exists before, c, (after ++ [x]).
        split; [by rewrite <- app_assoc|]. split; [done|]. split; [done|].
        split; [done|].
        intros c' [Hc'| ->%list_elem_of_singleton]%elem_of_app Hp; [by apply Hle|done].
  - destruct IH as [[-> Hnone]|(before & c & after & -> & Hc & -> & Hlt & Hle)].
    + left. split; [done|].
      intros c' [Hc'| ->%list_elem_of_singleton]%elem_of_app; auto.
    + right. exists before, c, (after ++ [x]).
      split; [by rewrite <- app_assoc|]. split; [done|]. split; [done|].
      split; [done|].
      intros c' [Hc'| ->%list_elem_of_singleton]%elem_of_app Hp; [by apply Hle|congruence].
Qed.

(** X6: among the placements of least cost the search returns the first in
    its order of enumeration (shapes in their order, for each shape the
    permutations in their order): every passing candidate before the one
    returned costs strictly more, every passing candidate after it costs at
    least as much. *)
Theorem findOptimalStatePlacement_first_cheapest
    states initState acceptingStates transitions accToRight :
  let result :=
    findOptimalStatePlacement states initState acceptingStates transitions accToRight in
  (result = []
   ∧ ∀ c, c ∈ candidates states → passes initState acceptingStates accToRight c = false)
  ∨ ∃ before c after,
      candidates states = before ++ c :: after
      ∧ passes initState acceptingStates accToRight c = true
      ∧ result = candidateGrid c
      ∧ (∀ c', c' ∈ before → passes initState acceptingStates accToRight c' = true →
               (candidateCost transitions c < candidateCost transitions c')%Z)
      ∧ (∀ c', c' ∈ after → passes initState acceptingStates accToRight c' = true →
               (candidateCost transitions c ≤ candidateCost transitions c')%Z).
Proof.
  simpl. unfold findOptimalStatePlacement. rewrite searchLoop_candidates.
  destruct (foldl_searchStep_first initState acceptingStates transitions accToRight
              (candidates states))
    as [[-> Hnone]|(before & c & after & Hcs & Hc & -> & Hlt & Hle)].
  - by left.
  - right. exists before, c, after. simpl.
    rewrite (trimGrid_candidate states) by (rewrite Hcs; set_solver).
    done.
Qed.

(** ** The cost *)



Lemma manhattan_sym (p q : nat * nat) : manhattan p q = manhattan q p.
Proof. unfold manhattan. lia. Qed.







(** ** Splitting, joining and trimming *)

Lemma splitBy_nonempty (isSep : ascii → bool) (s : string) : splitBy isSep s ≠ [].
Proof.
  destruct s as [|c s]; simpl; [done|].
  destruct (isSep c); [done|]. by destruct (splitBy isSep s).
Qed.

Lemma concat_cons_cons (sep x y : string) (l : list string) :
  String.concat sep (x :: y :: l) = x +:+ sep +:+ String.concat sep (y :: l).
Proof. done. Qed.

(** X8: joining the pieces of a split with the separator gives the string
    back, a split has at least one piece (the whole string when there is
    no separator, one empty piece for the empty string), and no piece
    splits any further. *)
Theorem splitBy_concat (c : ascii) (s : string) :
  let isSep := fun x => bool_decide (x = c) in
  splitBy isSep s ≠ []
  ∧ String.concat (String c "") (splitBy isSep s) = s
  ∧ Forall (fun w => splitBy isSep w = [w]) (splitBy isSep s).
Proof.
  simpl. split; [apply splitBy_nonempty|].
  induction s as [|a s [IHcat IHpieces]]; [by repeat constructor|].
  simpl. case_bool_decide as Ha.
  - subst a. pose proof (splitBy_nonempty (fun x => bool_decide (x = c)) s) as Hne.
    destruct (splitBy _ s) as [|w ws] eqn:Hs; [done|]. split.
    + by rewrite concat_cons_cons, IHcat.
    + by constructor.
  - pose proof (splitBy_nonempty (fun x => bool_decide (x = c)) s) as Hne.
    destruct (splitBy _ s) as [|w ws] eqn:Hs; [done|]. split.
    + destruct ws as [|w' ws].
      * simpl in *. by rewrite IHcat.
      * rewrite concat_cons_cons in IHcat. rewrite concat_cons_cons.
        by rewrite <- IHcat.
    + apply Forall_cons in IHpieces as [Hw Hws]. constructor; [|done].
      simpl. rewrite bool_decide_eq_false_2 by done. by rewrite Hw.
Qed.

Lemma splitBy_piece_cons (isSep : ascii → bool) (a : ascii) (w : string) :
  splitBy isSep (String a w) = [String a w] →
  isSep a = false ∧ splitBy isSep w = [w].
Proof.
  simpl. pose proof (splitBy_nonempty isSep w) as Hne.
  destruct (isSep a).
  - destruct (splitBy isSep w); [done|]. intros [=].
  - destruct (splitBy isSep w) as [|w0 [|w1 ws]]; [done|..]; intros [=]; by subst.
Qed.

Lemma splitBy_app_sep (isSep : ascii → bool) (c : ascii) (w rest : string) :
  isSep c = true → splitBy isSep w = [w] →
  splitBy isSep (w +:+ String c rest) = w :: splitBy isSep rest.
Proof.
  intros Hc. induction w as [|a w IH]; intros Hw.
  - simpl. by rewrite Hc.
  - apply splitBy_piece_cons in Hw as [Ha Hw].
    simpl. rewrite Ha, (IH Hw). done.
Qed.

(** X9: splitting a joined list gives the list back when the list is not
    empty and no element contains the separator; this is how
    [checkTransition] recovers the symbols of a record from the key that
    [createTransitions] joined. The join of no symbols is the empty key,
    which splits into one empty symbol. *)
Theorem concat_splitBy (c : ascii) (pieces : list string) :
  let isSep := fun x => bool_decide (x = c) in
  (pieces ≠ [] → Forall (fun w => splitBy isSep w = [w]) pieces →
   splitBy isSep (String.concat (String c "") pieces) = pieces)
  ∧ splitBy isSep (String.concat (String c "") []) = [""].
Proof.
  simpl. split; [|done]. intros Hne Hpieces.
  induction Hpieces as [|w ws Hw Hws IH]; [done|].
  destruct ws as [|w' ws]; [done|].
  rewrite concat_cons_cons.
  change (String c "" +:+ String.concat (String c "") (w' :: ws))
    with (String c (String.concat (String c "") (w' :: ws))).
  rewrite splitBy_app_sep; [|by rewrite bool_decide_eq_true_2|done].
  f_equal. by apply IH.
Qed.

Lemma concat_splitBy_witness :
  splitBy (fun x => bool_decide (x = ","%char)) (String.concat "," ["0"; "1"; "ab"])
  = ["0"; "1"; "ab"].
Proof.
  apply (concat_splitBy ","%char ["0"; "1"; "ab"]).
  - discriminate.
  - vm_compute. repeat constructor.
Defined.

Lemma trimEnd_cons_not_space (c : ascii) (s : string) :
  isSpace c = false → trimEnd (String c s) = String c (trimEnd s).
Proof. intros Hc. simpl. rewrite Hc. by destruct (trimEnd s). Qed.

Lemma trimStart_idemp (s : string) : trimStart (trimStart s) = trimStart s.
Proof.
  induction s as [|c s IH]; [done|]. simpl.
  destruct (isSpace c) eqn:Hc; [done|]. simpl. by rewrite Hc.
Qed.

Lemma trimEnd_idemp (s : string) : trimEnd (trimEnd s) = trimEnd s.
Proof.
  induction s as [|c s IH]; [done|]. simpl.
  destruct (trimEnd s) as [|a t] eqn:Ht.
  - destruct (isSpace c) eqn:Hc; [done|]. simpl. by rewrite Hc.
  - change (trimEnd (String c (String a t))) with
      (match trimEnd (String a t) with
       | EmptyString => if isSpace c then "" else String c ""
       | t' => String c t'
       end).
    by rewrite IH.
Qed.

Lemma trim_head (s : string) :
  match trim s with
  | String c _ => isSpace c = false
  | EmptyString => True
  end.
Proof.
  unfold trim.
  assert (match trimStart s with String c _ => isSpace c = false | "" => True end) as Hs.
  { induction s as [|c s IH]; [done|]. simpl. by destruct (isSpace c) eqn:Hc. }
  destruct (trimStart s) as [|c t]; [done|].
  by rewrite trimEnd_cons_not_space.
Qed.

(** X10: [trim] is idempotent; a trimmed string does not start with
    white space; and neither [trimEnd] nor [trimStart] removes anything
    more from a trimmed string. *)
Theorem trim_trim (s : string) :
  trim (trim s) = trim s
  ∧ match trim s with
    | String c _ => isSpace c = false
    | EmptyString => True
    end
  ∧ trimEnd (trim s) = trim s
  ∧ trimStart (trim s) = trim s.
Proof.
  pose proof (trim_head s) as Hhead.
  assert (trimStart (trim s) = trim s) as Hstart.
  { destruct (trim s) as [|c t]; [done|]. simpl. by rewrite Hhead. }
  assert (trimEnd (trim s) = trim s) as Hend by apply trimEnd_idemp.
  split; [|done]. unfold trim at 1. by rewrite Hstart, Hend.
Qed.

(** ** The transition table *)

Section assoc.
Context {V : Type}.
Implicit Types (l : list (string * V)) (k : string) (v : V).

Lemma lookupKey_app l1 l2 k :
  lookupKey k (l1 ++ l2)
  = match lookupKey k l1 with Some v => Some v | None => lookupKey k l2 end.
Proof.
  induction l1 as [|[k' v'] l1 IH]; [done|]. simpl. by case_bool_decide.
Qed.

Lemma lookupKey_None l k : lookupKey k l = None ↔ k ∉ l.*1.
Proof.
  induction l as [|[k' v'] l IH]; simpl.
  - split; [intros _; apply not_elem_of_nil|done].
  - rewrite not_elem_of_cons. case_bool_decide as Hk.
    + split; [done|]. intros [Hne _]. congruence.
    + rewrite IH. split; [intros ?; split; [congruence|done]|by intros [_ ?]].
Qed.

Lemma lookupKey_Some_elem_of l k v : lookupKey k l = Some v → (k, v) ∈ l.
Proof.
  induction l as [|[k' v'] l IH]; [done|]. simpl.
  case_bool_decide; [intros [= ->]; subst; left|right; auto].
Qed.

Lemma elem_of_lookupKey l k v : NoDup l.*1 → (k, v) ∈ l → lookupKey k l = Some v.
Proof.
  induction l as [|[k' v'] l IH]; [by intros _ ?%elem_of_nil|].
  csimpl. intros [Hk' Hl]%NoDup_cons [[= -> ->]|Hin]%elem_of_cons.
  - by rewrite bool_decide_eq_true_2.
  - rewrite bool_decide_eq_false_2; [by apply IH|].
    intros ->. apply Hk'. apply list_elem_of_fmap. by exists (k, v).
Qed.

Lemma lookupKey_ensureKey l k k' v :
  lookupKey k (ensureKey k' v l)
  = match lookupKey k l with
    | Some x => Some x
    | None => if bool_decide (k' = k) then Some v else None
    end.
Proof.
  unfold ensureKey. destruct (lookupKey k' l) as [x|] eqn:Hk'.
  - destruct (lookupKey k l) eqn:Hk; [done|].
    case_bool_decide; [congruence|done].
  - rewrite lookupKey_app. simpl. done.
Qed.

Lemma lookupKey_alterKey (f : V → V) l k k' :
  lookupKey k (alterKey f k' l)
  = if bool_decide (k' = k) then f <$> lookupKey k l else lookupKey k l.
Proof.
  induction l as [|[k0 v0] l IH]; simpl; [by case_bool_decide|].
  destruct (decide (k0 = k')) as [->|Hne].
  - rewrite (bool_decide_eq_true_2 (k' = k')) by done. simpl.
    by case_bool_decide.
  - rewrite (bool_decide_eq_false_2 (k0 = k')) by done. simpl. rewrite IH.
    destruct (decide (k0 = k)) as [->|Hk].
    + rewrite (bool_decide_eq_true_2 (k = k)) by done.
      by rewrite (bool_decide_eq_false_2 (k' = k)) by congruence.
    + by rewrite (bool_decide_eq_false_2 (k0 = k)) by done.
Qed.

Lemma alterKey_keys (f : V → V) l k : (alterKey f k l).*1 = l.*1.
Proof.
  induction l as [|[k0 v0] l IH]; [done|]. simpl.
  case_bool_decide; csimpl; [done|by rewrite IH].
Qed.

Lemma ensureKey_NoDup l k v : NoDup l.*1 → NoDup (ensureKey k v l).*1.
Proof.
  intros Hl. unfold ensureKey. destruct (lookupKey k l) eqn:Hk; [done|].
  rewrite fmap_app. apply NoDup_app. split; [done|]. split.
  - intros k' Hk' ->%list_elem_of_singleton. by apply lookupKey_None in Hk.
  - apply NoDup_singleton.
Qed.

Lemma Forall_alterKey (Q : V → Prop) (f : V → V) l k :
  (∀ v, Q v → Q (f v)) →
  Forall (fun e : string * V => Q e.2) l →
  Forall (fun e : string * V => Q e.2) (alterKey f k l).
Proof.
  intros Hf. induction 1 as [|[k0 v0] l Hv Hl IH]; [done|]. simpl.
  case_bool_decide; constructor; simpl; auto.
Qed.

Lemma Forall_ensureKey (Q : V → Prop) l k v :
  Q v →
  Forall (fun e : string * V => Q e.2) l →
  Forall (fun e : string * V => Q e.2) (ensureKey k v l).
Proof.
  intros Hv Hl. unfold ensureKey. destruct (lookupKey k l); [done|].
  apply Forall_app. split; [done|]. by constructor.
Qed.

End assoc.

Lemma destinationsOf_addTransition (transitions : Transitions)
    (fromState key toState a k : string) :
  destinationsOf (addTransition transitions (fromState, key, toState)) a k
  = destinationsOf transitions a k
    ++ (if bool_decide ((fromState, key) = (a, k)) then [toState] else []).
Proof.
  unfold destinationsOf, addTransition.
  rewrite lookupKey_alterKey, lookupKey_ensureKey.
  destruct (decide (fromState = a)) as [->|Hne].
  - rewrite !bool_decide_eq_true_2 by done.
    destruct (lookupKey a transitions) as [byKey|].
    + simpl. rewrite lookupKey_alterKey, lookupKey_ensureKey.
      destruct (decide (key = k)) as [->|Hk].
      * rewrite !bool_decide_eq_true_2 by done.
        by destruct (lookupKey k byKey).
      * rewrite (bool_decide_eq_false_2 (key = k)) by done.
        rewrite (bool_decide_eq_false_2 ((a, key) = (a, k))) by congruence.
        destruct (lookupKey k byKey); simpl; by rewrite ?app_nil_r.
    + change (default [] (lookupKey k
                (alterKey (fun dests => dests ++ [toState]) key (ensureKey key [] []))) =
              [] ++ (if bool_decide ((a, key) = (a, k)) then [toState] else [])).
      rewrite lookupKey_alterKey, lookupKey_ensureKey. simpl.
      destruct (decide (key = k)) as [->|Hk].
      * by rewrite !bool_decide_eq_true_2.
      * rewrite (bool_decide_eq_false_2 (key = k)) by done.
        by rewrite (bool_decide_eq_false_2 ((a, key) = (a, k))) by congruence.
  - rewrite (bool_decide_eq_false_2 (fromState = a)) by done.
    rewrite (bool_decide_eq_false_2 ((fromState, key) = (a, k))) by congruence.
    rewrite app_nil_r. by destruct (lookupKey a transitions).
Qed.

Lemma destinationsOf_foldl (transitions : Transitions)
    (records : list (string * string * string)) (a k : string) :
  destinationsOf (foldl addTransition transitions records) a k
  = destinationsOf transitions a k
    ++ ((fun r : string * string * string => r.2)
        <$> filter (fun r : string * string * string => r.1 = (a, k)) records).
Proof.
  revert transitions.
  induction records as [|[[fromState key] toState] records IH]; intros transitions.
  - simpl. by rewrite app_nil_r.
  - cbn [foldl]. rewrite IH, destinationsOf_addTransition, filter_cons. cbn [fst].
    case_bool_decide.
    + rewrite decide_True by done. csimpl. by rewrite <- app_assoc.
    + rewrite decide_False by done. by rewrite app_nil_r.
Qed.

(** X11: the destination list that [createTransitions] stores for a source
    and a symbol key is the list of the destinations of the records with
    that source and that key, in the order of the text; a record that
    repeats an earlier one adds its destination again, and a pair without
    a record has no destinations. *)
Theorem createTransitions_destinations (transitionString a k : string) :
  destinationsOf (createTransitions transitionString) a k
  = (fun r : string * string * string => r.2)
    <$> filter (fun r : string * string * string => r.1 = (a, k))
               (transitionRecords transitionString).
Proof.
  unfold createTransitions. fold (transitionRecords transitionString).
  by rewrite destinationsOf_foldl.
Qed.

Lemma addTransition_wellKeyed (transitions : Transitions) (r : string * string * string) :
  wellKeyed transitions → wellKeyed (addTransition transitions r).
Proof.
  destruct r as [[fromState key] toState]. intros [Hkeys Hinner].
  unfold addTransition. split.
  - rewrite alterKey_keys. by apply ensureKey_NoDup.
  - apply (Forall_alterKey (fun byKey : list (string * list string) => NoDup byKey.*1)).
    + intros byKey Hb. rewrite alterKey_keys. by apply ensureKey_NoDup.
    + apply (Forall_ensureKey
               (fun byKey : list (string * list string) => NoDup byKey.*1));
        [constructor|done].
Qed.

Lemma foldl_addTransition_wellKeyed (transitions : Transitions)
    (records : list (string * string * string)) :
  wellKeyed transitions → wellKeyed (foldl addTransition transitions records).
Proof.
  revert transitions.
  induction records as [|r records IH]; intros transitions Ht; [done|].
  simpl. by apply IH, addTransition_wellKeyed.
Qed.

(** X12: the table that [createTransitions] builds has every source once
    and, under a source, every symbol key once, as the keys of a JS object
    have to be. *)
Theorem createTransitions_wellKeyed (transitionString : string) :
  wellKeyed (createTransitions transitionString).
Proof.
  unfold createTransitions. apply foldl_addTransition_wellKeyed. split; constructor.
Qed.

Lemma hasTransition_keysBetween (transitions : Transitions) (a b : string) :
  hasTransition transitions a b = true ↔ keysBetween transitions a b ≠ [].
Proof.
  unfold hasTransition, checkTransition.
  assert (0 < length (keysBetween transitions a b ≫= splitBy isComma)
          ↔ keysBetween transitions a b ≠ []) as Hlen.
  { destruct (keysBetween transitions a b) as [|key keys]; csimpl.
    - split; [lia|done].
    - rewrite length_app. pose proof (splitBy_nonempty isComma key) as Hne.
      destruct (splitBy isComma key); [done|]. simpl. split; [done|lia]. }
  rewrite bool_decide_eq_true. split.
  - intros [x Hx]. case_bool_decide; [by apply Hlen|done].
  - intros Hne. rewrite bool_decide_eq_true_2 by (by apply Hlen). eauto.
Qed.

Lemma hasTransition_destinationsOf (transitions : Transitions) (a b : string) :
  wellKeyed transitions →
  hasTransition transitions a b = true ↔ ∃ k, b ∈ destinationsOf transitions a k.
Proof.
  intros [Hkeys Hinner]. rewrite hasTransition_keysBetween.
  unfold keysBetween, destinationsOf.
  destruct (lookupKey a transitions) as [byKey|] eqn:Ha; simpl.
  - assert (NoDup byKey.*1) as Hb.
    { apply lookupKey_Some_elem_of in Ha.
      by eapply Forall_forall in Hinner; [|exact Ha]. }
    split.
    + intros Hne.
      destruct (List.filter _ byKey) as [|[k ds] rest] eqn:Hf; [done|].
      assert (In (k, ds) (List.filter (fun e : string * list string =>
                                          bool_decide (b ∈ e.2)) byKey)) as Hin
        by (rewrite Hf; by left).
      apply filter_In in Hin as [Hin Hds%bool_decide_eq_true].
      exists k. by rewrite (elem_of_lookupKey byKey k ds Hb) by by apply list_elem_of_In.
    + intros [k Hk].
      destruct (lookupKey k byKey) as [ds|] eqn:Hds; [|by apply elem_of_nil in Hk].
      simpl in Hk. apply lookupKey_Some_elem_of in Hds.
      assert (In (k, ds) (List.filter (fun e : string * list string =>
                                          bool_decide (b ∈ e.2)) byKey)) as Hin.
      { apply filter_In. split; [by apply list_elem_of_In|].
        by apply bool_decide_eq_true. }
      destruct (List.filter _ byKey); [done|]. done.
  - split; [done|]. intros [k Hk]. by apply elem_of_nil in Hk.
Qed.

(** X13: after [createTransitions], [checkTransition] finds a transition
    from [a] to [b] exactly when the text has a record with source [a] and
    destination [b]. *)
Theorem createTransitions_hasTransition (transitionString a b : string) :
  hasTransition (createTransitions transitionString) a b = true
  ↔ ∃ k, (a, k, b) ∈ transitionRecords transitionString.
Proof.
  assert (∀ k, destinationsOf (createTransitions transitionString) a k
               = (fun r : string * string * string => r.2)
                 <$> filter (fun r : string * string * string => r.1 = (a, k))
                            (transitionRecords transitionString)) as Hdest.
  { intros k. unfold createTransitions. fold (transitionRecords transitionString).
    by rewrite destinationsOf_foldl. }
  assert (wellKeyed (createTransitions transitionString)) as Hwell.
  { unfold createTransitions. apply foldl_addTransition_wellKeyed. split; constructor. }
  rewrite hasTransition_destinationsOf by done.
  split; intros [k Hk]; exists k.
  - rewrite Hdest in Hk.
    apply list_elem_of_fmap in Hk as ([[a' k'] b'] & -> & [Hr Hin]%list_elem_of_filter).
    simpl in *. by simplify_eq.
  - rewrite Hdest.
    apply list_elem_of_fmap. exists (a, k, b). split; [done|].
    by apply list_elem_of_filter.
Qed.

(** X14: [checkConnection] does not depend on the order of its two states;
    it is 2 exactly when there are transitions both ways, 0 exactly when
    there is none, and 1 otherwise. *)
Theorem checkConnection_sym (transitions : Transitions) (a b : string) :
  checkConnection transitions a b = checkConnection transitions b a
  ∧ (checkConnection transitions a b = 2 ↔
     hasTransition transitions a b = true ∧ hasTransition transitions b a = true)
  ∧ (checkConnection transitions a b = 0 ↔
     hasTransition transitions a b = false ∧ hasTransition transitions b a = false)
  ∧ checkConnection transitions a b ≤ 2.
Proof.
  unfold checkConnection.
  destruct (hasTransition transitions a b), (hasTransition transitions b a); simpl;
    repeat split; try done; try lia; intros [? ?]; done.
Qed.

(** ** The declarations as a whole *)


Lemma routeOutcome_ends transitionsObj (grid : Grid) symbolsStyle
    (bda : list (list string)) (i j : nat) (a b : string) :
  (fun e => (edgeFrom e, edgeTo e))
    <$> (routeOutcome transitionsObj grid symbolsStyle bda (i, a, (j, b))).2
  = if hasTransition transitionsObj a b then [(a, b)] else [].
Proof.
  pose proof (routeOutcome_cases transitionsObj grid symbolsStyle bda i j a b) as Hcases.
  unfold hasTransition.
  destruct (checkTransition transitionsObj a b) as [symbols|]; simpl in Hcases.
  - rewrite bool_decide_eq_true_2 by eauto. case_bool_decide.
    + destruct Hcases as (side & _ & ->). simpl. by subst.
    + destruct (drawnStraight transitionsObj grid a b).
      * by rewrite Hcases.
      * by destruct Hcases as (d & _ & _ & ->).
  - rewrite bool_decide_eq_false_2 by (by intros [? ?]). by rewrite Hcases.
Qed.

Lemma runPairs_ends transitionsObj (grid : Grid) symbolsStyle
    (bda : list (list string)) (ps : list (nat * string * (nat * string))) :
  (fun e => (edgeFrom e, edgeTo e))
    <$> (runPairs transitionsObj grid symbolsStyle bda ps).2
  = (fun p : nat * string * (nat * string) => (p.1.2, p.2.2))
    <$> filter (fun p : nat * string * (nat * string) =>
                  hasTransition transitionsObj p.1.2 p.2.2 = true) ps.
Proof.
  revert bda. induction ps as [|[[i a] [j b]] ps IH]; intros bda; [done|].
  cbn [runPairs snd]. rewrite fmap_app, IH, routeOutcome_ends, filter_cons. simpl.
  destruct (hasTransition transitionsObj a b).
  - by rewrite decide_True.
  - by rewrite decide_False.
Qed.

(** X16: the edge declarations are, in the order of the two nested loops
    over the state list, one per ordered pair of positions whose states have
    a transition from the first to the second, and none for other pairs; a
    declaration is a loop exactly when its two ends are the same state. *)
Theorem generateFrom_edges_in_order
    statesArray initialState acceptingStatesArray transitionsObj
    initialWhere acceptingBy symbolsStyle :
  ∃ d, generateFrom statesArray initialState acceptingStatesArray transitionsObj
         initialWhere acceptingBy symbolsStyle = Ok d
       ∧ (fun e => (edgeFrom e, edgeTo e)) <$> edges d
         = (fun p : nat * string * (nat * string) => (p.1.2, p.2.2))
           <$> filter (fun p : nat * string * (nat * string) =>
                         hasTransition transitionsObj p.1.2 p.2.2 = true)
                      (statePairs statesArray)
       ∧ ∀ e, e ∈ edges d → isLoop e = bool_decide (edgeFrom e = edgeTo e).
Proof.
  eexists. split; [apply generateFrom_Ok|]. simpl. split; [apply runPairs_ends|].
  intros e (bda0 & [[i a] [j b]] & _ & He)%runPairs_edge.
  apply routeOutcome_edge in He as (-> & -> & _ & Hloop & _). done.
Qed.

(** ** Node declarations *)

Lemma anchorsDeclared_snoc (code : list Node) (n : Node) :
  anchorsDeclared code →
  (∀ s, anchorTarget n = Some s → s ∈ nodeState <$> code) →
  anchorsDeclared (code ++ [n]).
Proof.
  intros Hcode Hn k n' s Hk Ht.
  destruct (decide (k < length code)) as [Hlt|Hge].
  - rewrite lookup_app_l in Hk by done.
    rewrite take_app_le by lia. by eapply Hcode.
  - rewrite lookup_app_r in Hk by lia.
    destruct (k - length code) as [|m] eqn:Hm; simpl in Hk; [|done].
    simplify_eq. replace k with (length code) by lia.
    rewrite take_app_length. by apply Hn.
Qed.

(** what the node loops keep: the anchors so far are declared, and so are
    the two remembered states when they are set *)
Lemma nodeStep_invariant initialState initialWhere acceptingStatesArray (rowIndex : nat)
    (st : option string * option string * list Node) (e : nat * Cell) :
  let st' := nodeStep initialState initialWhere acceptingStatesArray rowIndex st e in
  (anchorsDeclared st.2
   ∧ (truthy st.1.1 = true → default "" st.1.1 ∈ nodeState <$> st.2)
   ∧ (truthy st.1.2 = true → default "" st.1.2 ∈ nodeState <$> st.2)) →
  (anchorsDeclared st'.2
   ∧ (truthy st'.1.1 = true → default "" st'.1.1 ∈ nodeState <$> st'.2)
   ∧ (truthy st'.1.2 = true → default "" st'.1.2 ∈ nodeState <$> st'.2))
  ∧ nodeState <$> st'.2
    = (nodeState <$> st.2) ++ (if truthy e.2 then [default "" e.2] else []).
Proof.
  destruct st as [[prf prev] code], e as [colIndex cell]. simpl.
  intros (Hcode & Hprf & Hprev). unfold nodeStep.
  destruct (truthy cell) eqn:Hcell; [|by rewrite app_nil_r].
  assert (∀ l : list string, default "" cell ∈ l ++ [default "" cell]) as Hnew.
  { intros l. rewrite elem_of_app. right. by left. }
  assert (∀ (l : list string) s x, s ∈ l → s ∈ l ++ [x]) as Hold.
  { intros l s x Hs. rewrite elem_of_app. by left. }
  destruct (bool_decide (colIndex = 0) && bool_decide (0 < rowIndex) && truthy prf)
    eqn:Hbelow; [|destruct (bool_decide (0 < colIndex) && truthy prev) eqn:Hright];
    cbn [fst snd]; rewrite fmap_app; cbn [fmap list_fmap nodeState].
  - apply andb_prop in Hbelow as [_ Ht].
    split; [|done]. split; [|split; intros _; apply Hnew].
    apply anchorsDeclared_snoc; [done|]. intros s [= <-]. by apply Hprf.
  - apply andb_prop in Hright as [_ Ht].
    split; [|done]. split; [|split].
    + apply anchorsDeclared_snoc; [done|]. intros s [= <-]. by apply Hprev.
    + intros Hp. apply Hold. by apply Hprf.
    + intros _. apply Hnew.
  - split; [|done]. split; [|split; intros _; apply Hnew].
    apply anchorsDeclared_snoc; [done|]. by intros s [=].
Qed.

Lemma nodeRow_invariant initialState initialWhere acceptingStatesArray
    (st : option string * list Node) (e : nat * list Cell) :
  let st' := nodeRow initialState initialWhere acceptingStatesArray st e in
  (anchorsDeclared st.2
   ∧ (truthy st.1 = true → default "" st.1 ∈ nodeState <$> st.2)) →
  (anchorsDeclared st'.2
   ∧ (truthy st'.1 = true → default "" st'.1 ∈ nodeState <$> st'.2))
  ∧ nodeState <$> st'.2
    = (nodeState <$> st.2) ++ filter (fun s => s ≠ "") (omap id e.2).
Proof.
  destruct st as [prf code], e as [rowIndex row]. simpl. intros [Hcode Hprf].
  unfold nodeRow. simpl.
  assert (∀ (cells : list (nat * Cell)) (st0 : option string * option string * list Node),
            (anchorsDeclared st0.2
             ∧ (truthy st0.1.1 = true → default "" st0.1.1 ∈ nodeState <$> st0.2)
             ∧ (truthy st0.1.2 = true → default "" st0.1.2 ∈ nodeState <$> st0.2)) →
            let st1 := foldl (nodeStep initialState initialWhere acceptingStatesArray
                                rowIndex) st0 cells in
            (anchorsDeclared st1.2
             ∧ (truthy st1.1.1 = true → default "" st1.1.1 ∈ nodeState <$> st1.2)
             ∧ (truthy st1.1.2 = true → default "" st1.1.2 ∈ nodeState <$> st1.2))
            ∧ nodeState <$> st1.2
              = (nodeState <$> st0.2)
                ++ filter (fun s => s ≠ "") (omap id (snd <$> cells))) as Hfold.
  { induction cells as [|c cells IH]; intros st0 Hst0; simpl.
    - by rewrite app_nil_r.
    - destruct (nodeStep_invariant initialState initialWhere acceptingStatesArray
                  rowIndex st0 c Hst0) as [Hinv Hstates].
      destruct (IH _ Hinv) as [Hinv' Hstates'].
      split; [done|]. rewrite Hstates', Hstates, <- app_assoc. f_equal.
      destruct c as [colIndex [s|]]; csimpl.
      + rewrite filter_cons. case_bool_decide; simpl.
        * subst s. by rewrite decide_False by auto.
        * by rewrite decide_True.
      + done. }
  specialize (Hfold (imap pair row) (prf, None, code)). simpl in Hfold.
  destruct Hfold as [(Hc' & Hprf' & _) Hstates]; [by repeat split|].
  destruct (foldl _ _ _) as [[prf' prev'] code']. simpl in *.
  split; [done|]. rewrite Hstates. do 3 f_equal.
  rewrite fmap_imap. rewrite (imap_ext _ (const id)) by done.
  by rewrite imap_const, list_fmap_id.
Qed.

Lemma generateNodes_fold initialState initialWhere acceptingStatesArray (grid : Grid) :
  nodeState <$> generateNodes initialState initialWhere acceptingStatesArray grid
  = filter (fun s => s ≠ "") (occupants grid)
  ∧ anchorsDeclared (generateNodes initialState initialWhere acceptingStatesArray grid).
Proof.
  unfold generateNodes, occupants.
  assert (∀ (rows : list (nat * list Cell)) (st0 : option string * list Node),
            (anchorsDeclared st0.2
             ∧ (truthy st0.1 = true → default "" st0.1 ∈ nodeState <$> st0.2)) →
            let st1 := foldl (nodeRow initialState initialWhere acceptingStatesArray)
                             st0 rows in
            anchorsDeclared st1.2
            ∧ nodeState <$> st1.2
              = (nodeState <$> st0.2)
                ++ filter (fun s => s ≠ "") (omap id (mjoin (snd <$> rows)))) as Hfold.
  { induction rows as [|r rows IH]; intros st0 Hst0; simpl.
    - split; [apply Hst0|by rewrite app_nil_r].
    - destruct (nodeRow_invariant initialState initialWhere acceptingStatesArray
                  st0 r Hst0) as [Hinv Hstates].
      destruct (IH _ Hinv) as [Hinv' Hstates'].
      split; [done|].
      rewrite Hstates', Hstates, <- app_assoc, omap_app, filter_app. done. }
  specialize (Hfold (imap pair grid) (None, [])). simpl in Hfold.
  destruct Hfold as [Hdecl Hstates].
  { split; [|done]. intros k n s Hk. by rewrite lookup_nil in Hk. }
  split; [|done]. rewrite Hstates. do 3 f_equal.
  rewrite fmap_imap. rewrite (imap_ext _ (const id)) by done.
  by rewrite imap_const, list_fmap_id.
Qed.

(** X17: the node declarations name the states of the occupied cells of
    the grid, row by row and left to right, one declaration per cell; and
    every declaration that is placed [below of] or [right of] a node names
    a node declared before it, so the first declaration has no anchor. *)
Theorem generateNodes_states initialState initialWhere acceptingStatesArray (grid : Grid) :
  nodeState <$> generateNodes initialState initialWhere acceptingStatesArray grid
  = filter (fun s => s ≠ "") (occupants grid)
  ∧ anchorsDeclared (generateNodes initialState initialWhere acceptingStatesArray grid).
Proof. apply generateNodes_fold. Qed.

(** ** The crossing test *)

Lemma onSegment_sym (p1 p2 p : nat * nat) : onSegment p1 p2 p = onSegment p2 p1 p.
Proof.
  unfold onSegment. cbv zeta. apply eq_iff_eq_true.
  rewrite !andb_true_iff, !bool_decide_eq_true. lia.
Qed.

Lemma onSegment_adjacent (p1 p2 p : nat * nat) :
  adjacent p1 p2 → onSegment p1 p2 p = true → p = p1 ∨ p = p2.
Proof.
  destruct p1 as [x1 y1], p2 as [x2 y2], p as [i j].
  unfold adjacent, onSegment. cbv zeta. simpl.
  rewrite andb_true_iff, !bool_decide_eq_true. intros (Hx1 & Hx2 & Hy1 & Hy2) [Hline Hbox].
  assert (x2 = x1 ∨ x2 = S x1 ∨ x1 = S x2) as Hx by lia.
  assert (y2 = y1 ∨ y2 = S y1 ∨ y1 = S y2) as Hy by lia.
  assert ((i = x1 ∧ j = y1) ∨ (i = x2 ∧ j = y2)) as [[-> ->]|[-> ->]];
    [|by left|by right].
  destruct Hx as [->|[->| ->]], Hy as [->|[->| ->]]; lia.
Qed.

Lemma existsb_iff {A} (f g : A → bool) (l : list A) :
  (∀ x, x ∈ l → f x = g x) → existsb f l = existsb g l.
Proof.
  induction l as [|x l IH]; intros Hfg; [done|]. simpl.
  rewrite (Hfg x) by left. rewrite IH; [done|]. intros y Hy. apply Hfg. by right.
Qed.

(** X18: whether the segment between two states crosses another cell does
    not depend on the order in which the two states are given, and no cell
    lies between a state and itself. *)
Theorem doesLineCrossOtherElements_sym (arr2d : Grid) (e1 e2 : string) :
  doesLineCrossOtherElements arr2d e1 e2 = doesLineCrossOtherElements arr2d e2 e1
  ∧ doesLineCrossOtherElements arr2d e1 e1 = false.
Proof.
  unfold doesLineCrossOtherElements. split.
  - destruct (findPosition arr2d e1) as [p1|], (findPosition arr2d e2) as [p2|]; try done.
    apply existsb_iff. intros c _. rewrite onSegment_sym. f_equal. f_equal.
    apply bool_decide_ext. tauto.
  - destruct (findPosition arr2d e1) as [p1|]; [|done].
    apply not_true_iff_false. rewrite existsb_exists.
    intros (c & _ & [Hskip Hseg]%andb_true_iff).
    apply negb_true_iff, bool_decide_eq_false in Hskip.
    apply onSegment_adjacent in Hseg; [tauto|]. unfold adjacent. lia.
Qed.

(** X19: the segment between two states in neighbouring cells, diagonal
    neighbours included, crosses no other cell; so a transition between
    two such states that has no transition back is drawn as a straight
    edge, whatever the array of bend directions holds. *)
Theorem adjacent_one_way_straight transitionsObj (grid : Grid) symbolsStyle
    (bendDirectionArray : list (list string)) (code : list Edge)
    (fromIndex toIndex : nat) (fromState toState : string)
    (p1 p2 : nat * nat) (symbols : list string) :
  findPosition grid fromState = Some p1 →
  findPosition grid toState = Some p2 →
  adjacent p1 p2 →
  fromState ≠ toState →
  checkTransition transitionsObj fromState toState = Some symbols →
  hasTransition transitionsObj toState fromState = false →
  doesLineCrossOtherElements grid fromState toState = false
  ∧ routePair transitionsObj grid symbolsStyle (fromIndex, fromState)
      (bendDirectionArray, code) (toIndex, toState)
    = Ok (bendDirectionArray,
          code ++ [StraightEdge fromState toState (labelOf symbolsStyle symbols)]).
Proof.
  intros Hp1 Hp2 Hadj Hne Hsym Hback.
  assert (doesLineCrossOtherElements grid fromState toState = false) as Hcross.
  { unfold doesLineCrossOtherElements. rewrite Hp1, Hp2.
    apply not_true_iff_false. rewrite existsb_exists.
    intros (c & _ & [Hskip Hseg]%andb_true_iff).
    apply negb_true_iff, bool_decide_eq_false in Hskip.
    apply onSegment_adjacent in Hseg; [tauto|done]. }
  split; [done|]. unfold routePair. rewrite Hsym, Hcross.
  rewrite bool_decide_eq_false_2 by done.
  assert (checkConnection transitionsObj fromState toState = 1) as ->; [|done].
  unfold checkConnection. rewrite Hback. unfold hasTransition. rewrite Hsym.
  rewrite bool_decide_eq_true_2 by eauto. done.
Qed.

Lemma adjacent_one_way_straight_witness :
  let transitionsObj := createTransitions "a,0,b" in
  let grid : Grid := [[Some "a"; Some "c"]; [Some "d"; Some "b"]] in
  doesLineCrossOtherElements grid "a" "b" = false
  ∧ routePair transitionsObj grid "" (0, "a") ([], []) (1, "b")
    = Ok ([], [StraightEdge "a" "b" (labelOf "" ["0"])]).
Proof.
  apply (adjacent_one_way_straight (createTransitions "a,0,b")
           [[Some "a"; Some "c"]; [Some "d"; Some "b"]] "" [] [] 0 1 "a" "b"
           (0, 0) (1, 1) ["0"]).
  - reflexivity.
  - reflexivity.
  - unfold adjacent. simpl. lia.
  - discriminate.
  - reflexivity.
  - reflexivity.
Defined.

(** ** The side of a loop *)

Lemma getEdgeAt_sides (grid : Grid) (i j : nat) (side : string) :
  getEdgeAt grid i j = Ok (Some side) → side ∈ ["above"; "below"; "left"; "right"].
Proof.
  unfold getEdgeAt, cellIsNull, bindR.
  repeat (case_bool_decide || case_match || simplify_eq);
    intros; simplify_eq; set_solver.
Qed.

Lemma getEdgeScan_sides (grid : Grid) (item : string) (cells : list (nat * nat * Cell))
    (side : string) :
  getEdgeScan grid item cells = Ok (Some side) →
  side ∈ ["above"; "below"; "left"; "right"]
  ∧ ∃ i j, (i, j, Some item) ∈ cells.
Proof.
  induction cells as [|[[i j] cell] cells IH]; simpl; [done|].
  case_bool_decide as Hcell.
  - subst cell. destruct (getEdgeAt grid i j) as [[side'|]|] eqn:Hat; simpl; [| |done].
    + intros [= <-]. split; [by eapply getEdgeAt_sides|]. exists i, j. by left.
    + intros (Hside & i' & j' & Hin)%IH. split; [done|]. exists i', j'. by right.
  - intros (Hside & i' & j' & Hin)%IH. split; [done|]. exists i', j'. by right.
Qed.

Lemma getEdgeScan_absent (grid : Grid) (item : string) (cells : list (nat * nat * Cell)) :
  (∀ c, c ∈ cells → c.2 ≠ Some item) → getEdgeScan grid item cells = Ok None.
Proof.
  induction cells as [|[[i j] cell] cells IH]; intros Hcells; [done|]. simpl.
  rewrite bool_decide_eq_false_2 by (apply (Hcells (i, j, cell)); by left).
  apply IH. intros c Hc. apply Hcells. by right.
Qed.

Lemma getEdgeScan_first_row (grid : Grid) (item : string)
    (cells1 cells2 : list (nat * nat * Cell)) :
  Forall (fun c : nat * nat * Cell => c.1.1 = 0) cells1 →
  (∃ c, c ∈ cells1 ∧ c.2 = Some item) →
  getEdgeScan grid item (cells1 ++ cells2) = Ok (Some "above").
Proof.
  induction 1 as [|[[i j] cell] cells1 Hi _ IH]; intros (c & Hc & Hitem).
  - by apply elem_of_nil in Hc.
  - simpl in *. subst i. case_bool_decide as Hcell; [done|].
    apply IH. exists c. split; [|done].
    apply elem_of_cons in Hc as [->|Hc]; [|done]. simpl in Hitem. done.
Qed.

(** X20: [getEdge] answers with one of the four sides and only for a state
    that sits in the grid; for a state that is not in the grid it answers
    [null]; and for a state in the first row it answers [above]. *)
Theorem getEdge_sides (grid : Grid) (item : string) :
  (∀ side, getEdge grid item = Ok (Some side) →
           side ∈ ["above"; "below"; "left"; "right"]
           ∧ ∃ p, gridCell grid p = Some (Some item))
  ∧ ((∀ p, gridCell grid p ≠ Some (Some item)) → getEdge grid item = Ok None)
  ∧ (∀ row, grid !! 0 = Some row → Some item ∈ row →
            getEdge grid item = Ok (Some "above")).
Proof.
  unfold getEdge. split; [|split].
  - intros side (Hside & i & j & Hin)%getEdgeScan_sides. split; [done|].
    exists (i, j). by apply elem_of_cellsWithIndex.
  - intros Habsent. apply getEdgeScan_absent. intros [[i j] cell] Hin Hcell.
    simpl in Hcell. subst cell. apply elem_of_cellsWithIndex in Hin. by eapply Habsent.
  - intros row Hrow Hin. destruct grid as [|row0 rest]; [done|]. simplify_eq/=.
    unfold cellsWithIndex. cbn [imap mjoin list_join].
    apply getEdgeScan_first_row.
    + apply Forall_forall. intros c (j & cell & -> & _)%elem_of_lookup_imap. done.
    + apply list_elem_of_lookup in Hin as [j Hj].
      exists (0, j, Some item). split; [|done].
      apply elem_of_lookup_imap. by exists j, (Some item).
Qed.

Lemma getEdge_sides_witness :
  getEdge [[Some "a"; Some "b"]; [Some "c"; None]] "b" = Ok (Some "above").
Proof.
  apply (proj2 (proj2 (getEdge_sides [[Some "a"; Some "b"]; [Some "c"; None]] "b"))
           [Some "a"; Some "b"]).
  - reflexivity.
  - compute_done.
Defined.

(** ** Bend directions of the two orders *)

(** X21: for two states that [bendDirection] finds in different columns,
    the two orders of the states get opposite bend directions, one [left]
    and one [right], and the same label anchor exactly when both states
    are found in the first row or both in the last row. *)
Theorem bendDirection_swap (fromState toState : string) (grid : Grid) :
  (locate grid fromState).2 ≠ (locate grid toState).2 →
  ∃ d d', bendDirection fromState toState grid = Ok d
          ∧ bendDirection toState fromState grid = Ok d'
          ∧ ((d.1 = "left" ∧ d'.1 = "right") ∨ (d.1 = "right" ∧ d'.1 = "left"))
          ∧ (d.2 = d'.2 ↔
             (locate grid fromState).1 = (locate grid toState).1
             ∧ ((locate grid fromState).1 = 0%Z
                ∨ (locate grid fromState).1 = (Z.of_nat (length grid) - 1)%Z)).
Proof.
  unfold bendDirection.
  destruct (locate grid fromState) as [fromRow fromCol],
           (locate grid toState) as [toRow toCol]. simpl. intros Hcol.
  repeat (case_bool_decide; simpl); try lia;
    (eexists _, _; split; [reflexivity|]; split; [reflexivity|]; simpl;
     split; [tauto|]; split; [intros ?; try discriminate; lia|intros ?; try done; lia]).
Qed.

Lemma bendDirection_swap_witness :
  ∃ d d', bendDirection "a" "b" [[Some "a"; Some "b"]] = Ok d
          ∧ bendDirection "b" "a" [[Some "a"; Some "b"]] = Ok d'
          ∧ ((d.1 = "left" ∧ d'.1 = "right") ∨ (d.1 = "right" ∧ d'.1 = "left"))
          ∧ (d.2 = d'.2 ↔
             (locate [[Some "a"; Some "b"]] "a").1 = (locate [[Some "a"; Some "b"]] "b").1
             ∧ ((locate [[Some "a"; Some "b"]] "a").1 = 0%Z
                ∨ (locate [[Some "a"; Some "b"]] "a").1
                  = (Z.of_nat (length [[Some "a"; Some "b"]]) - 1)%Z)).
Proof.
  apply (bendDirection_swap "a" "b" [[Some "a"; Some "b"]]). vm_compute. discriminate.
Defined.

(** ** Nodes and edges together *)

Lemma filter_stdpp_all {A} (P : A → Prop) `{!∀ x, Decision (P x)} (l : list A) :
  (∀ x, x ∈ l → P x) → filter P l = l.
Proof.
  induction l as [|x l IH]; intros Hl; [done|].
  rewrite filter_cons_True by (apply Hl; by left).
  f_equal. apply IH. intros y Hy. apply Hl. by right.
Qed.

Lemma findOptimalStatePlacement_occupants
    states initState acceptingStates transitions accToRight :
  initState ∈ states →
  occupants (findOptimalStatePlacement states initState acceptingStates transitions
               accToRight) ≡ₚ states.
Proof.
  intros Hinit.
  pose proof (findOptimalStatePlacement_initial_listed states initState acceptingStates
                transitions accToRight Hinit) as Hne.
  destruct (findOptimalStatePlacement_cases states initState acceptingStates
              transitions accToRight) as [[Hnil _]|([[rows cols] perm] & Hc & _ & Hgrid & _)];
    [done|].
  rewrite Hgrid, (candidate_occupants states) by done.
  apply elem_of_candidates in Hc as [_ Hperm]. by apply getPermutations_Permutation.
Qed.

Lemma generateFrom_declared
    statesArray initialState acceptingStatesArray transitionsObj
    initialWhere acceptingBy symbolsStyle :
  initialState ∈ statesArray →
  "" ∉ statesArray →
  ∃ d, generateFrom statesArray initialState acceptingStatesArray transitionsObj
         initialWhere acceptingBy symbolsStyle = Ok d
       ∧ nodeState <$> nodes d ≡ₚ statesArray
       ∧ ∀ e, e ∈ edges d →
              edgeFrom e ∈ nodeState <$> nodes d ∧ edgeTo e ∈ nodeState <$> nodes d.
Proof.
  intros Hinit Hempty. eexists. split; [apply generateFrom_Ok|]. simpl.
  assert (nodeState <$> generateNodes initialState initialWhere acceptingStatesArray
            (findOptimalStatePlacement statesArray initialState acceptingStatesArray
               transitionsObj (bool_decide (acceptingBy = "accepting by arrow")))
          ≡ₚ statesArray) as Hnodes.
  { rewrite (proj1 (generateNodes_fold _ _ _ _)).
    pose proof (findOptimalStatePlacement_occupants statesArray initialState
                  acceptingStatesArray transitionsObj
                  (bool_decide (acceptingBy = "accepting by arrow")) Hinit) as Hocc.
    rewrite filter_stdpp_all; [done|].
    intros s Hs ->. apply Hempty. by rewrite <- Hocc. }
  split; [done|].
  intros e (bda0 & [[i a] [j b]] & [Ha Hb]%elem_of_statePairs & He)%runPairs_edge.
  apply routeOutcome_edge in He as (Hfrom & Hto & _).
  rewrite Hnodes, Hfrom, Hto. split; by eapply list_elem_of_lookup_2.
Qed.

Lemma statesArrayOf_nonempty (states : string) : "" ∉ statesArrayOf states.
Proof.
  unfold statesArrayOf. intros Hin%list_elem_of_In%filter_In. by destruct Hin as [_ ?].
Qed.

(** X22: [generate] reads the state list without empty names. When the
    initial state is one of the listed states, the diagram declares one
    node per entry of the state list and both ends of every edge are
    declared nodes; when it is not, the diagram declares no node at all. *)
Theorem generate_well_formed
    states initialState acceptingStates transitions initialWhere acceptingBy symbolsStyle :
  ∃ d, generate states initialState acceptingStates transitions
         initialWhere acceptingBy symbolsStyle = Ok d
       ∧ ("" ∉ statesArrayOf states)
       ∧ (initialState ∈ statesArrayOf states →
          nodeState <$> nodes d ≡ₚ statesArrayOf states
          ∧ ∀ e, e ∈ edges d →
                 edgeFrom e ∈ nodeState <$> nodes d ∧ edgeTo e ∈ nodeState <$> nodes d)
       ∧ (initialState ∉ statesArrayOf states → nodes d = []).
Proof.
  pose proof (statesArrayOf_nonempty states) as Hempty.
  change (generate states initialState acceptingStates transitions
            initialWhere acceptingBy symbolsStyle)
    with (generateFrom (statesArrayOf states) initialState
            (trim <$> splitBy isComma acceptingStates) (createTransitions transitions)
            initialWhere acceptingBy symbolsStyle).
  destruct (decide (initialState ∈ statesArrayOf states)) as [Hin|Hout].
  - destruct (generateFrom_declared (statesArrayOf states) initialState
                (trim <$> splitBy isComma acceptingStates) (createTransitions transitions)
                initialWhere acceptingBy symbolsStyle Hin Hempty) as (d & Hd & Hnodes & Hedges).
    exists d. repeat split; try done; by apply Hedges.
  - eexists. split; [apply generateFrom_Ok|]. split; [done|]. split; [done|].
    intros _. simpl.
    by rewrite findOptimalStatePlacement_initial_missing.
Qed.

(** ** The generator for deterministic automata *)

Lemma lookupKey_setKey {V} (l : list (string * V)) (k k' : string) (v : V) :
  lookupKey k (DFAGenerator.setKey k' v l)
  = if bool_decide (k' = k) then Some v else lookupKey k l.
Proof.
  unfold DFAGenerator.setKey. destruct (lookupKey k' l) as [v'|] eqn:Hk'.
  - rewrite lookupKey_alterKey. case_bool_decide; [|done]. subst k'. by rewrite Hk'.
  - rewrite lookupKey_app. simpl. case_bool_decide.
    + subst k'. by rewrite Hk'.
    + by destruct (lookupKey k l).
Qed.

Lemma destinationOf_addTransition (transitions : list (string * list (string * string)))
    (fromState key toState a k : string) :
  DFAGenerator.destinationOf
    (DFAGenerator.addTransition transitions (fromState, key, toState)) a k
  = if bool_decide ((fromState, key) = (a, k)) then Some toState
    else DFAGenerator.destinationOf transitions a k.
Proof.
  unfold DFAGenerator.destinationOf, DFAGenerator.addTransition.
  rewrite lookupKey_alterKey, lookupKey_ensureKey.
  destruct (decide (fromState = a)) as [->|Ha].
  - rewrite (bool_decide_eq_true_2 (a = a)) by done.
    destruct (lookupKey a transitions) as [byKey|]; cbn -[DFAGenerator.setKey];
      rewrite lookupKey_setKey.
    + destruct (decide (key = k)) as [->|Hk].
      * by rewrite !bool_decide_eq_true_2.
      * rewrite (bool_decide_eq_false_2 (key = k)) by done.
        by rewrite (bool_decide_eq_false_2 ((a, key) = (a, k))) by congruence.
    + destruct (decide (key = k)) as [->|Hk].
      * by rewrite !bool_decide_eq_true_2.
      * rewrite (bool_decide_eq_false_2 (key = k)) by done.
        by rewrite (bool_decide_eq_false_2 ((a, key) = (a, k))) by congruence.
  - rewrite (bool_decide_eq_false_2 (fromState = a)) by done.
    rewrite (bool_decide_eq_false_2 ((fromState, key) = (a, k))) by congruence.
    by destruct (lookupKey a transitions).
Qed.

Lemma destinationOf_foldl (transitions : list (string * list (string * string)))
    (records : list (string * string * string)) (a k : string) :
  DFAGenerator.destinationOf (foldl DFAGenerator.addTransition transitions records) a k
  = match last ((fun r : string * string * string => r.2)
                <$> filter (fun r : string * string * string => r.1 = (a, k)) records) with
    | Some toState => Some toState
    | None => DFAGenerator.destinationOf transitions a k
    end.
Proof.
  revert transitions.
  induction records as [|[[fromState key] toState] records IH]; intros transitions; [done|].
  cbn [foldl]. rewrite IH, destinationOf_addTransition, filter_cons. simpl.
  case_bool_decide.
  - rewrite decide_True by done. csimpl. rewrite last_cons.
    by destruct (last _).
  - by rewrite decide_False by done.
Qed.

(** X23: where the generator for deterministic automata stores one
    destination per source and symbol key, it is the destination of the
    last record of the text with that source and key: a later record
    replaces an earlier one. It is the last entry of the destination list
    that the generator for nondeterministic automata keeps for the same
    text. *)
Theorem createTransitions_last_wins (transitionString a k : string) :
  DFAGenerator.destinationOf (DFAGenerator.createTransitions transitionString) a k
  = last ((fun r : string * string * string => r.2)
          <$> filter (fun r : string * string * string => r.1 = (a, k))
                     (transitionRecords transitionString))
  ∧ DFAGenerator.destinationOf (DFAGenerator.createTransitions transitionString) a k
    = last (destinationsOf (createTransitions transitionString) a k).
Proof.
  unfold DFAGenerator.createTransitions, createTransitions.
  rewrite destinationOf_foldl, destinationsOf_foldl. unfold transitionRecords. simpl.
  split; by destruct (last _).
Qed.

(** X24: whether two states are next to each other in the state list does
    not depend on the order in which they are given, and it holds exactly
    when two consecutive entries of the list are the two states, in either
    order; the scan never reads past the end of the list. *)
Theorem areElementsNextToEachOther_spec (arr : list string) (e1 e2 : string) :
  DFAGenerator.areElementsNextToEachOther arr e1 e2
  = DFAGenerator.areElementsNextToEachOther arr e2 e1
  ∧ (DFAGenerator.areElementsNextToEachOther arr e1 e2 = true ↔
     ∃ i, (arr !! i = Some e1 ∧ arr !! S i = Some e2)
          ∨ (arr !! i = Some e2 ∧ arr !! S i = Some e1)).
Proof.
  unfold DFAGenerator.areElementsNextToEachOther. split.
  - apply existsb_iff. intros i _. apply orb_comm.
  - rewrite existsb_exists. split.
    + intros (i & _ & Hi). exists i. replace (S i) with (i + 1) by lia.
      apply orb_true_iff in Hi as [Hi|Hi]; apply andb_true_iff in Hi as [H1 H2];
        apply bool_decide_eq_true in H1, H2; auto.
    + intros (i & Hi). exists i. replace (i + 1) with (S i) by lia. split.
      * apply in_seq.
        assert (S i < length arr); [|lia].
        destruct Hi as [[_ Hi]|[_ Hi]]; by apply lookup_lt_Some in Hi.
      * apply orb_true_iff.
        destruct Hi as [[H1 H2]|[H1 H2]]; [left|right];
          apply andb_true_iff; split; by apply bool_decide_eq_true.
Qed.

(** ** The options of the edge declarations *)

Lemma bendDirection_anchor (fromState toState : string) (grid : Grid) (d : string * string) :
  bendDirection fromState toState grid = Ok d → d.2 ∈ sides.
Proof.
  unfold bendDirection, sides.
  destruct (locate grid fromState) as [fromRow fromCol],
           (locate grid toState) as [toRow toCol].
  repeat (case_bool_decide || case_match || simpl);
    intros; simplify_eq; simpl; set_solver.
Qed.

Lemma routeOutcome_sides transitionsObj (grid : Grid) symbolsStyle
    (bda : list (list string)) (i j : nat) (a b : string) (e : Edge) :
  e ∈ (routeOutcome transitionsObj grid symbolsStyle bda (i, a, (j, b))).2 →
  match e with
  | LoopEdge _ loopPos _ => loopPos ∈ sides
  | StraightEdge _ _ _ => True
  | BentEdge _ _ _ anchor _ => anchor ∈ sides
  end.
Proof.
  pose proof (routeOutcome_cases transitionsObj grid symbolsStyle bda i j a b) as Hcases.
  destruct (checkTransition transitionsObj a b) as [symbols|]; simpl in Hcases.
  2:{ rewrite Hcases. by intros ?%elem_of_nil. }
  case_bool_decide.
  { destruct Hcases as (side & Hside & ->). intros ->%list_elem_of_singleton.
    destruct side as [side|]; simpl; [|unfold sides; set_solver].
    unfold getEdge in Hside. by apply getEdgeScan_sides in Hside as [? _]. }
  destruct (drawnStraight transitionsObj grid a b).
  { rewrite Hcases. by intros ->%list_elem_of_singleton. }
  destruct Hcases as (d & Hd & _ & ->). intros ->%list_elem_of_singleton.
  by eapply bendDirection_anchor.
Qed.

(** X25: every loop side and every label anchor that the generator writes
    is one of [above], [below], [left] and [right], and every bend
    direction is [left] or [right], for whatever grid the search returns. *)
Theorem generateFrom_options
    statesArray initialState acceptingStatesArray transitionsObj
    initialWhere acceptingBy symbolsStyle :
  ∃ d, generateFrom statesArray initialState acceptingStatesArray transitionsObj
         initialWhere acceptingBy symbolsStyle = Ok d
       ∧ Forall validOptions (edges d).
Proof.
  eexists. split; [apply generateFrom_Ok|]. simpl.
  set (grid := findOptimalStatePlacement statesArray initialState acceptingStatesArray
                 transitionsObj (bool_decide (acceptingBy = "accepting by arrow"))).
  set (n := length statesArray).
  destruct (runPairs_mirrored transitionsObj grid symbolsStyle n
              (replicate n (replicate n "")) (statePairs statesArray)
              (mirrored_replicate n) (statePairs_indices statesArray))
    as ((_ & _ & Hdirs) & _ & Hbent).
  apply Forall_forall. intros e He.
  pose proof He as (bda0 & [[i a] [j b]] & _ & Hout)%runPairs_edge.
  apply routeOutcome_sides in Hout.
  destruct e as [state loopPos label|fromState toState label
                 |fromState toState bD anchor label]; simpl; [done|done|].
  split; [|done].
  destruct (Hbent _ He eq_refl) as (i' & j' & _ & _ & _ & _ & _ & Hentry & Hset).
  simpl in Hentry, Hset. destruct (Hdirs i' j') as [Hd|Hd]; [congruence|].
  by rewrite <- Hentry.
Qed.

(** ** The side of a loop on the grid of the search *)

Lemma cellIsNull_gridCell (grid : Grid) (i j : nat) :
  i < length grid →
  cellIsNull grid i j = Ok (bool_decide (gridCell grid (i, j) = Some None)).
Proof.
  intros [row Hrow]%lookup_lt_is_Some_2. unfold cellIsNull, gridCell. simpl.
  by rewrite Hrow.
Qed.

Lemma getEdgeAt_fullButLast rows cols (grid : Grid) (p : nat * nat) (cell : Cell) :
  fullButLast rows cols grid → gridCell grid p = Some cell →
  getEdgeAt grid p.1 p.2 = Ok (loopSide rows cols grid p).
Proof.
  intros [Hrect Hfull] Hcell. destruct p as [i j]. simpl.
  destruct (gridCell_rectangular rows cols grid (i, j) cell Hrect Hcell) as [Hi Hj].
  simpl in Hi, Hj. pose proof Hrect as [Hlen Hrows].
  assert (∀ q, q ≠ (rows - 1, cols - 1) →
               bool_decide (gridCell grid q = Some None) = false) as Hnot.
  { intros q Hq. apply bool_decide_eq_false. intros Hnone. by apply Hq, Hfull. }
  unfold getEdgeAt, loopSide. simpl.
  case_bool_decide as Hi0; [done|].
  rewrite cellIsNull_gridCell by lia. simpl.
  rewrite Hnot by (intros [= ? ?]; lia).
  rewrite (bool_decide_ext (Z.of_nat i = Z.of_nat (length grid) - 1)%Z (i = rows - 1))
    by lia.
  case_bool_decide as Hlast; [done|]. simpl.
  rewrite cellIsNull_gridCell by lia. simpl.
  destruct (bool_decide (gridCell grid (i + 1, j) = Some None)); [done|].
  case_bool_decide as Hj0; [done|].
  rewrite cellIsNull_gridCell by lia. simpl.
  rewrite Hnot by (intros [= ? ?]; lia).
  destruct (lookup_lt_is_Some_2 grid i) as [row Hrow]; [lia|]. rewrite Hrow.
  assert (length row = cols) as Hrowlen.
  { eapply Forall_forall in Hrows; [|by eapply list_elem_of_lookup_2]. done. }
  rewrite (bool_decide_ext (Z.of_nat j = Z.of_nat (length row) - 1)%Z (j = cols - 1))
    by lia.
  case_bool_decide as Hjlast; [done|].
  rewrite cellIsNull_gridCell by lia. simpl.
  by rewrite Hnot by (intros [= ? ?]; lia).
Qed.

Lemma getEdgeScan_unique (grid : Grid) (item : string) (p : nat * nat)
    (r : option string) (cells : list (nat * nat * Cell)) :
  (∀ c, c ∈ cells → c.2 = Some item → c.1 = p) →
  (∃ c, c ∈ cells ∧ c.2 = Some item) →
  getEdgeAt grid p.1 p.2 = Ok r →
  getEdgeScan grid item cells = Ok r.
Proof.
  intros Hall Hex Hat.
  induction cells as [|[[i j] cell] cells IH]; [by destruct Hex as (c & ?%elem_of_nil & _)|].
  simpl. case_bool_decide as Hcell.
  - rewrite <- (Hall (i, j, cell)) in Hat by (by left || done). simpl in Hat.
    rewrite Hat. simpl. destruct r as [side|]; [done|].
    destruct (decide (Exists (fun c : nat * nat * Cell => c.2 = Some item) cells))
      as [Hmore|Hnone].
    + apply IH.
      * intros c Hc. apply Hall. by right.
      * apply Exists_exists in Hmore. done.
    + apply getEdgeScan_absent. intros c Hc Hitem. apply Hnone, Exists_exists. eauto.
  - apply IH.
    + intros c Hc. apply Hall. by right.
    + destruct Hex as (c & [->|Hc]%elem_of_cons & Hitem); [done|eauto].
Qed.

(** X26: on the grid that the search returns, [getEdge] gives a state that
    sits in one cell only the side [above] in the first row; otherwise
    [below] in the last row and above an empty last cell; otherwise [left]
    in the first column and [right] in the last column; and no side for a
    state inside the grid, whose loop the generator then draws [below]. *)
Theorem getEdge_on_placement states initState acceptingStates transitions accToRight :
  let grid :=
    findOptimalStatePlacement states initState acceptingStates transitions accToRight in
  ∃ rows cols,
    fullButLast rows cols grid
    ∧ ∀ item p,
        gridCell grid p = Some (Some item) →
        (∀ q, gridCell grid q = Some (Some item) → q = p) →
        getEdge grid item = Ok (loopSide rows cols grid p).
Proof.
  intros grid.
  destruct (findOptimalStatePlacement_fullButLast states initState acceptingStates
              transitions accToRight) as (rows & cols & Hfull).
  exists rows, cols. split; [done|]. intros item p Hp Hunique.
  unfold getEdge. apply (getEdgeScan_unique _ _ p).
  - intros [[i j] cell] Hin Hitem. simpl in *. subst cell.
    apply elem_of_cellsWithIndex in Hin. by apply Hunique.
  - exists (p, Some item). split; [|done]. destruct p as [i j].
    by apply elem_of_cellsWithIndex.
  - by eapply getEdgeAt_fullButLast.
Qed.

(** ** The two scans that find a state *)

Lemma cellsWithIndex_snoc (grid : Grid) (row : list Cell) :
  cellsWithIndex (grid ++ [row])
  = cellsWithIndex grid ++ imap (fun j cell => (length grid, j, cell)) row.
Proof.
  unfold cellsWithIndex. rewrite imap_app, join_app. simpl.
  by rewrite app_nil_r, Nat.add_0_r.
Qed.

Lemma find_app_first {A} (f : A → bool) (l1 l2 : list A) :
  List.find f (l1 ++ l2)
  = match List.find f l1 with Some x => Some x | None => List.find f l2 end.
Proof. induction l1 as [|x l1 IH]; [done|]. simpl. by destruct (f x). Qed.

Lemma find_row (i : nat) (row : list Cell) (s : string) (k : nat) :
  (fun c : nat * nat * Cell => c.1) <$>
    List.find (fun c : nat * nat * Cell => bool_decide (c.2 = Some s))
              (imap (fun j cell => (i, k + j, cell)) row)
  = (fun j => (i, k + j)) <$> indexOf row s.
Proof.
  revert k. induction row as [|cell row IH]; intros k; [done|].
  cbn [imap List.find indexOf snd]. case_bool_decide.
  - simpl. by rewrite Nat.add_0_r.
  - rewrite (imap_ext _ (fun j cell => (i, S k + j, cell)));
      [|intros j c _; simpl; do 2 f_equal; lia].
    rewrite IH. destruct (indexOf row s) as [j|]; [|done]. simpl. do 2 f_equal. lia.
Qed.

Lemma findPosition_snoc (grid : Grid) (row : list Cell) (s : string) :
  findPosition (grid ++ [row]) s
  = match findPosition grid s with
    | Some p => Some p
    | None => (fun j => (length grid, j)) <$> indexOf row s
    end.
Proof.
  unfold findPosition. rewrite cellsWithIndex_snoc, find_app_first.
  destruct (List.find _ (cellsWithIndex grid)); [done|]. simpl.
  apply (find_row (length grid) row s 0).
Qed.

Lemma locate_snoc (grid : Grid) (row : list Cell) (s : string) :
  locate (grid ++ [row]) s
  = match indexOf row s with
    | Some colIndex => (Z.of_nat (length grid), Z.of_nat colIndex)
    | None => locate grid s
    end.
Proof. unfold locate. by rewrite imap_pair_snoc, foldl_app. Qed.

Lemma indexOf_Some (row : list Cell) (s : string) (j : nat) :
  indexOf row s = Some j → row !! j = Some (Some s).
Proof.
  revert j. induction row as [|cell row IH]; intros j; [done|]. simpl.
  case_bool_decide; [intros [= <-]; simpl; congruence|].
  destruct (indexOf row s) as [j'|]; [|done]. intros [= <-]. simpl. by apply IH.
Qed.

Lemma locate_absent (grid : Grid) (s : string) :
  findPosition grid s = None ↔ locate grid s = ((-1)%Z, (-1)%Z).
Proof.
  induction grid as [|row grid IH] using rev_ind; [done|].
  rewrite findPosition_snoc, locate_snoc.
  destruct (indexOf row s) as [c|], (findPosition grid s) as [p|]; simpl.
  - split; [done|]. intros [= ? ?]. lia.
  - split; [done|]. intros [= ? ?]. lia.
  - rewrite <- IH. done.
  - rewrite <- IH. done.
Qed.

Lemma locate_single_row (grid : Grid) (s : string) (p : nat * nat) :
  findPosition grid s = Some p →
  (∀ q, gridCell grid q = Some (Some s) → q.1 = p.1) →
  locate grid s = (Z.of_nat p.1, Z.of_nat p.2).
Proof.
  induction grid as [|row grid IH] using rev_ind; [done|].
  rewrite findPosition_snoc, locate_snoc. intros Hfind Hrow.
  destruct (indexOf row s) as [c|] eqn:Hc.
  - assert (gridCell (grid ++ [row]) (length grid, c) = Some (Some s)) as Hlast.
    { unfold gridCell. simpl. rewrite lookup_app_r, Nat.sub_diag by lia. simpl.
      by apply indexOf_Some. }
    apply Hrow in Hlast. simpl in Hlast.
    destruct (findPosition grid s) as [p'|] eqn:Hp'.
    + simplify_eq. apply findPosition_Some, gridCell_lt in Hp'. lia.
    + simpl in Hfind. by simplify_eq.
  - destruct (findPosition grid s) as [p'|] eqn:Hp'; [|done]. simplify_eq.
    apply IH; [done|]. intros q Hq. apply Hrow.
    pose proof (gridCell_lt _ _ _ Hq) as Hlt.
    unfold gridCell in *. by rewrite lookup_app_l.
Qed.

(** X27: the scan of [bendDirection] and the scan of
    [doesLineCrossOtherElements] find a state in the same cell when all
    cells that hold the state are in one row, as on a grid that holds the
    state once; and the one says that the state is not in the grid, by its
    pair of [-1], exactly when the other does, by [null]. *)
Theorem locate_findPosition (grid : Grid) (s : string) :
  (findPosition grid s = None ↔ locate grid s = ((-1)%Z, (-1)%Z))
  ∧ ∀ p, findPosition grid s = Some p →
         (∀ q, gridCell grid q = Some (Some s) → q.1 = p.1) →
         locate grid s = (Z.of_nat p.1, Z.of_nat p.2).
Proof. split; [apply locate_absent|apply locate_single_row]. Qed.

(** the two scans part where a state sits in two rows: the one keeps the
    first row, the other the last *)
Example locate_findPosition_two_rows :
  findPosition [[Some "a"]; [Some "a"]] "a" = Some (0, 0)
  ∧ locate [[Some "a"]; [Some "a"]] "a" = (1%Z, 0%Z).
Proof. done. Qed.

(** ** Placement beyond the capacity of a shape *)

Lemma placeStep_overflow rows cols (st : Grid * gmap string (nat * nat))
    (k : nat) (s : string) :
  rows * cols ≤ k → placeStep rows cols st (k, s) = st.
Proof.
  intros Hk. unfold placeStep. rewrite bool_decide_eq_false_2; [done|].
  intros [Hrow Hcol]. destruct cols as [|c]; [simpl in Hcol; lia|].
  pose proof (Nat.div_le_lower_bound k (S c) rows). lia.
Qed.

Lemma foldl_placeStep_overflow rows cols (st : Grid * gmap string (nat * nat))
    (l : list string) (k : nat) :
  rows * cols ≤ k →
  foldl (placeStep rows cols) st (imap (fun i x => (k + i, x)) l) = st.
Proof.
  revert k. induction l as [|x l IH]; intros k Hk; [done|].
  cbn [imap foldl]. rewrite Nat.add_0_r, placeStep_overflow by done.
  rewrite (imap_ext _ (fun i x => (S k + i, x)));
    [|intros; simpl; f_equal; lia].
  apply IH. lia.
Qed.

Lemma placeStates_take rows cols perm :
  placeStates rows cols perm = placeStates rows cols (take (rows * cols) perm).
Proof.
  rewrite <- (take_drop (rows * cols) perm) at 1. unfold placeStates.
  rewrite imap_app, foldl_app.
  destruct (decide (rows * cols ≤ length perm)).
  - apply (foldl_placeStep_overflow rows cols _ (drop (rows * cols) perm)
             (length (take (rows * cols) perm))).
    rewrite length_take. lia.
  - by rewrite drop_ge by lia.
Qed.

Lemma placeStates_join rows cols perm :
  rectangular rows cols (placeStates rows cols perm).1
  ∧ mjoin (placeStates rows cols perm).1
    = (Some <$> take (rows * cols) perm) ++ replicate (rows * cols - length perm) None.
Proof.
  rewrite placeStates_take.
  pose proof (placeStates_spec rows cols (take (rows * cols) perm)) as Hspec.
  destruct (placeStates rows cols (take (rows * cols) perm)) as [grid statePositions].
  destruct Hspec as (Hrect & Hjoin & _); [rewrite length_take; lia|].
  split; [done|]. simpl. rewrite Hjoin. do 2 f_equal. rewrite length_take. lia.
Qed.

(** X28: the placement loop never writes outside the grid: for any list of
    states and any shape the grid keeps its shape, the states beyond the
    capacity of the shape are dropped, and the cells read row by row are
    the states that fit, in their order, and then empty cells. *)
Theorem placeStates_capacity rows cols perm :
  placeStates rows cols perm = placeStates rows cols (take (rows * cols) perm)
  ∧ rectangular rows cols (placeStates rows cols perm).1
  ∧ mjoin (placeStates rows cols perm).1
    = (Some <$> take (rows * cols) perm) ++ replicate (rows * cols - length perm) None.
Proof. split; [apply placeStates_take|apply placeStates_join]. Qed.

(** ** When the accepting-state constraint has no effect *)

Lemma placeStates_cells rows cols perm (row : list Cell) (cell : Cell) :
  row ∈ (placeStates rows cols perm).1 → cell ∈ row →
  cell = None ∨ ∃ s, cell = Some s ∧ s ∈ perm.
Proof.
  intros Hrow Hcell.
  assert (cell ∈ mjoin (placeStates rows cols perm).1) as Hin
    by (apply list_elem_of_join; eauto).
  rewrite (proj2 (placeStates_join rows cols perm)) in Hin.
  apply elem_of_app in Hin as [Hin|Hin].
  - apply list_elem_of_fmap in Hin as (s & -> & Hs). right. exists s. split; [done|].
    apply elem_of_take in Hs as (k & Hk & _). by eapply list_elem_of_lookup_2.
  - apply elem_of_replicate in Hin as [-> _]. by left.
Qed.

Lemma findLastIndex_Some {A} (p : A → bool) (row : list A) (i : nat) :
  findLastIndex p row = Some i → ∃ x, row !! i = Some x ∧ p x = true.
Proof.
  revert i. induction row as [|x row IH]; intros i; [done|]. simpl.
  destruct (findLastIndex p row) as [i'|].
  - intros [= <-]. simpl. by apply IH.
  - destruct (p x) eqn:Hx; [|done]. intros [= <-]. by exists x.
Qed.

Lemma accToRightRejects_no_accepting acceptingStates initState (grid : Grid) :
  (∀ row cell, row ∈ grid → cell ∈ row → includesCell acceptingStates cell = false) →
  accToRightRejects acceptingStates initState grid = false.
Proof.
  intros Hcells. unfold accToRightRejects. apply andb_false_iff. right.
  apply not_true_is_false. intros (row & Hrow%list_elem_of_In & Hsome)%existsb_exists.
  unfold acceptingBeforeRightmost in Hsome.
  destruct (findLastIndex isOccupied row) as [rightmost|]; [|done].
  apply existsb_exists in Hsome as (cell & Hin & [Hacc _]%andb_prop).
  apply list_elem_of_In, elem_of_take in Hin as (k & Hk & _).
  rewrite (Hcells row cell) in Hacc; [done|done|by eapply list_elem_of_lookup_2].
Qed.

Lemma accToRightRejects_all_accepting acceptingStates initState (grid : Grid) :
  (∀ row cell, row ∈ grid → cell ∈ row → isOccupied cell = true →
               includesCell acceptingStates cell = true) →
  accToRightRejects acceptingStates initState grid = false.
Proof.
  intros Hcells. unfold accToRightRejects. apply andb_false_iff. left.
  apply negb_false_iff, forallb_forall. intros row Hrow%list_elem_of_In.
  unfold rightmostIsAccepting.
  destruct (findLastIndex isOccupied row) as [rightmost|] eqn:Hlast; [|done].
  apply findLastIndex_Some in Hlast as (cell & Hcell & Hocc). rewrite Hcell.
  apply (Hcells row); [done| |done]. by eapply list_elem_of_lookup_2.
Qed.

Lemma foldl_ext_in {A B} (f g : A → B → A) (l : list B) (a : A) :
  (∀ a x, x ∈ l → f a x = g a x) → foldl f a l = foldl g a l.
Proof.
  revert a. induction l as [|x l IH]; intros a Hfg; [done|]. simpl.
  rewrite (Hfg a x) by left. apply IH. intros a' y Hy. apply Hfg. by right.
Qed.

Lemma considerCandidate_flag states initState acceptingStates transitions
    rows cols (best : Grid * option Z) (perm : list string) :
  Forall (fun s => s ∉ acceptingStates) states
  ∨ Forall (fun s => s ∈ acceptingStates) states →
  perm ≡ₚ states →
  considerCandidate initState acceptingStates transitions true rows cols best perm
  = considerCandidate initState acceptingStates transitions false rows cols best perm.
Proof.
  intros Hacc Hperm. unfold considerCandidate.
  pose proof (placeStates_cells rows cols perm) as Hcells.
  destruct (placeStates rows cols perm) as [grid statePositions]. simpl in Hcells.
  destruct (negb (initialInFirstColumn initState grid)); [done|].
  assert (accToRightRejects acceptingStates initState grid = false) as ->; [|done].
  destruct Hacc as [Hnone|Hall].
  - apply accToRightRejects_no_accepting. intros row cell Hrow Hcell.
    destruct (Hcells row cell Hrow Hcell) as [->|(s & -> & Hs)]; [done|]. simpl.
    apply bool_decide_eq_false. rewrite Forall_forall in Hnone. apply Hnone.
    by rewrite <- Hperm.
  - apply accToRightRejects_all_accepting. intros row cell Hrow Hcell Hocc.
    destruct (Hcells row cell Hrow Hcell) as [->|(s & -> & Hs)]; [done|]. simpl.
    apply bool_decide_eq_true. rewrite Forall_forall in Hall. apply Hall.
    by rewrite <- Hperm.
Qed.

(** X29: when none of the states is accepting, and when all of them are,
    the accepting-state constraint rejects no candidate, and the search
    returns the same grid with the constraint switched on as with it
    switched off. *)
Theorem accToRight_without_effect states initState acceptingStates transitions :
  Forall (fun s => s ∉ acceptingStates) states
  ∨ Forall (fun s => s ∈ acceptingStates) states →
  findOptimalStatePlacement states initState acceptingStates transitions true
  = findOptimalStatePlacement states initState acceptingStates transitions false.
Proof.
  intros Hacc. unfold findOptimalStatePlacement, searchLoop. do 2 f_equal.
  apply foldl_ext_in. intros best [rows cols] _.
  apply foldl_ext_in. intros best' perm Hperm%getPermutations_Permutation.
  by eapply considerCandidate_flag.
Qed.

Lemma accToRight_without_effect_witness :
  findOptimalStatePlacement ["q0"; "q1"; "q2"] "q0" ["q3"]
    (createTransitions "q0,a,q1;q1,b,q2") true
  = findOptimalStatePlacement ["q0"; "q1"; "q2"] "q0" ["q3"]
      (createTransitions "q0,a,q1;q1,b,q2") false.
Proof.
  apply (accToRight_without_effect ["q0"; "q1"; "q2"] "q0" ["q3"]
           (createTransitions "q0,a,q1;q1,b,q2")).
  left. compute_done.
Defined.
